(** * go-ovn replica cache and transaction client: a shallow embedding

    The development follows [go-controller/vendor/github.com/ebay/go-ovn]:
    [ovnimp.go] (row lookup, transact, cache population, diff application,
    auxiliary key/value commands) and [client.go] (endpoint cursor, connect,
    leader detection).

    Conventions.
    - A Go [map] is a [gmap]; where the code ranges over a map, the model
      folds over [map_to_list] and the theorems are stated per key, so that
      they do not depend on the visiting order.
    - A run-time panic (failed type assertion, write to a nil map, index out
      of range, comparison of uncomparable interface values) is [None] in
      the [option] monad.
    - [interface{}] values are the OVSDB values the wire codec produces:
      nil, an atom, a set of atoms, a map from atoms to atoms. *)

From stdpp Require Import gmap strings list fin_maps.

Open Scope string_scope.
Open Scope list_scope.
Open Scope nat_scope.

(** ** Values *)

Module Ovs.

(** Atoms: Go [int], [float64], [bool], [string] and [libovsdb.UUID].  A
    [float64] is modelled by a reduced fraction [num/den]; it is integral
    exactly when [den = 1]. *)
Inductive Atom : Type :=
  | AInt (n : Z)
  | AReal (num : Z) (den : positive)
  | ABool (b : bool)
  | AString (s : string)
  | AUUID (GoUUID : string).

#[export] Instance Atom_eq_dec : EqDecision Atom.
Proof. solve_decision. Defined.

Definition Atom_enc (a : Atom) : Z + (Z * positive) + bool + string + string :=
  match a with
  | AInt n => inl (inl (inl (inl n)))
  | AReal n d => inl (inl (inl (inr (n, d))))
  | ABool b => inl (inl (inr b))
  | AString s => inl (inr s)
  | AUUID s => inr s
  end.

Definition Atom_dec (x : Z + (Z * positive) + bool + string + string) : Atom :=
  match x with
  | inl (inl (inl (inl n))) => AInt n
  | inl (inl (inl (inr (n, d)))) => AReal n d
  | inl (inl (inr b)) => ABool b
  | inl (inr s) => AString s
  | inr s => AUUID s
  end.

#[export] Instance Atom_countable : Countable Atom.
Proof.
  refine (inj_countable' Atom_enc Atom_dec _).
  intros []; reflexivity.
Defined.

(** [interface{}] as stored in [libovsdb.Row.Fields]: [VSet l] is
    [libovsdb.OvsSet{GoSet: l}], [VMap m] is [libovsdb.OvsMap{GoMap: m}]
    (both allocated, never nil). *)
Inductive Value : Type :=
  | VNil
  | VAtom (a : Atom)
  | VSet (GoSet : list Atom)
  | VMap (GoMap : gmap Atom Atom).

#[export] Instance Value_eq_dec : EqDecision Value.
Proof. solve_decision. Defined.

(** Go's [==] on two [interface{}] values: different dynamic types compare
    unequal, equal comparable types compare by value, and two values of an
    uncomparable type (a struct holding a slice or a map) panic. *)
Definition iface_eq (x y : Value) : option bool :=
  match x, y with
  | VNil, VNil => Some true
  | VAtom a, VAtom b => Some (bool_decide (a = b))
  | VSet _, VSet _ => None
  | VMap _, VMap _ => None
  | _, _ => Some false
  end.

(** [libovsdb.Row]: [Fields] may be a nil map. *)
Record Row : Type := mkRow { Fields : option (gmap string Value) }.

#[export] Instance Row_eq_dec : EqDecision Row.
Proof. solve_decision. Defined.

(** [libovsdb.Row{}] *)
Definition emptyRow : Row := mkRow None.

(** Reading [row.Fields[column]] with the comma-ok form. *)
Definition field (r : Row) (column : string) : option Value :=
  match Fields r with
  | Some f => f !! column
  | None => None
  end.

(** Reading [row.Fields[column]] without comma-ok: nil when absent. *)
Definition fieldOrNil (r : Row) (column : string) : Value :=
  default VNil (field r column).

End Ovs.
Export Ovs.

(** ** Schema *)

(** [libovsdb.ColumnSchema]: the [Type] string and the bounds that
    [TypeObj.Min()] and [TypeObj.Max()] return.  Their declarations are in
    libovsdb's schema file; the bounds are taken as integers. *)
Record ColumnSchema : Type := mkColumnSchema {
  Type_ : string;
  Min : Z;
  Max : Z
}.

Record TableSchema : Type := mkTableSchema {
  Columns : gmap string ColumnSchema
}.

Record DatabaseSchema : Type := mkDatabaseSchema {
  Tables : gmap string TableSchema
}.

(** [schema.Tables[table].Columns]: the zero value of a missing table has
    no columns. *)
Definition tableColumns (schema : DatabaseSchema) (table : string)
  : gmap string ColumnSchema :=
  match Tables schema !! table with
  | Some ts => Columns ts
  | None => ∅
  end.

(** ** Numeric normalisation *)

Definition minInt : Z := (- 2 ^ 63)%Z.
Definition maxInt : Z := (2 ^ 63 - 1)%Z.

(** One field of [float64_to_int]: a [float64] whose conversion to [int]
    and back is the same number becomes that [int]. *)
Definition float64_to_int_value (value : Value) : Value :=
  match value with
  | VAtom (AReal n 1) =>
      if bool_decide (minInt ≤ n ≤ maxInt)%Z then VAtom (AInt n) else value
  | _ => value
  end.

Definition float64_to_int (row : Row) : Row :=
  mkRow (fmap (M := option) (fmap float64_to_int_value) (Fields row)).

(** ** Default synthesis *)

Definition isType (cs : ColumnSchema) (t : string) : bool :=
  bool_decide (Type_ cs = t).

(** The [switch columnSchema.Type] of [initMissingColumnsWithDefaults]. *)
Definition defaultValue (cs : ColumnSchema) : Value :=
  if isType cs "integer" || isType cs "real" then VAtom (AInt (Min cs))
  else if isType cs "boolean" then
    if bool_decide (Min cs = 0%Z) && bool_decide (Max cs = 1%Z)
    then VNil else VAtom (ABool false)
  else if isType cs "map" then VMap ∅
  else if isType cs "set" then VSet []
  else if isType cs "string" then VAtom (AString "")
  else VNil.

(** Body of the loop over [tableSchema.Columns]. *)
Definition initColumn (column : string) (cs : ColumnSchema)
    (fields : gmap string Value) : gmap string Value :=
  match fields !! column with
  | Some _ => fields
  | None => <[column := defaultValue cs]> fields
  end.

(** [initMissingColumnsWithDefaults]: with nil [Fields] the first missing
    column is written to a nil map. *)
Definition initMissingColumnsWithDefaults (schema : DatabaseSchema)
    (table : string) (row : Row) : option Row :=
  let columns := tableColumns schema table in
  match Fields row with
  | Some f => Some (mkRow (Some (map_fold initColumn f columns)))
  | None => if bool_decide (columns = ∅) then Some row else None
  end.

(** ** Diff application *)

(** [updateSetWithElem]: the first position holding [elem] is overwritten
    with the last element and the slice is shortened by one; when there is
    none, [elem] is appended. *)
Definition updateSetWithElem (GoSet : list Atom) (elem : Atom) : list Atom :=
  match list_find (λ x, x = elem) GoSet with
  | Some (i, _) =>
      take (length GoSet - 1) (<[i := default elem (last GoSet)]> GoSet)
  | None => GoSet ++ [elem]
  end.

(** [modifySet]: the cached value is a set or a bare element (wrapped in a
    one-element set); the incoming value is a set, toggled element by
    element, or a bare element.  A nil or map value in either place is not
    the content of a set column in the OVSDB data model; the model stops
    there with [None]. *)
Definition modifySet (orig elem : Value) : option (list Atom) :=
  cv ← match orig with
       | VSet t => Some t
       | VAtom temp => Some [temp]
       | _ => None
       end;
  match elem with
  | VSet t => Some (foldl updateSetWithElem cv t)
  | VAtom a => Some (updateSetWithElem cv a)
  | _ => None
  end.

(** Body of the loop over the incoming map of a map column. *)
Definition toggleKey (k v : Atom) (GoMap : gmap Atom Atom) : gmap Atom Atom :=
  match GoMap !! k with
  | None => <[k := v]> GoMap
  | Some pv => if bool_decide (pv = v) then delete k GoMap else <[k := v]> GoMap
  end.

(** [row.Fields[column] = value]: a write to a nil map panics. *)
Definition setField (row : Row) (column : string) (value : Value) : option Row :=
  match Fields row with
  | Some f => Some (mkRow (Some (<[column := value]> f)))
  | None => None
  end.

(** Body of the loop over [rowdiff.Fields] in [applyUpdatesToRow].
    [schema] is [odbi.getSchema(db)], read in every round: [None] when the
    client pointer is nil. *)
Definition applyColumn (schema : option DatabaseSchema) (table : string)
    (column : string) (value : Value) (acc : option Row) : option Row :=
  row ← acc;
  s ← schema;
  match tableColumns s table !! column with
  | None => Some row
  | Some columnSchema =>
      if isType columnSchema "map" then
        match value with
        | VMap diff =>
            if bool_decide (diff = ∅) then Some row
            else match fieldOrNil row column with
                 | VMap m => setField row column (VMap (map_fold toggleKey m diff))
                 | _ => None
                 end
        | _ => None
        end
      else if isType columnSchema "set" then
        if bool_decide (Max columnSchema = 1%Z) then setField row column value
        else
          nv ← modifySet (fieldOrNil row column) value;
          setField row column
            (match nv with [x] => VAtom x | _ => VSet nv end)
      else setField row column value
  end.

Definition applyRowDiff (schema : option DatabaseSchema) (table : string)
    (row rowdiff : Row) : option Row :=
  match Fields rowdiff with
  | Some d => map_fold (applyColumn schema table) (Some row) d
  | None => Some row
  end.

(** The cache: table name to row identifier to row.  [cacheRow] reads
    [cache[table][uuid]], the zero [Row] when either key is missing. *)
Definition cacheRow (cache : gmap string (gmap string Row))
    (table uuid : string) : Row :=
  default emptyRow (cache !! table ≫= λ t, t !! uuid).

(** [cache[table][uuid] = row]: panics when the table map is nil. *)
Definition cacheStore (cache : gmap string (gmap string Row))
    (table uuid : string) (row : Row) : option (gmap string (gmap string Row)) :=
  t ← cache !! table; Some (<[table := <[uuid := row]> t]> cache).

(** [delete(cache[table], uuid)] *)
Definition cacheDelete (cache : gmap string (gmap string Row))
    (table uuid : string) : gmap string (gmap string Row) :=
  match cache !! table with
  | Some t => <[table := delete uuid t]> cache
  | None => cache
  end.

Definition applyUpdatesToRow (schema : option DatabaseSchema) (table uuid : string)
    (rowdiff : Row) (cache : gmap string (gmap string Row))
  : option (gmap string (gmap string Row)) :=
  row ← applyRowDiff schema table (cacheRow cache table uuid) rowdiff;
  cacheStore cache table uuid row.

(** ** Operations, commands and errors *)

(** The operation and mutator names ([opInsert = "insert"] and so on): the
    constants are declared in go-ovn's constants file; only their being
    distinct matters here. *)
Inductive OpName : Type := opInsert | opUpdate | opMutate | opDelete | opSelect.

#[export] Instance OpName_eq_dec : EqDecision OpName.
Proof. solve_decision. Defined.

(** [libovsdb.NewCondition(column, function, value)] *)
Record Condition : Type := NewCondition {
  condColumn : string;
  condFunction : string;
  condValue : Value
}.

(** [libovsdb.NewMutation(column, mutator, value)] *)
Record Mutation : Type := NewMutation {
  mutColumn : string;
  mutMutator : OpName;
  mutValue : Value
}.

(** [libovsdb.Operation], the fields the client fills. *)
Record Operation : Type := mkOperation {
  Op : OpName;
  Table : string;
  Row_ : gmap string Value;
  Mutations : list Mutation;
  Where : list Condition
}.

(** [libovsdb.OperationResult] *)
Record OperationResult : Type := mkOperationResult {
  Count : Z;
  Error : string;
  Details : string;
  UUID : string
}.

(** [OvnCommand]: the pending operations (the back pointer to the client
    and the result buffer carry no information of their own). *)
Record OvnCommand : Type := mkOvnCommand { Operations : list Operation }.

(** What the error text of a failed transaction names: the operation at
    the failing position, or [commitTransactionText] for the extra entry. *)
Inductive OpsInfo : Type :=
  | OpsInfoOp (op : Operation)
  | commitTransactionText.

Inductive error : Type :=
  | ErrorSchema
  | ErrorNotFound
  | ErrClientDisconnected
      (* "client is disconnected" *)
  | ErrRPC (msg : string)
      (* an error returned by the libovsdb call itself *)
  | ErrTransactionFailed (oError oDetails : string) (opsInfo : OpsInfo)
      (* "Reconnecting...Transaction Failed due to an error: ..." *)
  | ErrFewReplies
      (* "Number of Replies should be atleast equal to number of operations" *)
  | ErrKVEmpty
      (* "KV map is empty" *)
  | ErrMonitor (db : string) (cause : error)
      (* "failed to monitor db %s tables: %v" *)
  | ErrColumnsNotSupported
      (* "providing specific columns is not supported yet" *)
  | ErrTableNotSupported (table db : string)
      (* "specified table %q in database %q not supported by the library" *)
  | ErrLeaderOnly
      (* "leader-only requested; disconnecting from follower" *)
  | ErrConnectAll (db : string) (endpoints : list string)
      (* "failed to connect to all %s DB endpoints %v" *).

(** ** Row lookup *)

(** One round of the loop over the queried fields in [getRowUUIDs]:
    [Some true] goes on, [Some false] is the [break], [None] is the panic
    of [v != value] on uncomparable values. *)
Definition fieldAgrees (drows : Row) (field_ : string) (value : Value) : option bool :=
  match field drows field_ with
  | Some v => iface_eq v value
  | None => Some true
  end.

Fixpoint rowIsEqual (drows : Row) (query : list (string * Value)) : option bool :=
  match query with
  | [] => Some true
  | (field_, value) :: query' =>
      b ← fieldAgrees drows field_ value;
      if b : bool then rowIsEqual drows query' else Some false
  end.

(** Body of the loop over the cached rows of the table. *)
Definition collectRow (wildcard : bool) (query : list (string * Value))
    (uuids : option (list string)) (entry : string * Row) : option (list string) :=
  acc ← uuids;
  if wildcard then Some (acc ++ [entry.1])
  else
    isEqual ← rowIsEqual entry.2 query;
    Some (if isEqual : bool then acc ++ [entry.1] else acc).

(** [getRowUUIDs].  A nil and an empty query row give the same answer
    (only the empty one sets [wildcard], the nil one matches every row in
    the inner loop), so [OVNRow] is a [gmap]. *)
Definition getRowUUIDs (cache : gmap string (gmap string Row))
    (table : string) (row : gmap string Value) : option (list string) :=
  let wildcard := bool_decide (row = ∅) in
  match cache !! table with
  | None => Some []
  | Some cacheTable =>
      foldl (collectRow wildcard (map_to_list row)) (Some []) (map_to_list cacheTable)
  end.

(** [getRowUUID]: the first identifier found, or the empty string. *)
Definition getRowUUID (cache : gmap string (gmap string Row))
    (table : string) (row : gmap string Value) : option string :=
  uuids ← getRowUUIDs cache table row;
  Some (match uuids with u :: _ => u | [] => "" end).

(** ** The client object *)

(** [libovsdb.RowUpdate] and [libovsdb.RowUpdate2]; [TableUpdates] and
    [TableUpdates2] are maps from table name to row identifier to these. *)
Record RowUpdate : Type := mkRowUpdate { New : Row; Old : Row }.

Record RowUpdate2 : Type := mkRowUpdate2 {
  Initial : Row;
  Insert : Row;
  Delete : Row;
  Modify : Row
}.

(** [*libovsdb.OvsdbClient] as the client sees it: the schemas fetched at
    connect time, the answers of the peer to the calls the client makes, and
    the two bits its methods [Register]/[Unregister] and [Disconnect]
    change. *)
Record OvsdbClient : Type := mkOvsdbClient {
  Schema : gmap string DatabaseSchema;
  Transact : string → list Operation → list OperationResult * option error;
  Monitor2 : string → gmap string (list string)
             → gmap string (gmap string RowUpdate2) * option error;
  Monitor3 : string → gmap string (list string) → string
             → gmap string (gmap string RowUpdate2) * string * option error;
  registered : bool;
  connected : bool
}.

Definition Register (cl : OvsdbClient) : OvsdbClient :=
  mkOvsdbClient (Schema cl) (Transact cl) (Monitor2 cl) (Monitor3 cl) true (connected cl).

Definition Unregister (cl : OvsdbClient) : OvsdbClient :=
  mkOvsdbClient (Schema cl) (Transact cl) (Monitor2 cl) (Monitor3 cl) false (connected cl).

Definition Disconnect (cl : OvsdbClient) : OvsdbClient :=
  mkOvsdbClient (Schema cl) (Transact cl) (Monitor2 cl) (Monitor3 cl) (registered cl) false.

(** Calls the signal dispatcher receives, in order. *)
Inductive Signal : Type :=
  | Created (table uuid : string)
  | Deleted (table uuid : string).

#[export] Instance Signal_eq_dec : EqDecision Signal.
Proof. solve_decision. Defined.

(** [ovndb], without its locks, TLS settings and timeout.  [signalCB] says
    whether the callback interface is non-nil, [disconnSig] whether the
    one-slot channel holds a request.  [signals] and [dialed] are traces:
    the calls of [signalCreate]/[signalDelete] and the addresses handed to
    [libovsdb.Connect]. *)
Record ovndb : Type := mkOvndb {
  client : option OvsdbClient;
  disconnSig : bool;
  cache : gmap string (gmap string Row);
  signalCB : bool;
  db : string;
  endpoints : list string;
  curEndpoint : nat;
  tableCols : gmap string (list string);
  cfgTableCols : gmap string (list string);
  currentTxn : string;
  leaderOnly : bool;
  serverCache : gmap string (gmap string Row);
  serverTableCols : gmap string (list string);
  signals : list Signal;
  dialed : list string
}.

Definition set_client (v : option OvsdbClient) (c : ovndb) : ovndb :=
  mkOvndb v (disconnSig c) (cache c) (signalCB c) (db c) (endpoints c)
    (curEndpoint c) (tableCols c) (cfgTableCols c) (currentTxn c) (leaderOnly c)
    (serverCache c) (serverTableCols c) (signals c) (dialed c).

Definition set_disconnSig (v : bool) (c : ovndb) : ovndb :=
  mkOvndb (client c) v (cache c) (signalCB c) (db c) (endpoints c)
    (curEndpoint c) (tableCols c) (cfgTableCols c) (currentTxn c) (leaderOnly c)
    (serverCache c) (serverTableCols c) (signals c) (dialed c).

Definition set_cache (v : gmap string (gmap string Row)) (c : ovndb) : ovndb :=
  mkOvndb (client c) (disconnSig c) v (signalCB c) (db c) (endpoints c)
    (curEndpoint c) (tableCols c) (cfgTableCols c) (currentTxn c) (leaderOnly c)
    (serverCache c) (serverTableCols c) (signals c) (dialed c).

Definition set_curEndpoint (v : nat) (c : ovndb) : ovndb :=
  mkOvndb (client c) (disconnSig c) (cache c) (signalCB c) (db c) (endpoints c)
    v (tableCols c) (cfgTableCols c) (currentTxn c) (leaderOnly c)
    (serverCache c) (serverTableCols c) (signals c) (dialed c).

Definition set_tableCols (v : gmap string (list string)) (c : ovndb) : ovndb :=
  mkOvndb (client c) (disconnSig c) (cache c) (signalCB c) (db c) (endpoints c)
    (curEndpoint c) v (cfgTableCols c) (currentTxn c) (leaderOnly c)
    (serverCache c) (serverTableCols c) (signals c) (dialed c).

Definition set_currentTxn (v : string) (c : ovndb) : ovndb :=
  mkOvndb (client c) (disconnSig c) (cache c) (signalCB c) (db c) (endpoints c)
    (curEndpoint c) (tableCols c) (cfgTableCols c) v (leaderOnly c)
    (serverCache c) (serverTableCols c) (signals c) (dialed c).

Definition set_serverCache (v : gmap string (gmap string Row)) (c : ovndb) : ovndb :=
  mkOvndb (client c) (disconnSig c) (cache c) (signalCB c) (db c) (endpoints c)
    (curEndpoint c) (tableCols c) (cfgTableCols c) (currentTxn c) (leaderOnly c)
    v (serverTableCols c) (signals c) (dialed c).

Definition set_serverTableCols (v : gmap string (list string)) (c : ovndb) : ovndb :=
  mkOvndb (client c) (disconnSig c) (cache c) (signalCB c) (db c) (endpoints c)
    (curEndpoint c) (tableCols c) (cfgTableCols c) (currentTxn c) (leaderOnly c)
    (serverCache c) v (signals c) (dialed c).

Definition set_signals (v : list Signal) (c : ovndb) : ovndb :=
  mkOvndb (client c) (disconnSig c) (cache c) (signalCB c) (db c) (endpoints c)
    (curEndpoint c) (tableCols c) (cfgTableCols c) (currentTxn c) (leaderOnly c)
    (serverCache c) (serverTableCols c) v (dialed c).

Definition set_dialed (v : list string) (c : ovndb) : ovndb :=
  mkOvndb (client c) (disconnSig c) (cache c) (signalCB c) (db c) (endpoints c)
    (curEndpoint c) (tableCols c) (cfgTableCols c) (currentTxn c) (leaderOnly c)
    (serverCache c) (serverTableCols c) (signals c) v.

Definition ZERO_TRANSACTION : string := "00000000-0000-0000-0000-000000000000".

(** Database and table names and the table orders: constants of go-ovn
    declared outside the files at hand, taken as parameters. *)
Class Names : Type := mkNames {
  DBNB : string;
  DBSB : string;
  DBServer : string;
  TableDatabase : string;
  TableLogicalSwitch : string;
  NBTablesOrder : list string;
  SBTablesOrder : list string;
  ServerTablesOrder : list string
}.

Section Client.
Context `{Names}.

(** ** Transactions *)

Definition getClient (odbi : ovndb) : OvsdbClient + error :=
  match client odbi with
  | Some cl => inl cl
  | None => inr ErrClientDisconnected
  end.

(** [close]: [c.client.Disconnect()]; a nil client is dereferenced. *)
Definition close (c : ovndb) : option ovndb :=
  cl ← client c; Some (set_client (Some (Disconnect cl)) c).

(** The loop over [reply] in [transact]: the first entry with a non-empty
    [Error], with the text naming the operation at its position. *)
Fixpoint firstError (i : nat) (ops : list Operation) (reply : list OperationResult)
  : option error :=
  match reply with
  | [] => None
  | o :: reply' =>
      if bool_decide (Error o ≠ "") then
        Some (ErrTransactionFailed (Error o) (Details o)
                (match ops !! i with
                 | Some op => OpsInfoOp op
                 | None => commitTransactionText
                 end))
      else firstError (S i) ops reply'
  end.

(** [transact]: the result slice ([None] is nil), the error, and the client
    object afterwards. *)
Definition transact (odbi : ovndb) (db_ : string) (ops : list Operation)
  : option (option (list OperationResult) * option error * ovndb) :=
  match getClient odbi with
  | inr err => Some (None, Some err, odbi)
  | inl cl =>
      let '(reply, err) := Transact cl db_ ops in
      match err with
      | Some e => Some (Some reply, Some e, odbi)
      | None =>
          match firstError 0 ops reply with
          | Some e => odbi' ← close odbi; Some (None, Some e, odbi')
          | None =>
              if bool_decide (length reply < length ops)
              then Some (Some reply, Some ErrFewReplies, odbi)
              else Some (Some reply, None, odbi)
          end
      end
  end.

(** ** Auxiliary key/value deletion *)

Definition stringToGoUUID (uuid : string) : Value := VAtom (AUUID uuid).

(** The loop over [kv] in [auxKeyValDel]. *)
Definition splitKV (k : string) (v : option string)
    (acc : list string * gmap string string) : list string * gmap string string :=
  match v with
  | None => (acc.1 ++ [k], acc.2)
  | Some s => (acc.1, <[k := s]> acc.2)
  end.

(** [libovsdb.NewOvsSet] of a string slice and [libovsdb.NewOvsMap] of a
    string map. *)
Definition NewOvsSet (l : list string) : Value := VSet (AString <$> l).

Definition NewOvsMap (m : gmap string string) : Value :=
  VMap (list_to_map ((λ kv, (AString kv.1, AString kv.2)) <$> map_to_list m)).

Definition auxKeyValDel (odbi : ovndb) (table rowName auxCol : string)
    (kv : gmap string (option string)) : option (OvnCommand + error) :=
  if bool_decide (size kv = 0) then Some (inr ErrKVEmpty)
  else
    let ovnRow : gmap string Value := {[ "name" := VAtom (AString rowName) ]} in
    uuid ← getRowUUID (cache odbi) TableLogicalSwitch ovnRow;
    if bool_decide (String.length uuid = 0) then Some (inr ErrorNotFound)
    else
      let '(delKeys, delKeyVals) := map_fold splitKV ([], ∅) kv in
      let condition := NewCondition "_uuid" "==" (stringToGoUUID uuid) in
      let m1 := if bool_decide (length delKeys ≠ 0)
                then [NewMutation auxCol opDelete (NewOvsSet delKeys)] else [] in
      let m2 := if bool_decide (size delKeyVals ≠ 0)
                then [NewMutation auxCol opDelete (NewOvsMap delKeyVals)] else [] in
      let mutateOp := mkOperation opMutate table ∅ (m1 ++ m2) [condition] in
      Some (inl (mkOvnCommand [mutateOp])).

(** ** Leader detection and the endpoint cursor *)

(** One round of the loop in [serverIsLeader]: [Some leader] is the
    [return leader], [None] the [continue]. *)
Definition rowLeader (dbName : string) (row : Row) : option bool :=
  match field row "name" with
  | Some (VAtom (AString name)) =>
      if bool_decide (name ≠ dbName) then None
      else match field row "model" with
           | Some (VAtom (AString model)) =>
               if bool_decide (model ≠ "clustered") then None
               else match field row "leader" with
                    | Some (VAtom (ABool leader)) => Some leader
                    | _ => None
                    end
           | _ => None
           end
  | _ => None
  end.

Fixpoint firstLeader (dbName : string) (rows : list (string * Row)) : bool :=
  match rows with
  | [] => true
  | (_, row) :: rows' =>
      match rowLeader dbName row with
      | Some leader => leader
      | None => firstLeader dbName rows'
      end
  end.

Definition serverIsLeader (c : ovndb) : bool :=
  match serverCache c !! TableDatabase with
  | None => true
  | Some dbTable => firstLeader (db c) (map_to_list dbTable)
  end.

(** [nextEndpoint]: the cursor advances circularly.  The endpoint list has
    at least one element (it is the result of [strings.Split]); on an empty
    list Go panics on the division, here the cursor is left as it is. *)
Definition nextEndpoint (c : ovndb) : ovndb :=
  match endpoints c with
  | [] => c
  | _ => set_curEndpoint ((curEndpoint c + 1) mod length (endpoints c)) c
  end.

(** [requestDisconnect]: a non-blocking send on the one-slot channel. *)
Definition requestDisconnect (c : ovndb) : ovndb := set_disconnSig true c.

Definition disconnectIfFollower (table uuid : string) (c : ovndb) : ovndb :=
  if bool_decide (table = TableDatabase) && leaderOnly c && negb (serverIsLeader c)
  then requestDisconnect (nextEndpoint c)
  else c.

(** [signalCreate] and [signalDelete]: the call is recorded; the typed view
    handed to the callback is built by the [rowTo...] functions. *)
Definition signalCreate (table uuid : string) (c : ovndb) : ovndb :=
  set_signals (signals c ++ [Created table uuid]) c.

Definition signalDelete (table uuid : string) (c : ovndb) : ovndb :=
  set_signals (signals c ++ [Deleted table uuid]) c.

(** ** Cache population *)

(** [getContext]: which table list and cache the update goes to ([true]
    is the server database) and the two hooks, [None] when nil. *)
Record context : Type := mkContext {
  ctxServer : bool;
  ctxCreate : option (string → string → ovndb → ovndb);
  ctxDelete : option (string → string → ovndb → ovndb)
}.

Definition getContext (odbi : ovndb) (dbName : string) : context :=
  if bool_decide (dbName = DBServer)
  then mkContext true (Some disconnectIfFollower) (Some disconnectIfFollower)
  else if signalCB odbi
       then mkContext false (Some signalCreate) (Some signalDelete)
       else mkContext false None None.

Definition ctxTableCols (ctx : context) (c : ovndb) : gmap string (list string) :=
  if ctxServer ctx then serverTableCols c else tableCols c.

Definition ctxCache (ctx : context) (c : ovndb) : gmap string (gmap string Row) :=
  if ctxServer ctx then serverCache c else cache c.

Definition ctxSetCache (ctx : context) (v : gmap string (gmap string Row))
    (c : ovndb) : ovndb :=
  if ctxServer ctx then set_serverCache v c else set_cache v c.

(** [if signal && hook != nil { hook(table, uuid) }] *)
Definition callHook (signal : bool) (hook : option (string → string → ovndb → ovndb))
    (table uuid : string) (c : ovndb) : ovndb :=
  if signal then match hook with Some f => f table uuid c | None => c end else c.

(** [if _, ok := cache[table]; !ok { cache[table] = make(...) }] *)
Definition ensureTable (ctx : context) (table : string) (c : ovndb) : ovndb :=
  match ctxCache ctx c !! table with
  | Some _ => c
  | None => ctxSetCache ctx (<[table := ∅]> (ctxCache ctx c)) c
  end.

(** [cache[table][uuid] = row] after [ensureTable]. *)
Definition storeRow (ctx : context) (table uuid : string) (row : Row) (c : ovndb) : ovndb :=
  ctxSetCache ctx
    (<[table := <[uuid := row]> (default ∅ (ctxCache ctx c !! table))]> (ctxCache ctx c)) c.

Definition deleteRow (ctx : context) (table uuid : string) (c : ovndb) : ovndb :=
  ctxSetCache ctx (cacheDelete (ctxCache ctx c) table uuid) c.

(** Deferred calls run last in, first out when the function returns; the
    head of the list is the call deferred last. *)
Definition runDeferred (deferred : list (ovndb → ovndb)) (c : ovndb) : ovndb :=
  foldl (λ c' f, f c') c deferred.

(** Body of the loop over [tableUpdate.Rows] in [populateCache]. *)
Definition populateCacheRow (ctx : context) (signal : bool) (table uuid : string)
    (row : RowUpdate) (acc : ovndb * list (ovndb → ovndb))
  : ovndb * list (ovndb → ovndb) :=
  let '(c, deferred) := acc in
  let new := float64_to_int (New row) in
  if bool_decide (new ≠ emptyRow) then
    if bool_decide (new = cacheRow (ctxCache ctx c) table uuid) then (c, deferred)
    else (callHook signal (ctxCreate ctx) table uuid (storeRow ctx table uuid new c),
          deferred)
  else
    let deferred := deleteRow ctx table uuid :: deferred in
    (c, if signal then match ctxDelete ctx with
                       | Some f => f table uuid :: deferred
                       | None => deferred
                       end
        else deferred).

(** Body of the loop over the table names. *)
Definition populateCacheTable (ctx : context) (signal : bool)
    (updates : gmap string (gmap string RowUpdate))
    (table : string) (columns : list string) (acc : ovndb * list (ovndb → ovndb))
  : ovndb * list (ovndb → ovndb) :=
  match updates !! table with
  | None => acc
  | Some tableUpdate =>
      map_fold (populateCacheRow ctx signal table)
        (ensureTable ctx table acc.1, acc.2) tableUpdate
  end.

Definition populateCache (odbi : ovndb) (dbName : string)
    (updates : gmap string (gmap string RowUpdate)) (signal : bool) : ovndb :=
  let ctx := getContext odbi dbName in
  let '(c, deferred) :=
    map_fold (populateCacheTable ctx signal updates) (odbi, []) (ctxTableCols ctx odbi) in
  runDeferred deferred c.

(** [getSchema]: [c.client.Schema[db]], the zero schema when the database
    is unknown; a nil client is dereferenced. *)
Definition getSchema (c : ovndb) (dbName : string) : option DatabaseSchema :=
  cl ← client c; Some (default (mkDatabaseSchema ∅) (Schema cl !! dbName)).

Definition isSet (row : Row) : bool := bool_decide (Fields row ≠ None).

(** Body of the loop over [tableUpdate.Rows] in [populateCache2]. *)
Definition populateCache2Row (ctx : context) (dbName : string) (signal : bool)
    (table uuid : string) (row : RowUpdate2)
    (acc : option (ovndb * list (ovndb → ovndb)))
  : option (ovndb * list (ovndb → ovndb)) :=
  '(c, deferred) ← acc;
  if isSet (Initial row) then
    let initial := float64_to_int (Initial row) in
    if bool_decide (initial = cacheRow (ctxCache ctx c) table uuid)
    then Some (c, deferred)
    else
      schema ← getSchema c dbName;
      initial' ← initMissingColumnsWithDefaults schema table initial;
      Some (callHook signal (ctxCreate ctx) table uuid (storeRow ctx table uuid initial' c),
            deferred)
  else if isSet (Insert row) then
    schema ← getSchema c dbName;
    insert' ← initMissingColumnsWithDefaults schema table (Insert row);
    Some (callHook signal (ctxCreate ctx) table uuid
            (storeRow ctx table uuid (float64_to_int insert') c),
          deferred)
  else if isSet (Modify row) then
    cache' ← applyUpdatesToRow (getSchema c dbName) table uuid
                (float64_to_int (Modify row)) (ctxCache ctx c);
    Some (callHook signal (ctxCreate ctx) table uuid (ctxSetCache ctx cache' c), deferred)
  else if isSet (Delete row) then
    Some (callHook signal (ctxDelete ctx) table uuid c,
          deleteRow ctx table uuid :: deferred)
  else Some (c, deferred).

Definition populateCache2Table (ctx : context) (dbName : string) (signal : bool)
    (updates : gmap string (gmap string RowUpdate2))
    (table : string) (columns : list string)
    (acc : option (ovndb * list (ovndb → ovndb)))
  : option (ovndb * list (ovndb → ovndb)) :=
  '(c, deferred) ← acc;
  match updates !! table with
  | None => Some (c, deferred)
  | Some tableUpdate =>
      map_fold (populateCache2Row ctx dbName signal table)
        (Some (ensureTable ctx table c, deferred)) tableUpdate
  end.

Definition populateCache2 (odbi : ovndb) (dbName : string)
    (updates : gmap string (gmap string RowUpdate2)) (signal : bool) : option ovndb :=
  let ctx := getContext odbi dbName in
  '(c, deferred) ←
    map_fold (populateCache2Table ctx dbName signal updates) (Some (odbi, []))
      (ctxTableCols ctx odbi);
  Some (runDeferred deferred c).

(** ** Connecting *)

Definition filterTablesFromSchema (cl : OvsdbClient) (dbName : string) : list string :=
  let tables :=
    if bool_decide (dbName = DBNB) then NBTablesOrder
    else if bool_decide (dbName = DBSB) then SBTablesOrder
    else if bool_decide (dbName = DBServer) then ServerTablesOrder
    else [] in
  let dbSchema := default (mkDatabaseSchema ∅) (Schema cl !! dbName) in
  filter (λ table, is_Some (Tables dbSchema !! table)) tables.

(** The loop that checks the requested tables and columns in
    [monitorTables]: the first offending entry decides the error. *)
Fixpoint checkTableCols (tables : list string) (dbName : string)
    (requested : list (string * list string)) : option error :=
  match requested with
  | [] => None
  | (table, columns) :: requested' =>
      if bool_decide (table ∈ tables) then
        if bool_decide (length columns ≠ 0) then Some ErrColumnsNotSupported
        else checkTableCols tables dbName requested'
      else Some (ErrTableNotSupported table dbName)
  end.

(** [monitorTables]: the updates or the error, and the client object with
    the table list and the transaction cursor as the call leaves them. *)
Definition monitorTables (c : ovndb) (dbName : string)
  : option ((gmap string (gmap string RowUpdate2) + error) * ovndb) :=
  cl ← client c;
  let tables := filterTablesFromSchema cl dbName in
  let server := bool_decide (dbName = DBServer) in
  let cols := if server then serverTableCols c else tableCols c in
  let setCols v := if server then set_serverTableCols v c else set_tableCols v c in
  let checked : ovndb + error :=
    if bool_decide (size cols ≠ 0) then
      match checkTableCols tables dbName (map_to_list cols) with
      | Some e => inr e
      | None => inl c
      end
    else inl (setCols (list_to_map ((λ table, (table, [])) <$> tables))) in
  match checked with
  | inr e => Some (inr e, c)
  | inl c1 =>
      let requests := if server then serverTableCols c1 else tableCols c1 in
      if server then
        let '(updates, err) := Monitor2 cl dbName requests in
        match err with
        | Some e => Some (inr e, c1)
        | None => Some (inl updates, c1)
        end
      else
        let '(updates, txn, err) := Monitor3 cl dbName requests (currentTxn c1) in
        match err with
        | Some e => Some (inr e, c1)
        | None =>
            Some (inl updates,
                  if bool_decide (0 < String.length txn) then set_currentTxn txn c1 else c1)
        end
  end.

(** The loop over the two databases in [connectEndpoint]. *)
Fixpoint monitorAll (dbs : list string) (c : ovndb) : option (option error * ovndb) :=
  match dbs with
  | [] => Some (None, c)
  | dbName :: dbs' =>
      '(r, c1) ← monitorTables c dbName;
      match r with
      | inr err => Some (Some (ErrMonitor dbName err), c1)
      | inl initial =>
          c2 ← populateCache2 c1 dbName initial false;
          monitorAll dbs' c2
      end
  end.

(** [connectEndpoint] up to and including the initial dumps. *)
Definition connectEndpointDump (c : ovndb) : option (option error * ovndb) :=
  cl ← client c;
  let c := set_client (Some (Register cl)) c in
  let c := if bool_decide (currentTxn c = ZERO_TRANSACTION) then set_cache ∅ c else c in
  let c := set_tableCols (cfgTableCols c) c in
  let c := set_serverCache ∅ c in
  monitorAll [db c; DBServer] c.

Definition connectEndpoint (c : ovndb) : option (option error * ovndb) :=
  '(err, c') ← connectEndpointDump c;
  match err with
  | Some e => Some (Some e, c')
  | None =>
      if leaderOnly c' && negb (serverIsLeader c')
      then Some (Some ErrLeaderOnly, c')
      else Some (None, c')
  end.

(** What [connect] does after a failed attempt: the cursor advances and a
    client that was created is unregistered, disconnected and dropped. *)
Definition dropClient (c : ovndb) : ovndb :=
  match client c with
  | Some cl => set_client None c
  | None => c
  end.

(** One round of the loop in [connect]: [inl] is the successful return,
    [inr] the state the next round starts from.  [Connect] is
    [libovsdb.Connect] as a function of the address: the new client, or
    [None] for an error (and a nil client). *)
Definition connectAttempt (Connect : string → option OvsdbClient) (c : ovndb)
  : option (ovndb + ovndb) :=
  addr ← endpoints c !! curEndpoint c;
  let c := set_dialed (dialed c ++ [addr]) c in
  '(err, c1) ←
    match Connect addr with
    | None => Some (Some (ErrRPC "connect"), set_client None c)
    | Some cl => connectEndpoint (set_client (Some cl) c)
    end;
  match err with
  | None => Some (inl c1)
  | Some _ => Some (inr (dropClient (nextEndpoint c1)))
  end.

Fixpoint connectLoop (Connect : string → option OvsdbClient) (rounds : nat) (c : ovndb)
  : option (option error * ovndb) :=
  match rounds with
  | O => Some (Some (ErrConnectAll (db c) (endpoints c)), c)
  | S rounds' =>
      r ← connectAttempt Connect c;
      match r with
      | inl c' => Some (None, c')
      | inr c' => connectLoop Connect rounds' c'
      end
  end.

Definition connect (Connect : string → option OvsdbClient) (c : ovndb)
  : option (option error * ovndb) :=
  connectLoop Connect (length (endpoints c)) c.

End Client.

(** ** Further functions of the client *)

(** [disconnect]: a client that is there is disconnected and dropped. *)
Definition disconnect (c : ovndb) : ovndb :=
  match client c with
  | Some _ => set_client None c
  | None => c
  end.

(** [GetSchema]: the schema of the client's database, or a schema without
    tables when there is no client. *)
Definition GetSchema (c : ovndb) : DatabaseSchema :=
  match getClient c with
  | inl cl => default (mkDatabaseSchema ∅) (Schema cl !! db c)
  | inr _ => mkDatabaseSchema ∅
  end.

(** The loop that gathers the operations in [executeR]; a nil command is
    skipped. *)
Definition gatherOps (ops : list Operation) (cmd : option OvnCommand) : list Operation :=
  match cmd with
  | Some cmd => ops ++ Operations cmd
  | None => ops
  end.

(** The loop that gathers the created identifiers in [executeR]. *)
Definition gatherUUID (UUIDs : list string) (r : OperationResult) : list string :=
  if bool_decide (0 < String.length (UUID r)) then UUIDs ++ [UUID r] else UUIDs.

(** [executeR]: the identifiers ([None] is nil), the error, and the client
    object afterwards.  [cmds] is [None] for the nil slice of a call
    without arguments. *)
Definition executeR (odbi : ovndb) (cmds : option (list (option OvnCommand)))
  : option (option (list string) * option error * ovndb) :=
  match cmds with
  | None => Some (None, None, odbi)
  | Some cmds =>
      let ops := foldl gatherOps [] cmds in
      '(results, err, odbi') ← transact odbi (db odbi) ops;
      match err with
      | Some e => Some (None, Some e, odbi')
      | None =>
          let UUIDs := foldl gatherUUID [] (default [] results) in
          Some (if bool_decide (0 < length UUIDs) then Some UUIDs else None, None, odbi')
      end
  end.

(** [execute] (through [ExecuteR]): the error alone. *)
Definition execute (odbi : ovndb) (cmds : option (list (option OvnCommand)))
  : option (option error * ovndb) :=
  '(_, err, odbi') ← executeR odbi cmds; Some (err, odbi').

(** [oMapContians]: whether [s] holds every pair of [t]; [None] is a nil
    map.  The loop over [t] returns at the first pair that [s] lacks. *)
Fixpoint containsAll (s : gmap Atom Atom) (t : list (Atom * Atom)) : bool :=
  match t with
  | [] => true
  | (tk, tv) :: t' =>
      match s !! tk with
      | None => false
      | Some sv => if bool_decide (tv ≠ sv) then false else containsAll s t'
      end
  end.

Definition oMapContians (s t : option (gmap Atom Atom)) : bool :=
  match s, t with
  | Some s, Some t => containsAll s (map_to_list t)
  | _, _ => false
  end.

(** [ConvertGoSetToStringArray]: strings and UUIDs are kept, in order. *)
Definition gatherString (ret : list string) (s : Atom) : list string :=
  match s with
  | AString value => ret ++ [value]
  | AUUID uuid => ret ++ [uuid]
  | _ => ret
  end.

Definition ConvertGoSetToStringArray (oset : list Atom) : list string :=
  foldl gatherString [] oset.

(** [optionalStringFieldToPointer]: [None] is the nil pointer. *)
Definition optionalStringFieldToPointer (fieldValue : Value) : option string :=
  match fieldValue with
  | VAtom (AString temp) => Some temp
  | VSet oset =>
      match ConvertGoSetToStringArray oset with
      | temp :: _ => Some temp
      | [] => None
      end
  | _ => None
  end.

(** The errors of [auxKeyValSet]. *)
Inductive setError : Type :=
  | ErrKVNilOrEmpty
      (* "key-value map is nil or empty" *)
  | ErrColumnNotPresent (table rowName auxCol : string)
      (* "table %s, row %s, column %s not present in cache" *)
  | ErrColumnNotMap (table rowName auxCol : string)
      (* "table %s, row %s, column %s: value is not a map" *).

(** The two loops that fill [mergedMap] in [auxKeyValSet]: the caller's
    pairs, then the cached pairs whose key the caller did not pass.  The
    assertions [k.(string)] and [v.(string)] panic on other atoms. *)
Definition mergeGiven (k v : string) (mergedMap : gmap Atom Atom) : gmap Atom Atom :=
  <[AString k := AString v]> mergedMap.

Definition mergeCached (kv : gmap string string) (k v : Atom)
    (mergedMap : option (gmap Atom Atom)) : option (gmap Atom Atom) :=
  acc ← mergedMap;
  match k with
  | AString ck =>
      match kv !! ck with
      | Some _ => Some acc
      | None =>
          match v with
          | AString sv => Some (<[AString ck := AString sv]> acc)
          | _ => None
          end
      end
  | _ => None
  end.

Definition auxKeyValSet (odbi : ovndb) (table rowName auxCol : string)
    (kv : gmap string string) : option (OvnCommand + setError) :=
  if bool_decide (size kv = 0) then Some (inr ErrKVNilOrEmpty)
  else
    let ovnRow : gmap string Value := {[ "name" := VAtom (AString rowName) ]} in
    uuid ← getRowUUID (cache odbi) table ovnRow;
    match fieldOrNil (cacheRow (cache odbi) table uuid) auxCol with
    | VNil => Some (inr (ErrColumnNotPresent table rowName auxCol))
    | VMap cachedMap =>
        mergedMap ← map_fold (mergeCached kv) (Some (map_fold mergeGiven ∅ kv)) cachedMap;
        let condition := NewCondition "_uuid" "==" (stringToGoUUID uuid) in
        let operation :=
          mkOperation opUpdate table (<[auxCol := VMap mergedMap]> ovnRow) [] [condition] in
        Some (inl (mkOvnCommand [operation]))
    | _ => Some (inr (ErrColumnNotMap table rowName auxCol))
    end.

(** ** Creating a client *)






(** One round of the goroutine of [NewClient], which waits on
    [disconnSig]: a request in the channel is taken out and [disconnect]
    is called; without a request nothing happens. *)
Definition handleDisconnSig (c : ovndb) : ovndb :=
  if disconnSig c then disconnect (set_disconnSig false c) else c.

(** ** Utilities of the controller *)

(** [pkg/util/util.go].  The prefixes [types.K8sPrefix] and
    [types.GWRouterPrefix] are constants of another package and are
    arguments here; a Go string is its sequence of bytes. *)

Definition GetLegacyK8sMgmtIntfName (K8sPrefix nodeName : string) : string :=
  if bool_decide (11 < String.length nodeName)
  then K8sPrefix +:+ String.substring 0 11 nodeName
  else K8sPrefix +:+ nodeName.

(** [strings.TrimPrefix] *)
Definition TrimPrefix (s prefix_ : string) : string :=
  if String.prefix prefix_ s
  then String.substring (String.length prefix_) (String.length s - String.length prefix_) s
  else s.

Definition GetWorkerFromGatewayRouter (GWRouterPrefix gr : string) : string :=
  TrimPrefix gr GWRouterPrefix.

Definition GetGatewayRouterFromNode (GWRouterPrefix node : string) : string :=
  GWRouterPrefix +:+ node.

Definition GetHybridOverlayPortName (nodeName : string) : string :=
  "int-" +:+ nodeName.

(** [hash/fnv]'s 64-bit FNV-1a: for every byte, exclusive or, then the
    product with the prime in 64 bits. *)
Definition offset64 : Z := 14695981039346656037%Z.
Definition prime64 : Z := 1099511628211%Z.

Definition fnvStep (h : Z) (c : Ascii.ascii) : Z :=
  ((Z.lxor h (Z.of_nat (Ascii.nat_of_ascii c))) * prime64 mod 2 ^ 64)%Z.

Fixpoint fnvWrite (h : Z) (s : string) : Z :=
  match s with
  | EmptyString => h
  | String c s' => fnvWrite (fnvStep h c) s'
  end.

Definition Sum64a (s : string) : Z := fnvWrite offset64 s.

(** [strconv.FormatUint(n, 10)] for a 64-bit [n], which has at most 20
    digits. *)
Definition digitChar (d : Z) : Ascii.ascii := Ascii.ascii_of_nat (48 + Z.to_nat d).

Fixpoint formatDigits (fuel : nat) (n : Z) : string :=
  match fuel with
  | O => ""
  | S fuel' =>
      if bool_decide (n < 10)%Z then String (digitChar n) ""
      else formatDigits fuel' (n / 10) +:+ String (digitChar (n mod 10)) ""
  end.

Definition FormatUint (n : Z) : string := formatDigits 20 n.

(** [HashForOVN]: writing to the hash never fails. *)
Definition HashForOVN (s : string) : string := "a" +:+ FormatUint (Sum64a s).

(** [UpdateIPsSlice].  [isIPv6 s] is [utilnet.IsIPv6(net.ParseIP(s))]. *)
Fixpoint firstOfFamily (isIPv6 : string → bool) (old6 : bool) (newIPs : list string)
  : option string :=
  match newIPs with
  | [] => None
  | newIP :: newIPs' =>
      if old6 then
        if isIPv6 newIP then Some newIP else firstOfFamily isIPv6 old6 newIPs'
      else
        if negb (isIPv6 newIP) then Some newIP else firstOfFamily isIPv6 old6 newIPs'
  end.

Fixpoint updateEntry (isIPv6 : string → bool) (entry : string)
    (oldIPs newIPs : list string) : string :=
  match oldIPs with
  | [] => entry
  | oldIP :: oldIPs' =>
      if bool_decide (entry = oldIP)
      then default entry (firstOfFamily isIPv6 (isIPv6 oldIP) newIPs)
      else updateEntry isIPv6 entry oldIPs' newIPs
  end.

Definition UpdateIPsSlice (isIPv6 : string → bool) (s oldIPs newIPs : list string)
  : list string :=
  (λ entry, updateEntry isIPv6 entry oldIPs newIPs) <$> s.

(** [FilterIPsSlice].  [is4 s] is [net.ParseIP(s).To4() != nil]; a filter
    entry is a [net.IPNet]: whether its address is an IPv4 one, and which
    addresses it contains. *)
Record IPNet : Type := mkIPNet {
  netIs4 : bool;
  Contains : string → bool
}.

Fixpoint matchesFilter (is4 : bool) (ipStr : string) (filter_ : list IPNet) : bool :=
  match filter_ with
  | [] => false
  | cidr :: filter' =>
      if is4 && netIs4 cidr && Contains cidr ipStr then true
      else if negb is4 && negb (netIs4 cidr) && Contains cidr ipStr then true
      else matchesFilter is4 ipStr filter'
  end.

Fixpoint FilterIPsSlice (is4 : string → bool) (s : list string) (filter_ : list IPNet)
    (keep : bool) : list string :=
  match s with
  | [] => []
  | ipStr :: s' =>
      if matchesFilter (is4 ipStr) ipStr filter_ then
        if keep then ipStr :: FilterIPsSlice is4 s' filter_ keep
        else FilterIPsSlice is4 s' filter_ keep
      else
        if negb keep then ipStr :: FilterIPsSlice is4 s' filter_ keep
        else FilterIPsSlice is4 s' filter_ keep
  end.

(** ** Example data *)

(** An assignment of the names, with short table orders. *)
Definition exampleNames : Names :=
  mkNames "OVN_Northbound" "OVN_Southbound" "_Server" "Database" "Logical_Switch"
    ["Logical_Switch"; "Logical_Router"] ["Chassis"] ["Database"].

Definition exNB : DatabaseSchema :=
  mkDatabaseSchema
    {[ "Logical_Switch" :=
         mkTableSchema
           {[ "name" := mkColumnSchema "string" 1 1;
              "external_ids" := mkColumnSchema "map" 0 (-1);
              "ports" := mkColumnSchema "set" 0 10;
              "tag" := mkColumnSchema "set" 0 1;
              "count" := mkColumnSchema "integer" 5 5;
              "up" := mkColumnSchema "boolean" 0 1;
              "enabled" := mkColumnSchema "boolean" 1 1;
              "parent" := mkColumnSchema "uuid" 1 1 ]};
       "Logical_Router" :=
         mkTableSchema
           {[ "name" := mkColumnSchema "string" 1 1;
              "external_ids" := mkColumnSchema "map" 0 (-1) ]} ]}.

Definition exServerSchema : DatabaseSchema :=
  mkDatabaseSchema
    {[ "Database" :=
         mkTableSchema
           {[ "name" := mkColumnSchema "string" 1 1;
              "model" := mkColumnSchema "string" 1 1;
              "leader" := mkColumnSchema "boolean" 1 1 ]} ]}.

(** A logical switch [ls0] with one external id and two ports. *)
Definition exSwitchFields : gmap string Value :=
  {[ "name" := VAtom (AString "ls0");
     "external_ids" := VMap {[ AString "owner" := AString "alice" ]};
     "ports" := VSet [AUUID "p1"; AUUID "p2"];
     "tag" := VAtom (AInt 7) ]}.

Definition exSwitchTable : gmap string Row :=
  {[ "u1" := mkRow (Some exSwitchFields) ]}.

Definition exCache : gmap string (gmap string Row) :=
  {[ "Logical_Switch" := exSwitchTable ]}.

(** A logical router [r1]; the cache holds no logical switch of that name. *)
Definition exRouterCache : gmap string (gmap string Row) :=
  {[ "Logical_Router" :=
       {[ "r-uuid" := mkRow (Some {[ "name" := VAtom (AString "r1");
                                     "external_ids" := VMap ∅ ]}) ]} ]}.

(** The same router together with a logical switch that carries the
    router's name. *)
Definition exClashCache : gmap string (gmap string Row) :=
  <[ "Logical_Switch" :=
       {[ "s-uuid" := mkRow (Some {[ "name" := VAtom (AString "r1") ]}) ]} ]>
    exRouterCache.

(** What a server answers: [reply] to every transaction, the given
    initial dumps to the monitor requests. *)
Definition exServer (reply : list OperationResult)
    (dump : gmap string (gmap string RowUpdate2))
    (serverDump : gmap string (gmap string RowUpdate2)) : OvsdbClient :=
  mkOvsdbClient {[ "OVN_Northbound" := exNB; "_Server" := exServerSchema ]}
    (λ _ _, (reply, None))
    (λ _ _, (serverDump, None))
    (λ _ _ txn, (dump, "t1", None))
    false true.

(** The cluster-membership dump of a server for [OVN_Northbound]. *)
Definition exMembership (model : string) (leader : bool)
  : gmap string (gmap string RowUpdate2) :=
  {[ "Database" :=
       {[ "d1" := mkRowUpdate2
                    (mkRow (Some {[ "name" := VAtom (AString "OVN_Northbound");
                                    "model" := VAtom (AString model);
                                    "leader" := VAtom (ABool leader) ]}))
                    emptyRow emptyRow emptyRow ]} ]}.

Definition exClient (endpoints_ : list string) (cur : nat) (cl : option OvsdbClient)
    (cache_ : gmap string (gmap string Row)) : ovndb :=
  mkOvndb cl false cache_ true "OVN_Northbound" endpoints_ cur
    {[ "Logical_Switch" := []; "Logical_Router" := [] ]} ∅
    ZERO_TRANSACTION true ∅ ∅ [] [].

(** Endpoint [C] answers as the leader of a cluster, [A] and [B] refuse
    the connection. *)
Definition exOnlyC (addr : string) : option OvsdbClient :=
  if bool_decide (addr = "C") then Some (exServer [] ∅ (exMembership "clustered" true))
  else None.

Definition exNobody (addr : string) : option OvsdbClient := None.

(** Every endpoint answers as a follower of the cluster. *)
Definition exFollowers (addr : string) : option OvsdbClient :=
  Some (exServer [] ∅ (exMembership "clustered" false)).

(** Every endpoint reports the database as standalone, leader flag false. *)
Definition exStandalone (addr : string) : option OvsdbClient :=
  Some (exServer [] ∅ (exMembership "standalone" false)).

(** A client with the endpoints [A], [B], [C], the cursor at [A], and what
    failed attempts to dial can turn it into. *)
Definition exABC : ovndb := exClient ["A"; "B"; "C"] 0 None ∅.

Definition exABCLater (c : ovndb) : Prop :=
  ∃ cur d, c = set_dialed d (set_curEndpoint cur exABC).

(** The switch of the example as a snapshot update; the tag arrives as the
    floating-point number 7.0. *)
Definition exSnapshot : RowUpdate :=
  mkRowUpdate (mkRow (Some (<[ "tag" := VAtom (AReal 7 1) ]> exSwitchFields))) emptyRow.

Definition exInsert (name : string) : Operation :=
  mkOperation opInsert "Logical_Switch" {[ "name" := VAtom (AString name) ]} [] [].

Definition exOK : OperationResult := mkOperationResult 1 "" "" "".

Definition exFailed : OperationResult :=
  mkOperationResult 0 "constraint violation" "duplicate name" "".

(** The two applications of the diff [owner = bob] to the switch of the
    example: the first overwrites, the second removes. *)
Definition exBobOnce : gmap string (gmap string Row) :=
  {[ "Logical_Switch" :=
       {[ "u1" := mkRow (Some (<[ "external_ids" := VMap {[ AString "owner" := AString "bob" ]} ]>
                                 exSwitchFields)) ]} ]}.

Definition exBobTwice : gmap string (gmap string Row) :=
  {[ "Logical_Switch" :=
       {[ "u1" := mkRow (Some (<[ "external_ids" := VMap ∅ ]> exSwitchFields)) ]} ]}.

(** The cluster-membership row of [exMembership] as it is cached. *)
Definition exMemberRow (model : string) (leader : bool) : Row :=
  mkRow (Some {[ "name" := VAtom (AString "OVN_Northbound");
                 "model" := VAtom (AString model);
                 "leader" := VAtom (ABool leader) ]}).

(** Whether a round of [connect] ended in the successful return. *)
Definition succeeded (r : option (ovndb + ovndb)) : bool :=
  match r with
  | Some (inl _) => true
  | _ => false
  end.

(** An answer to an insert: the identifier of the new row. *)
Definition exCreated : OperationResult := mkOperationResult 1 "" "" "new-uuid".

(** Two commands with a nil command between them. *)
Definition exCommands : list (option OvnCommand) :=
  [Some (mkOvnCommand [exInsert "ls0"]); None; Some (mkOvnCommand [exInsert "ls1"])].

(** A modify notification for the switch of the example: the diff
    [owner = alice], which removes the key. *)
Definition exModify : RowUpdate2 :=
  mkRowUpdate2 emptyRow emptyRow emptyRow
    (mkRow (Some {[ "external_ids" := VMap {[ AString "owner" := AString "alice" ]} ]})).

(** A leader-only client whose server cache says that the server is a
    follower. *)
Definition exFollowerClient : ovndb :=
  set_serverCache {[ "Database" := {[ "d1" := exMemberRow "clustered" false ]} ]}
    (exClient ["A"; "B"] 0 None ∅).


(** The additional entry of a reply whose commit failed. *)
Definition exCommitFailed : OperationResult :=
  mkOperationResult 0 "constraint violation" "commit refused" "".

(** A batch for the example cache: the switch [u1] is modified, a switch
    [u2] is inserted and a switch [u3], which the cache does not hold, is
    deleted. *)
Definition exBatch2 : gmap string (gmap string RowUpdate2) :=
  {[ "Logical_Switch" :=
       {[ "u1" := exModify;
          "u2" := mkRowUpdate2 emptyRow
                    (mkRow (Some {[ "name" := VAtom (AString "ls2") ]})) emptyRow emptyRow;
          "u3" := mkRowUpdate2 emptyRow emptyRow (mkRow (Some ∅)) emptyRow ]} ]}.

(** ** Statements used by the properties *)

(** What the switch on the column type yields, case by case. *)
Definition defaultFor (cs : ColumnSchema) (d : Value) : Prop :=
  (Type_ cs = "integer" ∨ Type_ cs = "real" → d = VAtom (AInt (Min cs))) ∧
  (Type_ cs = "boolean" → Min cs = 0%Z ∧ Max cs = 1%Z → d = VNil) ∧
  (Type_ cs = "boolean" → ¬ (Min cs = 0%Z ∧ Max cs = 1%Z) → d = VAtom (ABool false)) ∧
  (Type_ cs = "map" → d = VMap ∅) ∧
  (Type_ cs = "set" → d = VSet []) ∧
  (Type_ cs = "string" → d = VAtom (AString "")) ∧
  (Type_ cs ∉ ["integer"; "real"; "boolean"; "map"; "set"; "string"] → d = VNil).

(** The value a cached row holds under key [k] of a map column. *)
Definition mapKey (cache : gmap string (gmap string Row))
    (table uuid column : string) (k : Atom) : option Atom :=
  match field (cacheRow cache table uuid) column with
  | Some (VMap m) => m !! k
  | _ => None
  end.

(** A modify notification for one map column. *)
Definition mapDiff (column : string) (diff : gmap Atom Atom) : Row :=
  mkRow (Some {[ column := VMap diff ]}).

(** The elements of a set column's value: a set, or a bare element. *)
Definition setElems (v : Value) : option (list Atom) :=
  match v with
  | VSet l => Some l
  | VAtom a => Some [a]
  | _ => None
  end.

(** How a set of elements is stored back: collapsed when it has exactly
    one element. *)
Definition collapse (nv : list Atom) : Value :=
  match nv with
  | [x] => VAtom x
  | _ => VSet nv
  end.

(** A modify notification for one column. *)
Definition columnDiff (column : string) (value : Value) : Row :=
  mkRow (Some {[ column := value ]}).

(** Values on which Go's [==] is defined whatever the other side is. *)
Definition comparable (v : Value) : Prop :=
  match v with
  | VNil | VAtom _ => True
  | VSet _ | VMap _ => False
  end.

(** Every queried field that the cached row has equals the queried value. *)
Definition rowMatches (query : gmap string Value) (drows : Row) : Prop :=
  ∀ field_ value, query !! field_ = Some value →
    ∀ v, field drows field_ = Some v → v = value.

(** Two client objects with the same endpoint list, cursor, dial trace,
    database name and leader-only flag. *)
Definition sameEndpoints (c c' : ovndb) : Prop :=
  endpoints c' = endpoints c ∧ curEndpoint c' = curEndpoint c ∧
  dialed c' = dialed c ∧ db c' = db c ∧ leaderOnly c' = leaderOnly c.

(** An attempt at the endpoint [addr] fails from every client object that
    satisfies [I], and leaves a client object that satisfies [I]; [I] says
    what the earlier attempts may have left behind. *)
Definition attemptFails `{Names} (Connect : string → option OvsdbClient)
    (I : ovndb → Prop) (addr : string) : Prop :=
  ∀ c, I c → endpoints c !! curEndpoint c = Some addr →
       ∃ c', connectAttempt Connect c = Some (inr c') ∧ I c'.

Definition attemptSucceeds `{Names} (Connect : string → option OvsdbClient)
    (I : ovndb → Prop) (addr : string) : Prop :=
  ∀ c, I c → endpoints c !! curEndpoint c = Some addr →
       ∃ c', connectAttempt Connect c = Some (inl c').

(** The server cache holds a cluster-membership row for the database,
    and what a row says about leadership. *)
Definition rowSays (dbName : string) (clustered : bool) (leader : bool) (row : Row) : Prop :=
  field row "name" = Some (VAtom (AString dbName)) ∧
  (if clustered then field row "model" = Some (VAtom (AString "clustered")) else True) ∧
  field row "leader" = Some (VAtom (ABool leader)).

(** The invariant of the loops of [populateCache2] when no signal is
    requested: the cursor data is untouched and so it stays under the
    deferred deletions. *)
Definition quiet (c0 : ovndb) (acc : option (ovndb * list (ovndb → ovndb))) : Prop :=
  match acc with
  | Some (c, deferred) =>
      sameEndpoints c0 c ∧ Forall (λ f, ∀ x, sameEndpoints x (f x)) deferred
  | None => True
  end.

(** The endpoints in the order in which the cursor visits them, starting
    at position [cur] and wrapping around. *)
Definition fromCursor (cur : nat) (endpoints_ : list string) : list string :=
  drop cur endpoints_ ++ take cur endpoints_.

(** The invariant of the loops of [populateCache] for a row whose
    incoming content is what the cache holds: the entry still holds it and
    no create signal for it has been added to the trace. *)
Definition entryKept (ctx : context) (table uuid : string) (new : Row)
    (odbi c : ovndb) : Prop :=
  cacheRow (ctxCache ctx c) table uuid = new ∧
  ∃ extra, signals c = signals odbi ++ extra ∧ Created table uuid ∉ extra.

Definition loopKept (ctx : context) (table uuid : string) (new : Row)
    (odbi : ovndb) (acc : ovndb * list (ovndb → ovndb)) : Prop :=
  entryKept ctx table uuid new odbi acc.1 ∧
  Forall (λ f, ∀ x, entryKept ctx table uuid new odbi x →
                    entryKept ctx table uuid new odbi (f x)) acc.2.

(** Decimal digits, and the number a string of decimal digits denotes. *)
Definition isDigit (c : Ascii.ascii) : Prop :=
  48 ≤ Ascii.nat_of_ascii c ≤ 57.

Fixpoint allDigits (s : string) : Prop :=
  match s with
  | EmptyString => True
  | String c s' => isDigit c ∧ allDigits s'
  end.

Fixpoint parseDigits (acc : Z) (s : string) : Z :=
  match s with
  | EmptyString => acc
  | String c s' => parseDigits (10 * acc + (Z.of_nat (Ascii.nat_of_ascii c) - 48))%Z s'
  end.

(** Whether a filter takes an address, in either family. *)
Definition filterTakes (is4 : string → bool) (filter_ : list IPNet) (ipStr : string) : Prop :=
  ∃ cidr, cidr ∈ filter_ ∧ netIs4 cidr = is4 ipStr ∧ Contains cidr ipStr = true.

(** The operations of a list of commands, nil commands left out, and the
    identifiers that a reply carries. *)
Definition allOperations (cmds : list (option OvnCommand)) : list Operation :=
  cmds ≫= λ cmd, match cmd with Some cmd => Operations cmd | None => [] end.

Definition createdUUIDs (results : list OperationResult) : list string :=
  filter (λ uuid, uuid ≠ "") (UUID <$> results).

(** The string an element of a set stands for: its text, or the
    identifier it refers to. *)
Definition atomString (a : Atom) : option string :=
  match a with
  | AString value => Some value
  | AUUID uuid => Some uuid
  | _ => None
  end.

(** The kind of a call that the signal dispatcher received. *)
Definition isCreated (s : Signal) : Prop :=
  match s with Created _ _ => True | Deleted _ _ => False end.

Definition isDeleted (s : Signal) : Prop :=
  match s with Deleted _ _ => True | Created _ _ => False end.

(** What a snapshot-style batch says about a row of a monitored table. *)
Definition updateOf (tableCols_ : gmap string (list string))
    (updates : gmap string (gmap string RowUpdate)) (table uuid : string)
  : option RowUpdate :=
  match tableCols_ !! table with
  | Some _ => updates !! table ≫= λ tableUpdate, tableUpdate !! uuid
  | None => None
  end.

(** Whether [populateCache] and [populateCache2] call the signal callbacks:
    the caller asks for it, the database is not the server database, and
    the callback interface is not nil. *)
Definition signalling `{Names} (odbi : ovndb) (dbName : string) (signal : bool) : bool :=
  signal && negb (bool_decide (dbName = DBServer)) && signalCB odbi.


(** The client object [c] is [c0] but for the cache of the database that
    the context stands for. *)
Definition onlyCacheOf (ctx : context) (c0 c : ovndb) : Prop :=
  c = ctxSetCache ctx (ctxCache ctx c) c0.


(** What an update2 batch says about a row of a monitored table. *)
Definition updateOf2 (tableCols_ : gmap string (list string))
    (updates : gmap string (gmap string RowUpdate2)) (table uuid : string)
  : option RowUpdate2 :=
  match tableCols_ !! table with
  | Some _ => updates !! table ≫= λ tableUpdate, tableUpdate !! uuid
  | None => None
  end.

(** What one notification of an update2 batch makes of the row it names,
    given the row that the cache holds ([emptyRow] when it holds none): the
    initial content with the missing columns filled in, unless the cache
    holds it already; the inserted content with the missing columns filled
    in; the cached row with the diff applied; no row after a delete.
    [None] is a panic. *)
Definition rowAfter2 (schema : option DatabaseSchema) (table : string)
    (row : RowUpdate2) (cached : Row) : option Row :=
  if isSet (Initial row) then
    if bool_decide (float64_to_int (Initial row) = cached) then Some cached
    else s ← schema; initMissingColumnsWithDefaults s table (float64_to_int (Initial row))
  else if isSet (Insert row) then
    s ← schema; float64_to_int <$> initMissingColumnsWithDefaults s table (Insert row)
  else if isSet (Modify row) then
    applyRowDiff schema table cached (float64_to_int (Modify row))
  else if isSet (Delete row) then Some emptyRow
  else Some cached.

(** Which notifications of an update2 batch are announced to the signal
    callbacks: as a creation, the initial content that the cache does not
    hold already, an insert and a modify; as a deletion, a delete. *)
Definition announcesCreate (row : RowUpdate2) (cached : Row) : bool :=
  if isSet (Initial row) then bool_decide (float64_to_int (Initial row) ≠ cached)
  else isSet (Insert row) || isSet (Modify row).

Definition announcesDelete (row : RowUpdate2) : bool :=
  negb (isSet (Initial row)) && negb (isSet (Insert row)) && negb (isSet (Modify row))
  && isSet (Delete row).

(** ** The loops of the cache population, seen from one entry *)

(** The entry [table]/[uuid] of the cache that the context stands for, and
    the calls that leave it as it is. *)
Definition entryOf (ctx : context) (table uuid : string) (x : ovndb) : Row :=
  cacheRow (ctxCache ctx x) table uuid.

Definition keepsEntry (ctx : context) (table uuid : string) (f : ovndb → ovndb) : Prop :=
  ∀ x, entryOf ctx table uuid (f x) = entryOf ctx table uuid x.

(** The invariants of the loops of [populateCache].  Before the row of the
    entry is reached: the entry is as at the start and the deferred calls
    leave it alone.  After it: whatever the deferred calls start from, as
    long as the entry is as it is now, they end with the new content in
    the entry. *)
Definition entryBefore (ctx : context) (table uuid : string) (orig : Row)
    (acc : ovndb * list (ovndb → ovndb)) : Prop :=
  entryOf ctx table uuid acc.1 = orig ∧ Forall (keepsEntry ctx table uuid) acc.2.

Definition entryAfter (ctx : context) (table uuid : string) (new : Row)
    (acc : ovndb * list (ovndb → ovndb)) : Prop :=
  ∀ x, entryOf ctx table uuid x = entryOf ctx table uuid acc.1 →
       entryOf ctx table uuid (runDeferred acc.2 x) = new.

(** The same for the trace of signals: no call for the entry before its
    row is reached; after it, the calls that its new content asks for. *)
Definition signalsBefore (odbi0 : ovndb) (table uuid : string)
    (acc : ovndb * list (ovndb → ovndb)) : Prop :=
  (∃ cs, signals acc.1 = signals odbi0 ++ cs ∧ Forall isCreated cs ∧
         Created table uuid ∉ cs) ∧
  (∀ x, ∃ ds, signals (runDeferred acc.2 x) = signals x ++ ds ∧ Forall isDeleted ds ∧
              Deleted table uuid ∉ ds).

Definition signalsAfter `{Names} (odbi0 : ovndb) (dbName table uuid : string)
    (signal : bool) (new : Row) (acc : ovndb * list (ovndb → ovndb)) : Prop :=
  (∃ cs, signals acc.1 = signals odbi0 ++ cs ∧ Forall isCreated cs ∧
         (Created table uuid ∈ cs ↔
            signalling odbi0 dbName signal = true ∧ new ≠ emptyRow ∧
            new ≠ entryOf (getContext odbi0 dbName) table uuid odbi0)) ∧
  (∀ x, ∃ ds, signals (runDeferred acc.2 x) = signals x ++ ds ∧ Forall isDeleted ds ∧
              (Deleted table uuid ∈ ds ↔
                 signalling odbi0 dbName signal = true ∧ new = emptyRow)).

(** The invariants of the loops of [populateCache2], which may panic
    ([None]) and whose deferred calls are deletions only. *)
Definition entryBefore2 (ctx : context) (odbi0 : ovndb) (table uuid : string)
    (acc : option (ovndb * list (ovndb → ovndb))) : Prop :=
  match acc with
  | Some (c, deferred) =>
      entryOf ctx table uuid c = entryOf ctx table uuid odbi0 ∧
      client c = client odbi0 ∧ Forall (keepsEntry ctx table uuid) deferred
  | None => True
  end.

Definition entryAfter2 `{Names} (odbi0 : ovndb) (dbName table uuid : string)
    (row : RowUpdate2) (acc : option (ovndb * list (ovndb → ovndb))) : Prop :=
  match acc with
  | Some (c, deferred) =>
      ∃ r, rowAfter2 (getSchema odbi0 dbName) table row
             (entryOf (getContext odbi0 dbName) table uuid odbi0) = Some r ∧
           ∀ x, entryOf (getContext odbi0 dbName) table uuid x
                = entryOf (getContext odbi0 dbName) table uuid c →
                entryOf (getContext odbi0 dbName) table uuid (runDeferred deferred x) = r
  | None => True
  end.

Definition silent (f : ovndb → ovndb) : Prop := ∀ x, signals (f x) = signals x.

Definition signalsBefore2 (odbi0 : ovndb) (table uuid : string)
    (acc : option (ovndb * list (ovndb → ovndb))) : Prop :=
  match acc with
  | Some (c, deferred) =>
      (∃ added, signals c = signals odbi0 ++ added ∧
                (Created table uuid ∉ added) ∧ (Deleted table uuid ∉ added)) ∧
      Forall silent deferred
  | None => True
  end.

Definition signalsAfter2 `{Names} (odbi0 : ovndb) (dbName table uuid : string)
    (signal : bool) (row : RowUpdate2)
    (acc : option (ovndb * list (ovndb → ovndb))) : Prop :=
  match acc with
  | Some (c, deferred) =>
      (∃ added, signals c = signals odbi0 ++ added ∧
         (Created table uuid ∈ added ↔
            signalling odbi0 dbName signal = true ∧
            announcesCreate row (entryOf (getContext odbi0 dbName) table uuid odbi0)
              = true) ∧
         (Deleted table uuid ∈ added ↔
            signalling odbi0 dbName signal = true ∧ announcesDelete row = true)) ∧
      Forall silent deferred
  | None => True
  end.

(** * Properties *)

(** ** Folding over a map *)

Lemma map_fold_preserve {A B} (P : B → Prop) (f : string → A → B → B) (b : B)
    (m : gmap string A) :
  P b →
  (∀ i x r, m !! i = Some x → P r → P (f i x r)) →
  P (map_fold f b m).
Proof.
  intros Hb Hstep.
  cut (∀ m', m' ⊆ m → P (map_fold f b m')).
  { intros Hcut. apply Hcut. reflexivity. }
  intros m'. apply (map_fold_weak_ind (λ r m0, m0 ⊆ m → P r)).
  - intros _. exact Hb.
  - intros i x m0 r Hi IH Hsub. apply Hstep.
    + eapply lookup_weaken; [|exact Hsub]. apply lookup_insert_eq.
    + apply IH. etrans; [|exact Hsub]. by apply insert_subseteq.
Qed.

(** ** Default synthesis *)

Lemma initColumn_fold_lookup (columns : gmap string ColumnSchema)
    (fields : gmap string Value) (column : string) :
  map_fold initColumn fields columns !! column =
  match fields !! column with
  | Some v => Some v
  | None => defaultValue <$> columns !! column
  end.
Proof.
  revert column.
  apply (map_fold_weak_ind (λ r m, ∀ column, r !! column =
    match fields !! column with
    | Some v => Some v
    | None => defaultValue <$> m !! column
    end)).
  - intros column. rewrite lookup_empty. by destruct (fields !! column).
  - intros i x m r Hi IH column. unfold initColumn.
    pose proof (IH i) as IHi. rewrite Hi in IHi. simpl in IHi.
    destruct (decide (i = column)) as [->|Hne].
    + rewrite lookup_insert_eq.
      destruct (fields !! column) as [v|] eqn:Hf.
      * rewrite IHi. exact IHi.
      * rewrite IHi. by rewrite lookup_insert_eq.
    + rewrite (lookup_insert_ne m) by done.
      destruct (r !! i); [apply IH|].
      rewrite lookup_insert_ne by done. apply IH.
Qed.

Lemma defaultValue_defaultFor (cs : ColumnSchema) : defaultFor cs (defaultValue cs).
Proof.
  unfold defaultFor, defaultValue, isType.
  repeat split.
  - intros [->| ->]; reflexivity.
  - intros -> [-> ->]. reflexivity.
  - intros -> Hn. simpl.
    destruct (bool_decide (Min cs = 0%Z)) eqn:E1;
      destruct (bool_decide (Max cs = 1%Z)) eqn:E2; simpl; try reflexivity.
    apply bool_decide_eq_true in E1, E2. tauto.
  - intros ->. reflexivity.
  - intros ->. reflexivity.
  - intros ->. reflexivity.
  - intros Hn. rewrite !elem_of_cons, elem_of_nil in Hn.
    repeat (case_bool_decide; [tauto|]). reflexivity.
Qed.

(** C3.  After [initMissingColumnsWithDefaults], every column of the
    table's schema that the row lacks holds the default of its type
    (integer and real: the schema minimum; boolean: nil when the range is
    exactly 0..1, false otherwise; map: the empty map; set: the empty set;
    string: the empty string; any other type: nil), a minimum of 5 giving
    5, and every column the row already had keeps its value. *)
Theorem initMissingColumnsWithDefaults_defaults (schema : DatabaseSchema)
    (table : string) (fields : gmap string Value) :
  ∃ fields',
    initMissingColumnsWithDefaults schema table (mkRow (Some fields))
      = Some (mkRow (Some fields')) ∧
    (∀ column v, fields !! column = Some v → fields' !! column = Some v) ∧
    (∀ column cs,
       tableColumns schema table !! column = Some cs →
       fields !! column = None →
       ∃ d, fields' !! column = Some d ∧ d = defaultValue cs ∧ defaultFor cs d ∧
            (Type_ cs = "integer" → Min cs = 5%Z → d = VAtom (AInt 5))) ∧
    (∀ column,
       tableColumns schema table !! column = None →
       fields' !! column = fields !! column).
Proof.
  eexists. split; [reflexivity|]. split; [|split].
  - intros column v Hf. by rewrite initColumn_fold_lookup, Hf.
  - intros column cs Hc Hf. exists (defaultValue cs).
    rewrite initColumn_fold_lookup, Hf, Hc. split; [done|]. split; [done|].
    split; [apply defaultValue_defaultFor|].
    intros Ht Hm. destruct (defaultValue_defaultFor cs) as [Hi _].
    rewrite Hi by auto. by rewrite Hm.
  - intros column Hc. rewrite initColumn_fold_lookup, Hc.
    by destruct (fields !! column).
Qed.

(** ** Map columns: the toggle *)

Lemma toggleKey_lookup (k v k' : Atom) (m : gmap Atom Atom) :
  toggleKey k v m !! k' =
  if decide (k = k') then
    match m !! k with
    | None => Some v
    | Some pv => if decide (pv = v) then None else Some v
    end
  else m !! k'.
Proof.
  unfold toggleKey. destruct (decide (k = k')) as [<-|Hne].
  - destruct (m !! k) as [pv|] eqn:Hk.
    + case_bool_decide; destruct (decide (pv = v)); try done.
      * apply lookup_delete_eq.
      * apply lookup_insert_eq.
    + apply lookup_insert_eq.
  - destruct (m !! k) as [pv|]; [case_bool_decide|].
    + by apply lookup_delete_ne.
    + by apply lookup_insert_ne.
    + by apply lookup_insert_ne.
Qed.

(** Each incoming pair acts on its own key only, whatever the order in
    which the incoming map is visited. *)
Lemma toggleKey_fold_lookup (diff m : gmap Atom Atom) (k : Atom) :
  map_fold toggleKey m diff !! k =
  match diff !! k with
  | None => m !! k
  | Some v =>
      match m !! k with
      | None => Some v
      | Some pv => if decide (pv = v) then None else Some v
      end
  end.
Proof.
  revert k.
  apply (map_fold_weak_ind (λ r d, ∀ k, r !! k =
    match d !! k with
    | None => m !! k
    | Some v =>
        match m !! k with
        | None => Some v
        | Some pv => if decide (pv = v) then None else Some v
        end
    end)).
  - intros k. by rewrite lookup_empty.
  - intros i x d r Hi IH k. rewrite toggleKey_lookup.
    destruct (decide (i = k)) as [<-|Hne].
    + rewrite lookup_insert_eq. specialize (IH i). rewrite Hi in IH. by rewrite IH.
    + rewrite lookup_insert_ne by done. apply IH.
Qed.

Lemma cacheRow_stored (cache : gmap string (gmap string Row))
    (t : gmap string Row) (table uuid : string) (row : Row) :
  cacheRow (<[table := <[uuid := row]> t]> cache) table uuid = row.
Proof. unfold cacheRow. rewrite lookup_insert_eq. simpl. by rewrite lookup_insert_eq. Qed.

Lemma fieldOrNil_eq (r r' : Row) (c : string) :
  field r c = field r' c → fieldOrNil r c = fieldOrNil r' c.
Proof. unfold fieldOrNil. by intros ->. Qed.

Lemma setField_field (row row' : Row) (column : string) (v : Value) :
  setField row column v = Some row' →
  field row' column = Some v ∧
  (∀ c, c ≠ column → field row' c = field row c) ∧
  is_Some (Fields row) ∧ is_Some (Fields row').
Proof.
  unfold setField, field. destruct (Fields row) as [f|]; [|done].
  intros [= <-]. simpl. split; [apply lookup_insert_eq|].
  split; [|by split]. intros c Hc. by apply lookup_insert_ne.
Qed.

(** A round of the loop over the diff writes at most its own column, and
    what it writes depends on the row only through that column. *)
Lemma applyColumn_local (schema : option DatabaseSchema) (table column : string)
    (value : Value) (r0 row' : Row) :
  applyColumn schema table column value (Some r0) = Some row' →
  (∀ c, c ≠ column → field row' c = field r0 c) ∧
  (is_Some (Fields row') ↔ is_Some (Fields r0)) ∧
  ∀ row, field row column = field r0 column →
         (is_Some (Fields row) ↔ is_Some (Fields r0)) →
         ∃ r1, applyColumn schema table column value (Some row) = Some r1 ∧
               field r1 column = field row' column.
Proof.
  unfold applyColumn. simpl. destruct schema as [s|]; [simpl|done].
  intros Happ.
  assert (Hset : ∀ v, setField r0 column v = Some row' →
    (∀ c, c ≠ column → field row' c = field r0 c) ∧
    (is_Some (Fields row') ↔ is_Some (Fields r0)) ∧
    ∀ row, (is_Some (Fields row) ↔ is_Some (Fields r0)) →
           ∃ r1, setField row column v = Some r1 ∧ field r1 column = field row' column).
  { intros v Hv. destruct (setField_field _ _ _ _ Hv) as (Hf & Ho & Hs0 & Hs').
    split; [done|]. split; [done|]. intros row Hiff.
    destruct (proj2 Hiff Hs0) as [f Hfr]. unfold setField. rewrite Hfr.
    eexists. split; [done|]. rewrite Hf. unfold field. simpl.
    by rewrite lookup_insert_eq. }
  destruct (tableColumns s table !! column) as [cs|].
  2:{ injection Happ as <-. split; [done|]. split; [done|].
      intros row Hf _. by exists row. }
  destruct (isType cs "map").
  { destruct value as [| | |diff]; try done.
    case_bool_decide.
    - injection Happ as <-. split; [done|]. split; [done|].
      intros row Hf _. by exists row.
    - destruct (fieldOrNil r0 column) as [| | |m] eqn:Hcur; try done.
      destruct (Hset _ Happ) as (H1 & H2 & H3). split; [done|]. split; [done|].
      intros row Hf Hiff. rewrite (fieldOrNil_eq row r0) by done.
      rewrite Hcur. by apply H3. }
  destruct (isType cs "set").
  { case_bool_decide.
    - destruct (Hset _ Happ) as (H1 & H2 & H3). split; [done|]. split; [done|].
      intros row Hf Hiff. by apply H3.
    - destruct (modifySet (fieldOrNil r0 column) value) as [nv|] eqn:Hnv;
        [simpl in Happ|done].
      destruct (Hset _ Happ) as (H1 & H2 & H3). split; [done|]. split; [done|].
      intros row Hf Hiff. rewrite (fieldOrNil_eq row r0) by done.
      rewrite Hnv. simpl. by apply H3. }
  destruct (Hset _ Happ) as (H1 & H2 & H3). split; [done|]. split; [done|].
  intros row Hf Hiff. by apply H3.
Qed.

(** The columns of a diff are applied independently of one another: what
    a column holds afterwards is what applying that column alone to the
    original row gives, in whatever order the diff is visited. *)
Lemma applyRowDiff_local (schema : option DatabaseSchema) (table : string)
    (row : Row) (d : gmap string Value) (row' : Row) :
  applyRowDiff schema table row (mkRow (Some d)) = Some row' →
  (is_Some (Fields row') ↔ is_Some (Fields row)) ∧
  ∀ column,
    match d !! column with
    | None => field row' column = field row column
    | Some value =>
        ∃ r1, applyColumn schema table column value (Some row) = Some r1 ∧
              field row' column = field r1 column
    end.
Proof.
  unfold applyRowDiff. simpl. revert row'.
  apply (map_fold_weak_ind (λ r m, ∀ row', r = Some row' →
    (is_Some (Fields row') ↔ is_Some (Fields row)) ∧
    ∀ column,
      match m !! column with
      | None => field row' column = field row column
      | Some value =>
          ∃ r1, applyColumn schema table column value (Some row) = Some r1 ∧
                field row' column = field r1 column
      end)).
  - intros row' [= <-]. split; [done|]. intros column. by rewrite lookup_empty.
  - intros i x m r Hi IH row' Happ.
    destruct r as [r0|]; [|done].
    destruct (IH r0 eq_refl) as [Hiff Hcols].
    destruct (applyColumn_local _ _ _ _ _ _ Happ) as (Hother & Hiff' & Hsame).
    split; [by rewrite Hiff'|].
    intros column. destruct (decide (i = column)) as [<-|Hne].
    + rewrite lookup_insert_eq. specialize (Hcols i). rewrite Hi in Hcols.
      destruct (Hsame row) as (r1 & Hr1 & Hf1); [done|done|].
      exists r1. by split.
    + rewrite lookup_insert_ne by done. specialize (Hcols column).
      rewrite Hother by done. exact Hcols.
Qed.

(** What a modify notification leaves in the column of a cached row, given
    what applying that column alone writes. *)
Lemma applyUpdatesToRow_field (schema : DatabaseSchema) (table uuid column : string)
    (cache cache1 : gmap string (gmap string Row)) (t : gmap string Row)
    (fields d : gmap string Value) (value new : Value) :
  cache !! table = Some t →
  t !! uuid = Some (mkRow (Some fields)) →
  d !! column = Some value →
  applyColumn (Some schema) table column value (Some (mkRow (Some fields)))
    = setField (mkRow (Some fields)) column new →
  applyUpdatesToRow (Some schema) table uuid (mkRow (Some d)) cache = Some cache1 →
  ∃ fields1,
    cache1 = <[table := <[uuid := mkRow (Some fields1)]> t]> cache ∧
    fields1 !! column = Some new.
Proof.
  intros Ht Hu Hd Hcol. unfold applyUpdatesToRow.
  assert (Hrow : cacheRow cache table uuid = mkRow (Some fields)).
  { unfold cacheRow. rewrite Ht. simpl. by rewrite Hu. }
  rewrite Hrow.
  destruct (applyRowDiff _ _ _ _) as [row'|] eqn:Happ; [simpl|done].
  destruct (applyRowDiff_local _ _ _ _ _ Happ) as [Hiff Hcols].
  specialize (Hcols column). rewrite Hd in Hcols.
  destruct Hcols as (r1 & Hr1 & Hf). rewrite Hcol in Hr1.
  destruct (setField_field _ _ _ _ Hr1) as (Hnew & _).
  destruct (proj2 Hiff) as [fields1 Hf1]; [by eexists|].
  unfold cacheStore. rewrite Ht. simpl. intros [= <-].
  exists fields1. destruct row' as [fs]. simpl in Hf1. subst fs.
  split; [done|]. rewrite Hnew in Hf. exact Hf.
Qed.

(** A diff that consists of one column always applies when that column
    alone does. *)
Lemma applyUpdatesToRow_column (schema : DatabaseSchema) (table uuid column : string)
    (cache : gmap string (gmap string Row))
    (t : gmap string Row) (fields : gmap string Value) (value new : Value) :
  cache !! table = Some t →
  t !! uuid = Some (mkRow (Some fields)) →
  applyColumn (Some schema) table column value (Some (mkRow (Some fields)))
    = setField (mkRow (Some fields)) column new →
  ∃ cache1,
    applyUpdatesToRow (Some schema) table uuid (columnDiff column value) cache = Some cache1.
Proof.
  intros Ht Hu Hcol.
  unfold applyUpdatesToRow, applyRowDiff, columnDiff. simpl.
  rewrite map_fold_singleton.
  assert (Hrow : cacheRow cache table uuid = mkRow (Some fields)).
  { unfold cacheRow. rewrite Ht. simpl. by rewrite Hu. }
  rewrite Hrow, Hcol. simpl. unfold cacheStore. rewrite Ht. simpl. by eexists.
Qed.

Lemma applyColumn_map (schema : DatabaseSchema) (table column : string)
    (cs : ColumnSchema) (fields : gmap string Value) (m diff : gmap Atom Atom) :
  tableColumns schema table !! column = Some cs →
  Type_ cs = "map" →
  fields !! column = Some (VMap m) →
  diff ≠ ∅ →
  applyColumn (Some schema) table column (VMap diff) (Some (mkRow (Some fields)))
  = setField (mkRow (Some fields)) column (VMap (map_fold toggleKey m diff)).
Proof.
  intros Hcs Hty Hf Hd. unfold applyColumn. simpl.
  rewrite Hcs. unfold isType. rewrite Hty. simpl.
  rewrite bool_decide_eq_false_2 by done.
  unfold fieldOrNil, field. simpl. by rewrite Hf.
Qed.

Lemma mapKey_stored (cache : gmap string (gmap string Row)) (t : gmap string Row)
    (table uuid column : string) (fields : gmap string Value) (m : gmap Atom Atom)
    (k : Atom) :
  fields !! column = Some (VMap m) →
  mapKey (<[table := <[uuid := mkRow (Some fields)]> t]> cache) table uuid column k
  = m !! k.
Proof.
  intros Hf. unfold mapKey. rewrite cacheRow_stored. unfold field. simpl. by rewrite Hf.
Qed.

(** C1, as the code has it.  Applying a modify-diff that carries [(k, v)]
    for a map column of a cached row inserts [k] with [v] when [k] is
    absent, overwrites when [k] holds another value, and removes [k] when
    it holds exactly [v]; the keys of the column that the diff does not
    name stay as they are.  Applying the same diff a second time restores
    the state of [k] when [k] was absent or held exactly [v]; when [k] held
    another value the second application removes it.  The diff may carry
    other columns; a diff of the map column alone always applies. *)
Theorem applyUpdatesToRow_map_toggle (schema : DatabaseSchema)
    (table uuid column : string) (cs : ColumnSchema)
    (cache : gmap string (gmap string Row)) (t : gmap string Row)
    (fields d : gmap string Value) (m diff : gmap Atom Atom) (k v : Atom) :
  tableColumns schema table !! column = Some cs →
  Type_ cs = "map" →
  cache !! table = Some t →
  t !! uuid = Some (mkRow (Some fields)) →
  fields !! column = Some (VMap m) →
  d !! column = Some (VMap diff) →
  diff !! k = Some v →
  mapKey cache table uuid column k = m !! k ∧
  (∀ cache1,
     applyUpdatesToRow (Some schema) table uuid (mkRow (Some d)) cache = Some cache1 →
     (m !! k = None → mapKey cache1 table uuid column k = Some v) ∧
     (∀ pv, m !! k = Some pv → pv ≠ v → mapKey cache1 table uuid column k = Some v) ∧
     (m !! k = Some v → mapKey cache1 table uuid column k = None) ∧
     (∀ k', diff !! k' = None →
        mapKey cache1 table uuid column k' = mapKey cache table uuid column k') ∧
     ∀ cache2,
       applyUpdatesToRow (Some schema) table uuid (mkRow (Some d)) cache1 = Some cache2 →
       (m !! k = None ∨ m !! k = Some v →
          mapKey cache2 table uuid column k = mapKey cache table uuid column k) ∧
       (∀ pv, m !! k = Some pv → pv ≠ v → mapKey cache2 table uuid column k = None)) ∧
  ∃ cache1 cache2,
    applyUpdatesToRow (Some schema) table uuid (mapDiff column diff) cache = Some cache1 ∧
    applyUpdatesToRow (Some schema) table uuid (mapDiff column diff) cache1 = Some cache2.
Proof.
  intros Hcs Hty Ht Hu Hf Hd Hk.
  assert (Hne : diff ≠ ∅) by (intros ->; by rewrite lookup_empty in Hk).
  assert (H0 : ∀ k', mapKey cache table uuid column k' = m !! k').
  { intros k'. unfold mapKey, field, cacheRow. rewrite Ht. simpl. rewrite Hu. simpl.
    by rewrite Hf. }
  assert (Hstep : ∀ cache0 t0 fields0 m0 d0 cache1,
    cache0 !! table = Some t0 → t0 !! uuid = Some (mkRow (Some fields0)) →
    fields0 !! column = Some (VMap m0) → d0 !! column = Some (VMap diff) →
    applyUpdatesToRow (Some schema) table uuid (mkRow (Some d0)) cache0 = Some cache1 →
    ∃ fields1,
      cache1 = <[table := <[uuid := mkRow (Some fields1)]> t0]> cache0 ∧
      fields1 !! column = Some (VMap (map_fold toggleKey m0 diff))).
  { intros cache0 t0 fields0 m0 d0 cache1 Ht0 Hu0 Hf0 Hd0.
    apply (applyUpdatesToRow_field schema table uuid column cache0 cache1 t0 fields0 d0
             (VMap diff)); try done.
    by eapply applyColumn_map. }
  split; [apply H0|]. split.
  - intros cache1 Happ1.
    destruct (Hstep _ _ _ _ _ _ Ht Hu Hf Hd Happ1) as (fields1 & -> & Hf1).
    assert (H1 : ∀ k', mapKey (<[table := <[uuid := mkRow (Some fields1)]> t]> cache)
                         table uuid column k' = map_fold toggleKey m diff !! k').
    { intros k'. by apply mapKey_stored. }
    rewrite !H1, !toggleKey_fold_lookup, Hk.
    split; [by intros ->|]. split.
    { intros pv -> Hpv. by destruct (decide (pv = v)). }
    split; [intros ->; by destruct (decide (v = v))|]. split.
    { intros k' Hk'. by rewrite H1, H0, toggleKey_fold_lookup, Hk'. }
    intros cache2 Happ2.
    destruct (Hstep _ _ _ _ _ _ (lookup_insert_eq _ _ _) (lookup_insert_eq _ _ _)
                Hf1 Hd Happ2) as (fields2 & -> & Hf2).
    rewrite insert_insert_eq, H0.
    rewrite (mapKey_stored _ _ _ _ _ _ _ _ Hf2), !toggleKey_fold_lookup, Hk.
    split.
    + intros [Hm|Hm]; rewrite Hm; by destruct (decide (v = v)).
    + intros pv Hm Hpv. rewrite Hm. destruct (decide (pv = v)); [done|].
      by destruct (decide (v = v)).
  - destruct (applyUpdatesToRow_column schema table uuid column cache t fields (VMap diff)
                (VMap (map_fold toggleKey m diff)) Ht Hu) as [cache1 Happ1].
    { by eapply applyColumn_map. }
    destruct (Hstep _ _ _ _ {[column := VMap diff]} _ Ht Hu Hf
                (lookup_singleton_eq _ _) Happ1) as (fields1 & -> & Hf1).
    destruct (applyUpdatesToRow_column schema table uuid column
                (<[table := <[uuid := mkRow (Some fields1)]> t]> cache)
                (<[uuid := mkRow (Some fields1)]> t) fields1 (VMap diff)
                (VMap (map_fold toggleKey (map_fold toggleKey m diff) diff)))
      as [cache2 Happ2].
    { apply lookup_insert_eq. }
    { apply lookup_insert_eq. }
    { by eapply applyColumn_map. }
    exists (<[table := <[uuid := mkRow (Some fields1)]> t]> cache), cache2.
    split; [exact Happ1|exact Happ2].
Qed.

(** ** Set columns *)

Lemma updateSetWithElem_absent (s : list Atom) (e : Atom) :
  e ∉ s → updateSetWithElem s e = s ++ [e].
Proof.
  intros He. unfold updateSetWithElem.
  assert (Hn : list_find (λ x, x = e) s = None).
  { apply list_find_None, Forall_forall. intros x Hx ->. done. }
  by rewrite Hn.
Qed.

(** The first occurrence is overwritten with the last element and the
    list loses its last position. *)
Lemma updateSetWithElem_first (s1 s2 : list Atom) (e : Atom) :
  e ∉ s1 →
  updateSetWithElem (s1 ++ e :: s2) e =
  s1 ++ match last s2 with
        | Some z => z :: take (length s2 - 1) s2
        | None => []
        end.
Proof.
  intros He. unfold updateSetWithElem.
  assert (Hf : list_find (λ x, x = e) (s1 ++ e :: s2) = Some (length s1, e)).
  { apply list_find_Some. split; [apply list_lookup_middle; done|]. split; [done|].
    intros j y Hj Hlt ->. rewrite lookup_app_l in Hj by done.
    apply He. eapply list_elem_of_lookup_2. exact Hj. }
  rewrite Hf. rewrite last_app. simpl.
  rewrite length_app. simpl.
  replace (length s1 + S (length s2) - 1) with (length s1 + length s2) by lia.
  destruct s2 as [|y s2'] using rev_ind.
  - simpl. rewrite Nat.add_0_r.
    rewrite insert_app_r_alt, Nat.sub_diag by lia. simpl.
    rewrite take_app_length. by rewrite app_nil_r.
  - clear IHs2'. rewrite last_cons, !last_snoc. simpl.
    rewrite insert_app_r_alt, Nat.sub_diag by lia. simpl.
    rewrite take_app_add' by done. f_equal.
    rewrite length_app. simpl.
    replace (length s2' + 1) with (S (length s2')) by lia. simpl.
    f_equal. by rewrite Nat.sub_0_r.
Qed.

Lemma elem_of_split_first (s : list Atom) (e : Atom) :
  e ∈ s → ∃ s1 s2, s = s1 ++ e :: s2 ∧ e ∉ s1.
Proof.
  induction s as [|a s IH]; intros Hin.
  - by apply elem_of_nil in Hin.
  - destruct (decide (a = e)) as [->|Hne].
    + exists [], s. split; [done|]. apply not_elem_of_nil.
    + apply elem_of_cons in Hin as [->|Hin]; [done|].
      destruct (IH Hin) as (s1 & s2 & -> & Hn).
      exists (a :: s1), s2. split; [done|].
      rewrite elem_of_cons. intros [->|?]; done.
Qed.

(** Removing [e]: up to the order of the elements, the list without the
    first occurrence of [e]. *)
Lemma updateSetWithElem_present (s : list Atom) (e : Atom) :
  e ∈ s →
  ∃ s1 s2, s = s1 ++ e :: s2 ∧ (e ∉ s1) ∧ (updateSetWithElem s e ≡ₚ s1 ++ s2).
Proof.
  intros (s1 & s2 & -> & Hn)%elem_of_split_first.
  exists s1, s2. split; [done|]. split; [done|].
  rewrite updateSetWithElem_first by done.
  apply Permutation_app_head.
  destruct s2 as [|y s2'] using rev_ind; [done|].
  rewrite last_snoc, length_app. simpl.
  replace (length s2' + 1 - 1) with (length s2') by lia.
  rewrite take_app_length. by rewrite Permutation_cons_append.
Qed.

Lemma updateSetWithElem_NoDup (s : list Atom) (e : Atom) :
  NoDup s →
  NoDup (updateSetWithElem s e) ∧
  ∀ x, x ∈ updateSetWithElem s e ↔ (x ∈ s ∧ x ≠ e) ∨ (x = e ∧ e ∉ s).
Proof.
  intros Hnd. destruct (decide (e ∈ s)) as [Hin|Hout].
  - destruct (updateSetWithElem_present s e Hin) as (s1 & s2 & -> & Hn1 & Hp).
    apply NoDup_app in Hnd as (Hnd1 & Hdisj & Hnd2).
    apply NoDup_cons in Hnd2 as [Hn2 Hnd2].
    split.
    + rewrite Hp. apply NoDup_app. split; [done|]. split; [|done].
      intros x Hx1 Hx2. apply (Hdisj x Hx1). by right.
    + intros x. rewrite Hp. rewrite !elem_of_app, elem_of_cons.
      split.
      * intros [Hx|Hx]; left; (split; [tauto|]); intros ->; done.
      * intros [[[Hx|[->|Hx]] Hne]|[-> Hne]]; try tauto.
        exfalso. apply Hne. right. apply elem_of_cons. by left.
  - rewrite updateSetWithElem_absent by done. split.
    + apply NoDup_app. split; [done|]. split; [|apply NoDup_singleton].
      intros x Hx ->%list_elem_of_singleton. done.
    + intros x. rewrite elem_of_app, list_elem_of_singleton.
      split; [intros [Hx| ->]|intros [[Hx Hne]|[-> _]]]; try tauto.
      left. split; [done|]. intros ->. done.
Qed.

(** Toggling a duplicate-free list of incoming elements: what remains is
    the symmetric difference. *)
Lemma foldl_updateSetWithElem_NoDup (inc s : list Atom) :
  NoDup s → NoDup inc →
  NoDup (foldl updateSetWithElem s inc) ∧
  ∀ x, x ∈ foldl updateSetWithElem s inc ↔ (x ∈ s ∧ (x ∉ inc)) ∨ ((x ∉ s) ∧ x ∈ inc).
Proof.
  revert s. induction inc as [|e inc IH]; intros s Hs Hinc; simpl.
  - split; [done|]. intros x. rewrite elem_of_nil. tauto.
  - apply NoDup_cons in Hinc as [He Hinc].
    destruct (updateSetWithElem_NoDup s e Hs) as [Hnd Hmem].
    destruct (IH _ Hnd Hinc) as [Hnd' Hmem']. split; [done|].
    intros x. rewrite Hmem', Hmem, elem_of_cons.
    destruct (decide (x = e)) as [Heq|Hne];
      destruct (decide (x ∈ s)); destruct (decide (x ∈ inc)); try tauto.
    all: subst; tauto.
Qed.

Lemma collapse_cases (nv : list Atom) :
  (length nv = 1 → ∃ x, nv = [x] ∧ collapse nv = VAtom x) ∧
  (length nv ≠ 1 → collapse nv = VSet nv).
Proof.
  split.
  - destruct nv as [|x [|y nv]]; simpl; intros Hl; try lia. by exists x.
  - destruct nv as [|x [|y nv]]; simpl; intros Hl; try done.
Qed.

Lemma applyColumn_set_replace (schema : DatabaseSchema) (table column : string)
    (cs : ColumnSchema) (fields : gmap string Value) (value : Value) :
  tableColumns schema table !! column = Some cs →
  Type_ cs = "set" →
  Max cs = 1%Z →
  applyColumn (Some schema) table column value (Some (mkRow (Some fields)))
  = setField (mkRow (Some fields)) column value.
Proof.
  intros Hcs Hty Hmax. unfold applyColumn. simpl.
  rewrite Hcs. unfold isType. rewrite Hty. simpl.
  by rewrite bool_decide_eq_true_2.
Qed.

Lemma applyColumn_set_toggle (schema : DatabaseSchema) (table column : string)
    (cs : ColumnSchema) (fields : gmap string Value) (cur value : Value)
    (orig inc : list Atom) :
  tableColumns schema table !! column = Some cs →
  Type_ cs = "set" →
  Max cs ≠ 1%Z →
  fields !! column = Some cur →
  setElems cur = Some orig →
  setElems value = Some inc →
  applyColumn (Some schema) table column value (Some (mkRow (Some fields)))
  = setField (mkRow (Some fields)) column (collapse (foldl updateSetWithElem orig inc)).
Proof.
  intros Hcs Hty Hmax Hf Horig Hinc. unfold applyColumn. simpl.
  rewrite Hcs. unfold isType. rewrite Hty. simpl.
  rewrite bool_decide_eq_false_2 by done.
  unfold fieldOrNil, field. simpl. rewrite Hf. simpl. unfold modifySet.
  destruct cur as [|a|l|?]; simplify_eq/=;
    destruct value as [|a'|l'|?]; simplify_eq/=; reflexivity.
Qed.

(** C4.  For a cached row with a set column, a modify-diff replaces the
    column outright when the schema maximum is 1.  When the maximum is
    greater than 1, every incoming element is toggled against the cached
    elements, one after the other (an element that is present is removed,
    one that is absent is appended), and the result is stored as a bare
    element when exactly one element remains and as a set otherwise; for
    duplicate-free cached and incoming elements what remains is their
    symmetric difference.  The diff may carry other columns; a diff of the
    set column alone always applies. *)
Theorem applyUpdatesToRow_set (schema : DatabaseSchema) (table uuid column : string)
    (cs : ColumnSchema) (cache : gmap string (gmap string Row))
    (t : gmap string Row) (fields d : gmap string Value) (cur value : Value) :
  tableColumns schema table !! column = Some cs →
  Type_ cs = "set" →
  cache !! table = Some t →
  t !! uuid = Some (mkRow (Some fields)) →
  fields !! column = Some cur →
  d !! column = Some value →
  (Max cs = 1%Z →
     (∀ cache1,
        applyUpdatesToRow (Some schema) table uuid (mkRow (Some d)) cache = Some cache1 →
        field (cacheRow cache1 table uuid) column = Some value) ∧
     ∃ cache1,
       applyUpdatesToRow (Some schema) table uuid (columnDiff column value) cache
         = Some cache1) ∧
  ((1 < Max cs)%Z →
     ∀ orig inc, setElems cur = Some orig → setElems value = Some inc →
     ∃ nv,
       nv = foldl updateSetWithElem orig inc ∧
       (∀ cache1,
          applyUpdatesToRow (Some schema) table uuid (mkRow (Some d)) cache = Some cache1 →
          field (cacheRow cache1 table uuid) column = Some (collapse nv)) ∧
       (∃ cache1,
          applyUpdatesToRow (Some schema) table uuid (columnDiff column value) cache
            = Some cache1) ∧
       (length nv = 1 → ∃ x, nv = [x] ∧ collapse nv = VAtom x) ∧
       (length nv ≠ 1 → collapse nv = VSet nv) ∧
       (NoDup orig → NoDup inc →
          NoDup nv ∧
          ∀ x, x ∈ nv ↔ (x ∈ orig ∧ (x ∉ inc)) ∨ ((x ∉ orig) ∧ x ∈ inc))) ∧
  (∀ s e,
     (e ∉ s → updateSetWithElem s e = s ++ [e]) ∧
     (e ∈ s → ∃ s1 s2, s = s1 ++ e :: s2 ∧ (e ∉ s1) ∧
                       (updateSetWithElem s e ≡ₚ s1 ++ s2))).
Proof.
  intros Hcs Hty Ht Hu Hf Hd.
  assert (Hread : ∀ new cache1,
    applyColumn (Some schema) table column value (Some (mkRow (Some fields)))
      = setField (mkRow (Some fields)) column new →
    applyUpdatesToRow (Some schema) table uuid (mkRow (Some d)) cache = Some cache1 →
    field (cacheRow cache1 table uuid) column = Some new).
  { intros new cache1 Hcol Happ.
    destruct (applyUpdatesToRow_field schema table uuid column cache cache1 t fields d
                value new Ht Hu Hd Hcol Happ) as (fields1 & -> & Hf1).
    rewrite cacheRow_stored. unfold field. simpl. exact Hf1. }
  split; [|split].
  - intros Hmax.
    pose proof (applyColumn_set_replace schema table column cs fields value Hcs Hty Hmax)
      as Hcol.
    split; [intros cache1; by apply Hread|].
    by eapply applyUpdatesToRow_column.
  - intros Hmax orig inc Horig Hinc.
    assert (Hcol := applyColumn_set_toggle schema table column cs fields cur value
                      orig inc Hcs Hty ltac:(lia) Hf Horig Hinc).
    exists (foldl updateSetWithElem orig inc). split; [done|].
    split; [intros cache1; by apply Hread|].
    split; [by eapply applyUpdatesToRow_column|].
    split; [apply collapse_cases|]. split; [apply collapse_cases|].
    intros. by apply foldl_updateSetWithElem_NoDup.
  - intros s e. split.
    + apply updateSetWithElem_absent.
    + apply updateSetWithElem_present.
Qed.

(** ** Row lookup *)

Lemma iface_eq_comparable (x y : Value) :
  comparable y → iface_eq x y = Some (bool_decide (x = y)).
Proof.
  destruct y as [|b|?|?]; simpl; intros Hc; try done.
  - destruct x; simpl; try done.
  - destruct x as [|a|?|?]; simpl; try done.
    f_equal. apply bool_decide_ext. split; [by intros ->|by intros [= ->]].
Qed.

Lemma rowIsEqual_comparable (drows : Row) (query : list (string * Value)) :
  Forall (λ e, comparable e.2) query →
  ∃ b, rowIsEqual drows query = Some b ∧
       (b = true ↔ ∀ field_ value, (field_, value) ∈ query →
                     ∀ v, field drows field_ = Some v → v = value).
Proof.
  induction 1 as [|[f value] query Hc _ IH]; simpl.
  - exists true. split; [done|]. split; [|done]. intros _ ? ? []%elem_of_nil.
  - destruct IH as (b & Hb & Hiff). unfold fieldAgrees.
    destruct (field drows f) as [v|] eqn:Hf; simpl.
    + rewrite iface_eq_comparable by done. simpl. case_bool_decide as Hv.
      * exists b. split; [done|]. rewrite Hiff. split.
        -- intros Hall f' value' [[= -> ->]|Hin]%elem_of_cons v' Hf'.
           ++ congruence.
           ++ by eapply Hall.
        -- intros Hall f' value' Hin. apply Hall. by right.
      * exists false. split; [done|]. split; [done|].
        intros Hall. exfalso. apply Hv. eapply Hall; [by left|done].
    + exists b. split; [done|]. rewrite Hiff. split.
      * intros Hall f' value' [[= -> ->]|Hin]%elem_of_cons v' Hf'.
        -- congruence.
        -- by eapply Hall.
      * intros Hall f' value' Hin. apply Hall. by right.
Qed.

Lemma collectRow_wildcard (query : list (string * Value))
    (rows : list (string * Row)) (acc : list string) :
  foldl (collectRow true query) (Some acc) rows = Some (acc ++ rows.*1).
Proof.
  revert acc. induction rows as [|e rows IH]; intros acc; simpl.
  - by rewrite app_nil_r.
  - rewrite IH. by rewrite <-app_assoc.
Qed.

Lemma collectRow_query (query : list (string * Value))
    (rows : list (string * Row)) (acc : list string) :
  Forall (λ e, comparable e.2) query →
  foldl (collectRow false query) (Some acc) rows =
  Some (acc ++ (filter (λ e, rowIsEqual e.2 query = Some true) rows).*1).
Proof.
  intros Hc. revert acc. induction rows as [|e rows IH]; intros acc; simpl.
  - by rewrite app_nil_r.
  - destruct (rowIsEqual_comparable e.2 query Hc) as (b & Hb & _).
    rewrite Hb. simpl. rewrite filter_cons. destruct b.
    + rewrite decide_True by done. rewrite IH. simpl. by rewrite <-app_assoc.
    + rewrite decide_False by (rewrite Hb; done). apply IH.
Qed.

(** C10.  For a table that is in the cache, the empty query row returns
    the identifiers of all its rows; for any query row (of values that Go
    can compare) a cached row is returned exactly when every queried field
    that the cached row has equals the queried value.  A queried field that
    the cached row lacks never disqualifies it: a row that has none of the
    queried fields is returned. *)
Theorem getRowUUIDs_matches (cache : gmap string (gmap string Row))
    (table : string) (cacheTable : gmap string Row) :
  cache !! table = Some cacheTable →
  (∃ uuids, getRowUUIDs cache table ∅ = Some uuids ∧ NoDup uuids ∧
            ∀ uuid, uuid ∈ uuids ↔ is_Some (cacheTable !! uuid)) ∧
  (∀ row, (∀ field_ value, row !! field_ = Some value → comparable value) →
     ∃ uuids, getRowUUIDs cache table row = Some uuids ∧ NoDup uuids ∧
       (∀ uuid, uuid ∈ uuids ↔
                ∃ drows, cacheTable !! uuid = Some drows ∧ rowMatches row drows) ∧
       (∀ uuid drows, cacheTable !! uuid = Some drows →
          (∀ field_, is_Some (row !! field_) → field drows field_ = None) →
          uuid ∈ uuids)).
Proof.
  intros Ht.
  assert (Hwild : ∃ uuids, getRowUUIDs cache table ∅ = Some uuids ∧ NoDup uuids ∧
            ∀ uuid, uuid ∈ uuids ↔ is_Some (cacheTable !! uuid)).
  { unfold getRowUUIDs. rewrite Ht. rewrite bool_decide_eq_true_2 by done.
    rewrite collectRow_wildcard. simpl. eexists. split; [done|].
    split; [apply NoDup_fst_map_to_list|].
    intros uuid. rewrite list_elem_of_fmap. split.
    - intros ([u r] & -> & Hin%elem_of_map_to_list). by exists r.
    - intros [r Hr]. exists (uuid, r). split; [done|]. by apply elem_of_map_to_list. }
  split; [exact Hwild|].
  intros row Hc.
  assert (Hmain : ∃ uuids, getRowUUIDs cache table row = Some uuids ∧ NoDup uuids ∧
       (∀ uuid, uuid ∈ uuids ↔
                ∃ drows, cacheTable !! uuid = Some drows ∧ rowMatches row drows)).
  { destruct (decide (row = ∅)) as [->|Hne].
    - destruct Hwild as (uuids & Hg & Hnd & Hmem). exists uuids.
      split; [done|]. split; [done|]. intros uuid. rewrite Hmem. split.
      + intros [r Hr]. exists r. split; [done|].
        intros f value Hf. by rewrite lookup_empty in Hf.
      + intros (r & Hr & _). by exists r.
    - unfold getRowUUIDs. rewrite Ht. rewrite bool_decide_eq_false_2 by done.
      assert (Hq : Forall (λ e : string * Value, comparable e.2) (map_to_list row)).
      { apply Forall_forall. intros [f v] Hin%elem_of_map_to_list. simpl. by eapply Hc. }
      rewrite collectRow_query by done. simpl. eexists. split; [done|].
      split.
      { apply NoDup_fmap_fst.
        - intros u r1 r2 [_ H1%elem_of_map_to_list]%list_elem_of_filter
            [_ H2%elem_of_map_to_list]%list_elem_of_filter. congruence.
        - apply NoDup_filter, NoDup_map_to_list. }
      intros uuid. rewrite list_elem_of_fmap. split.
      + intros ([u r] & -> & [Hm Hin%elem_of_map_to_list]%list_elem_of_filter).
        simpl in *. exists r. split; [done|].
        destruct (rowIsEqual_comparable r (map_to_list row) Hq) as (b & Hb & Hiff).
        rewrite Hb in Hm. injection Hm as ->.
        intros f value Hf v Hv. eapply (proj1 Hiff eq_refl); [|done].
        by apply elem_of_map_to_list.
      + intros (r & Hr & Hm). exists (uuid, r). split; [done|].
        apply list_elem_of_filter. split; [|by apply elem_of_map_to_list]. simpl.
        destruct (rowIsEqual_comparable r (map_to_list row) Hq) as (b & Hb & Hiff).
        rewrite Hb. f_equal. apply Hiff.
        intros f value Hin%elem_of_map_to_list v Hv. by eapply Hm. }
  destruct Hmain as (uuids & Hg & Hnd & Hmem). exists uuids.
  split; [done|]. split; [done|]. split; [done|].
  intros uuid drows Hr Hnone. apply Hmem. exists drows. split; [done|].
  intros f value Hf v Hv. rewrite Hnone in Hv by eauto. done.
Qed.

(** ** Transactions *)

Lemma firstError_None (i : nat) (ops : list Operation) (reply : list OperationResult) :
  (∀ o, o ∈ reply → Error o = "") → firstError i ops reply = None.
Proof.
  revert i. induction reply as [|o reply IH]; intros i Hall; simpl; [done|].
  rewrite bool_decide_eq_false_2.
  - apply IH. intros o' Ho'. apply Hall. by right.
  - intros Hne. apply Hne, Hall. by left.
Qed.

(** The failing entry is the first one with an error; the text names the
    operation at its position, or the commit when there is none. *)
Lemma firstError_Some (i : nat) (ops : list Operation) (reply : list OperationResult) :
  (∃ o, o ∈ reply ∧ Error o ≠ "") →
  ∃ j o, reply !! j = Some o ∧ Error o ≠ "" ∧
         (∀ j' o', j' < j → reply !! j' = Some o' → Error o' = "") ∧
         firstError i ops reply =
           Some (ErrTransactionFailed (Error o) (Details o)
                   (match ops !! (i + j) with
                    | Some op => OpsInfoOp op
                    | None => commitTransactionText
                    end)).
Proof.
  revert i. induction reply as [|o reply IH]; intros i (o' & Hin & Hne).
  - by apply elem_of_nil in Hin.
  - simpl. case_bool_decide as Ho.
    + exists 0, o. rewrite Nat.add_0_r. split; [done|]. split; [done|].
      split; [|done]. intros; lia.
    + assert (Hex : ∃ o, o ∈ reply ∧ Error o ≠ "").
      { exists o'. split; [|done]. apply elem_of_cons in Hin as [->|Hin]; [|done].
        exfalso. by apply Hne. }
      destruct (IH (S i) Hex) as (j & o'' & Hj & Hne' & Hbefore & Hfe).
      exists (S j), o''. split; [done|]. split; [done|]. split.
      * intros [|j'] o3 Hlt Hl; simpl in Hl.
        -- injection Hl as <-. exact Ho.
        -- eapply Hbefore; [|done]. lia.
      * rewrite Hfe. by replace (S i + j) with (i + S j) by lia.
Qed.

(** C5.  When the reply of the server carries a non-empty error string in
    any of its entries, [transact] returns a nil result and an error, and
    the connection has been closed when it returns, wherever the failing
    entry is; when no entry carries an error and there are at least as many
    entries as operations, it returns the reply and no error, and the
    client object, with its connection, is as before. *)
Theorem transact_operation_error (odbi : ovndb) (db_ : string)
    (ops : list Operation) (cl : OvsdbClient) (reply : list OperationResult) :
  client odbi = Some cl →
  Transact cl db_ ops = (reply, None) →
  ((∃ o, o ∈ reply ∧ Error o ≠ "") →
     ∃ e odbi',
       transact odbi db_ ops = Some (None, Some e, odbi') ∧
       odbi' = set_client (Some (Disconnect cl)) odbi ∧
       (∃ cl', client odbi' = Some cl' ∧ connected cl' = false) ∧
       ∃ j o, reply !! j = Some o ∧ Error o ≠ "" ∧
              e = ErrTransactionFailed (Error o) (Details o)
                    (match ops !! j with
                     | Some op => OpsInfoOp op
                     | None => commitTransactionText
                     end)) ∧
  ((∀ o, o ∈ reply → Error o = "") → (length ops ≤ length reply)%nat →
     transact odbi db_ ops = Some (Some reply, None, odbi)).
Proof.
  intros Hcl Hrpc. unfold transact, getClient. rewrite Hcl, Hrpc. split.
  - intros Hex.
    destruct (firstError_Some 0 ops reply Hex) as (j & o & Hj & Hne & _ & Hfe).
    rewrite Hfe. unfold close. rewrite Hcl. simpl.
    eexists _, _. split; [reflexivity|]. split; [reflexivity|].
    split; [by eexists|]. by exists j, o.
  - intros Hall Hlen. rewrite firstError_None by done.
    rewrite bool_decide_eq_false_2 by lia. done.
Qed.

(** C6.  When the reply carries no error, [transact] returns the
    too-few-replies error exactly when there are fewer entries than
    operations; that error is not the one of a failed operation and the
    client object, with its connection, is as before. *)
Theorem transact_few_replies (odbi : ovndb) (db_ : string)
    (ops : list Operation) (cl : OvsdbClient) (reply : list OperationResult) :
  client odbi = Some cl →
  Transact cl db_ ops = (reply, None) →
  (∀ o, o ∈ reply → Error o = "") →
  ((length reply < length ops)%nat →
     transact odbi db_ ops = Some (Some reply, Some ErrFewReplies, odbi) ∧
     (∀ a b i, ErrFewReplies ≠ ErrTransactionFailed a b i) ∧
     ∃ cl', client odbi = Some cl' ∧ connected cl' = connected cl) ∧
  ((length ops ≤ length reply)%nat →
     transact odbi db_ ops = Some (Some reply, None, odbi)).
Proof.
  intros Hcl Hrpc Hall. unfold transact, getClient. rewrite Hcl, Hrpc.
  rewrite firstError_None by done. split.
  - intros Hlt. rewrite bool_decide_eq_true_2 by done.
    split; [done|]. split; [done|]. by exists cl.
  - intros Hle. by rewrite bool_decide_eq_false_2 by lia.
Qed.

Section ClientProperties.
Context `{Names}.

(** ** What connecting leaves alone *)

Lemma sameEndpoints_refl (c : ovndb) : sameEndpoints c c.
Proof. by unfold sameEndpoints. Qed.

Lemma sameEndpoints_trans (c1 c2 c3 : ovndb) :
  sameEndpoints c1 c2 → sameEndpoints c2 c3 → sameEndpoints c1 c3.
Proof. unfold sameEndpoints. intros (?&?&?&?&?) (?&?&?&?&?). repeat split; congruence. Qed.

Lemma ctxSetCache_same (ctx : context) (v : gmap string (gmap string Row)) (c : ovndb) :
  sameEndpoints c (ctxSetCache ctx v c).
Proof. unfold ctxSetCache. by destruct (ctxServer ctx). Qed.

Lemma ensureTable_same (ctx : context) (table : string) (c : ovndb) :
  sameEndpoints c (ensureTable ctx table c).
Proof.
  unfold ensureTable. destruct (ctxCache ctx c !! table);
    [apply sameEndpoints_refl|apply ctxSetCache_same].
Qed.

Lemma populateCache2Row_quiet (ctx : context) (dbName table uuid : string)
    (row : RowUpdate2) (c0 : ovndb) (acc : option (ovndb * list (ovndb → ovndb))) :
  quiet c0 acc → quiet c0 (populateCache2Row ctx dbName false table uuid row acc).
Proof.
  destruct acc as [[c deferred]|]; [|done]. intros [Hc Hd].
  assert (Hset : ∀ v, sameEndpoints c0 (ctxSetCache ctx v c)).
  { intros v. eapply sameEndpoints_trans; [exact Hc|apply ctxSetCache_same]. }
  unfold populateCache2Row, callHook, storeRow. simpl.
  destruct (isSet (Initial row)).
  { case_bool_decide; [done|].
    destruct (getSchema c dbName) as [schema|]; [simpl|done].
    destruct (initMissingColumnsWithDefaults _ _ _); [simpl|done]. by split. }
  destruct (isSet (Insert row)).
  { destruct (getSchema c dbName) as [schema|]; [simpl|done].
    destruct (initMissingColumnsWithDefaults _ _ _); [simpl|done]. by split. }
  destruct (isSet (Modify row)).
  { destruct (applyUpdatesToRow _ _ _ _ _); [simpl|done]. by split. }
  destruct (isSet (Delete row)); [|done].
  split; [done|]. constructor; [|done]. intros x. apply ctxSetCache_same.
Qed.

Lemma populateCache2_same (odbi : ovndb) (dbName : string)
    (updates : gmap string (gmap string RowUpdate2)) (c' : ovndb) :
  populateCache2 odbi dbName updates false = Some c' → sameEndpoints odbi c'.
Proof.
  unfold populateCache2. intros Hp.
  set (ctx := getContext odbi dbName) in *.
  assert (Hq : quiet odbi
    (map_fold (populateCache2Table ctx dbName false updates) (Some (odbi, []))
       (ctxTableCols ctx odbi))).
  { apply map_fold_preserve.
    - split; [apply sameEndpoints_refl|constructor].
    - intros table cols acc _ Hacc. unfold populateCache2Table.
      destruct acc as [[c deferred]|]; [|done]. simpl.
      destruct (updates !! table) as [tableUpdate|]; [|done].
      apply map_fold_preserve.
      + destruct Hacc as [Hc Hd]. split; [|done].
        eapply sameEndpoints_trans; [exact Hc|apply ensureTable_same].
      + intros uuid row r _ Hr. by apply populateCache2Row_quiet. }
  destruct (map_fold _ _ _) as [[c deferred]|]; simplify_eq/=.
  destruct Hq as [Hc Hd]. clear -Hc Hd.
  revert c Hc. induction Hd as [|f deferred Hf _ IH]; intros c Hc; simpl; [done|].
  apply IH. eapply sameEndpoints_trans; [exact Hc|apply Hf].
Qed.

Lemma monitorTables_same (c c1 : ovndb) (dbName : string)
    (r : gmap string (gmap string RowUpdate2) + error) :
  monitorTables c dbName = Some (r, c1) → sameEndpoints c c1.
Proof.
  unfold monitorTables. intros Hm.
  destruct (client c) as [cl|]; simplify_eq/=.
  repeat case_match; simplify_eq/=; by unfold sameEndpoints.
Qed.

Lemma monitorAll_same (dbs : list string) (c c' : ovndb) (err : option error) :
  monitorAll dbs c = Some (err, c') → sameEndpoints c c'.
Proof.
  revert c. induction dbs as [|dbName dbs IH]; intros c Hm; simpl in Hm.
  - simplify_eq. apply sameEndpoints_refl.
  - destruct (monitorTables c dbName) as [[r c1]|] eqn:Hmt; simplify_eq/=.
    apply monitorTables_same in Hmt.
    destruct r as [initial|e]; simplify_eq/=; [|done].
    destruct (populateCache2 c1 dbName initial false) as [c2|] eqn:Hp; simplify_eq/=.
    apply populateCache2_same in Hp. apply IH in Hm.
    eauto using sameEndpoints_trans.
Qed.

Lemma connectEndpointDump_same (c c' : ovndb) (err : option error) :
  connectEndpointDump c = Some (err, c') → sameEndpoints c c'.
Proof.
  unfold connectEndpointDump. destruct (client c) as [cl|]; [|done].
  cbn -[monitorAll]. intros Hm%monitorAll_same.
  eapply sameEndpoints_trans; [|exact Hm]. case_bool_decide; by unfold sameEndpoints.
Qed.

Lemma connectEndpoint_same (c c' : ovndb) (err : option error) :
  connectEndpoint c = Some (err, c') → sameEndpoints c c'.
Proof.
  unfold connectEndpoint.
  destruct (connectEndpointDump c) as [[e c1]|] eqn:Hd; [|done].
  apply connectEndpointDump_same in Hd. simpl.
  destruct e; [by intros [= <- <-]|].
  destruct (leaderOnly c1 && negb (serverIsLeader c1)); by intros [= <- <-].
Qed.


(** ** The endpoint cursor *)

Lemma mod_wrap (a n : nat) : n ≤ a < 2 * n → a mod n = a - n.
Proof.
  intros Ha. replace a with ((a - n) + 1 * n) at 1 by lia.
  rewrite Nat.Div0.mod_add. apply Nat.mod_small. lia.
Qed.

Lemma fromCursor_lookup (l : list string) (cur j : nat) :
  cur < length l → j < length l →
  fromCursor cur l !! j = l !! ((cur + j) mod length l).
Proof.
  intros Hcur Hj. unfold fromCursor.
  destruct (decide (cur + j < length l)) as [Hlt|Hge].
  - rewrite lookup_app_l by (rewrite length_drop; lia).
    rewrite lookup_drop. by rewrite Nat.mod_small.
  - rewrite lookup_app_r by (rewrite length_drop; lia).
    rewrite length_drop, mod_wrap by lia.
    rewrite lookup_take_lt by lia. f_equal. lia.
Qed.

Lemma fromCursor_prefix (l new : list string) (cur : nat) :
  cur < length l → length new ≤ length l →
  (∀ j, j < length new → new !! j = l !! ((cur + j) mod length l)) →
  new = take (length new) (fromCursor cur l).
Proof.
  intros Hcur Hlen Hnew. apply list_eq. intros j.
  destruct (decide (j < length new)) as [Hj|Hj].
  - rewrite lookup_take_lt by done. rewrite fromCursor_lookup by lia. by apply Hnew.
  - rewrite lookup_ge_None_2 by lia. symmetry. apply lookup_ge_None_2.
    rewrite length_take. lia.
Qed.

Lemma fromCursor_Permutation (l : list string) (cur : nat) : fromCursor cur l ≡ₚ l.
Proof. unfold fromCursor. rewrite Permutation_app_comm. by rewrite take_drop. Qed.

Lemma connectAttempt_inr (Connect : string → option OvsdbClient) (c c' : ovndb) :
  connectAttempt Connect c = Some (inr c') →
  endpoints c' = endpoints c ∧ db c' = db c ∧
  curEndpoint c' = (curEndpoint c + 1) mod length (endpoints c) ∧
  client c' = None ∧
  ∃ addr, endpoints c !! curEndpoint c = Some addr ∧ dialed c' = dialed c ++ [addr].
Proof.
  unfold connectAttempt. destruct (endpoints c !! curEndpoint c) as [addr|] eqn:Ha; [|done].
  cbn -[connectEndpoint]. intros Hc.
  assert (Hne : endpoints c ≠ []) by (intros Hnil; by rewrite Hnil in Ha).
  destruct (Connect addr) as [cl|].
  - destruct (connectEndpoint _) as [[err c1]|] eqn:Hce; [|done].
    apply connectEndpoint_same in Hce. destruct Hce as (He & Hcur & Hd & Hdb & _).
    simpl in *. destruct err; [|done]. injection Hc as <-.
    unfold dropClient, nextEndpoint. rewrite He.
    destruct (endpoints c) eqn:Hl; [done|]. rewrite <-Hl. simpl.
    destruct (client c1) eqn:Hcl; simpl; rewrite ?He, ?Hdb, ?Hcur, ?Hd;
      (repeat split; try done; by exists addr).
  - simpl in Hc. injection Hc as <-. unfold dropClient, nextEndpoint. simpl.
    destruct (endpoints c) eqn:Hl; [done|]. simpl. rewrite <-Hl.
    repeat split; try done. by exists addr.
Qed.

Lemma connectAttempt_inl (Connect : string → option OvsdbClient) (c c' : ovndb) :
  connectAttempt Connect c = Some (inl c') →
  endpoints c' = endpoints c ∧ db c' = db c ∧ curEndpoint c' = curEndpoint c ∧
  ∃ addr, endpoints c !! curEndpoint c = Some addr ∧ dialed c' = dialed c ++ [addr].
Proof.
  unfold connectAttempt. destruct (endpoints c !! curEndpoint c) as [addr|] eqn:Ha; [|done].
  cbn -[connectEndpoint]. intros Hc.
  destruct (Connect addr) as [cl|]; [|done].
  destruct (connectEndpoint _) as [[err c1]|] eqn:Hce; [|done].
  apply connectEndpoint_same in Hce. destruct Hce as (He & Hcur & Hd & Hdb & _).
  simpl in *. destruct err; [done|]. injection Hc as <-.
  repeat split; try done. by exists addr.
Qed.

(** [rounds] failed attempts in a row: the addresses are dialed in cursor
    order and the cursor has advanced [rounds] times. *)
Lemma connectLoop_fails (Connect : string → option OvsdbClient) (I : ovndb → Prop)
    (rounds : nat) (c : ovndb) :
  I c →
  curEndpoint c < length (endpoints c) →
  (∀ j, j < rounds →
     ∃ addr, endpoints c !! ((curEndpoint c + j) mod length (endpoints c)) = Some addr ∧
             attemptFails Connect I addr) →
  ∃ c' new,
    connectLoop Connect rounds c = Some (Some (ErrConnectAll (db c) (endpoints c)), c') ∧
    endpoints c' = endpoints c ∧
    curEndpoint c' = (curEndpoint c + rounds) mod length (endpoints c) ∧
    dialed c' = dialed c ++ new ∧ length new = rounds ∧
    ∀ j, j < rounds →
      new !! j = endpoints c !! ((curEndpoint c + j) mod length (endpoints c)).
Proof.
  revert c. induction rounds as [|rounds IH]; intros c HI Hcur Hfail.
  - exists c, []. simpl. rewrite Nat.add_0_r, Nat.mod_small by done.
    rewrite app_nil_r. repeat split; try done. intros; lia.
  - destruct (Hfail 0) as (addr & Ha & Hf); [lia|].
    rewrite Nat.add_0_r, Nat.mod_small in Ha by done.
    destruct (Hf c HI Ha) as (c1 & Hc1 & HI1). simpl. rewrite Hc1. simpl.
    destruct (connectAttempt_inr _ _ _ Hc1) as (He & Hdb & Hcur1 & _ & addr' & Ha' & Hd).
    assert (addr' = addr) as -> by congruence.
    assert (Hstep : ∀ j, (curEndpoint c1 + j) mod length (endpoints c)
                         = (curEndpoint c + S j) mod length (endpoints c)).
    { intros j. rewrite Hcur1, Nat.Div0.add_mod_idemp_l. f_equal. lia. }
    destruct (IH c1) as (c' & new & Hloop & He' & Hcur' & Hd' & Hlen & Hnew).
    { done. }
    { rewrite He, Hcur1. apply Nat.mod_upper_bound. lia. }
    { intros j Hj. rewrite He, Hstep. apply Hfail. lia. }
    exists c', (addr :: new). rewrite Hloop, Hdb, He.
    split; [done|]. split; [congruence|]. split; [by rewrite Hcur', He, Hstep|].
    split; [by rewrite Hd', Hd, <-app_assoc|]. split; [simpl; lia|].
    intros [|j] Hj; simpl.
    + by rewrite Nat.add_0_r, Nat.mod_small.
    + rewrite Hnew, He, Hstep by lia. done.
Qed.

(** [k] failed attempts followed by a successful one. *)
Lemma connectLoop_succeeds (Connect : string → option OvsdbClient) (I : ovndb → Prop)
    (rounds k : nat) (c : ovndb) :
  I c →
  curEndpoint c < length (endpoints c) →
  k < rounds →
  (∀ j, j < k →
     ∃ addr, endpoints c !! ((curEndpoint c + j) mod length (endpoints c)) = Some addr ∧
             attemptFails Connect I addr) →
  (∃ addr, endpoints c !! ((curEndpoint c + k) mod length (endpoints c)) = Some addr ∧
           attemptSucceeds Connect I addr) →
  ∃ c' new,
    connectLoop Connect rounds c = Some (None, c') ∧
    endpoints c' = endpoints c ∧
    curEndpoint c' = (curEndpoint c + k) mod length (endpoints c) ∧
    dialed c' = dialed c ++ new ∧ length new = S k ∧
    ∀ j, j < S k →
      new !! j = endpoints c !! ((curEndpoint c + j) mod length (endpoints c)).
Proof.
  revert rounds c. induction k as [|k IH]; intros rounds c HI Hcur Hk Hfail Hok.
  - destruct rounds as [|rounds]; [lia|].
    destruct Hok as (addr & Ha & Hs).
    rewrite Nat.add_0_r, Nat.mod_small in Ha by done.
    destruct (Hs c HI Ha) as [c1 Hc1]. simpl. rewrite Hc1. simpl.
    destruct (connectAttempt_inl _ _ _ Hc1) as (He & Hdb & Hcur1 & addr' & Ha' & Hd).
    assert (addr' = addr) as -> by congruence.
    exists c1, [addr]. rewrite Nat.add_0_r, Nat.mod_small by done.
    repeat split; try done.
    intros [|j] Hj; [|lia]. simpl. by rewrite Nat.add_0_r, Nat.mod_small.
  - destruct rounds as [|rounds]; [lia|].
    destruct (Hfail 0) as (addr & Ha & Hf); [lia|].
    rewrite Nat.add_0_r, Nat.mod_small in Ha by done.
    destruct (Hf c HI Ha) as (c1 & Hc1 & HI1). simpl. rewrite Hc1. simpl.
    destruct (connectAttempt_inr _ _ _ Hc1) as (He & Hdb & Hcur1 & _ & addr' & Ha' & Hd).
    assert (addr' = addr) as -> by congruence.
    assert (Hstep : ∀ j, (curEndpoint c1 + j) mod length (endpoints c)
                         = (curEndpoint c + S j) mod length (endpoints c)).
    { intros j. rewrite Hcur1, Nat.Div0.add_mod_idemp_l. f_equal. lia. }
    destruct (IH rounds c1) as (c' & new & Hloop & He' & Hcur' & Hd' & Hlen & Hnew).
    { done. }
    { rewrite He, Hcur1. apply Nat.mod_upper_bound. lia. }
    { lia. }
    { intros j Hj. rewrite He, Hstep. apply Hfail. lia. }
    { rewrite He, Hstep. exact Hok. }
    exists c', (addr :: new). rewrite Hloop.
    split; [done|]. split; [congruence|]. split; [by rewrite Hcur', He, Hstep|].
    split; [by rewrite Hd', Hd, <-app_assoc|]. split; [simpl; lia|].
    intros [|j] Hj; simpl.
    + by rewrite Nat.add_0_r, Nat.mod_small.
    + rewrite Hnew, He, Hstep by lia. done.
Qed.

(** C7.  [connect] dials the endpoints in cursor order, starting at the
    cursor and wrapping around, and advances the cursor after every failed
    attempt.  When every attempt fails, each endpoint has been dialed
    exactly once, a connection error is returned and the cursor is back
    where it started (with [A; B; C] and the cursor at [A]: at [A]).  When
    the first [k] attempts fail and the next one succeeds, nothing more is
    dialed, no error is returned and the cursor rests at the endpoint that
    succeeded (with [A; B; C], the cursor at [A] and failures at [A] and
    [B]: [C] is dialed and the cursor rests at [C]).  [I] is any property
    of the client object that failed attempts preserve. *)
Theorem connect_failover_order (Connect : string → option OvsdbClient)
    (I : ovndb → Prop) (c : ovndb) :
  I c →
  curEndpoint c < length (endpoints c) →
  ((∀ addr, addr ∈ endpoints c → attemptFails Connect I addr) →
     ∃ c',
       connect Connect c = Some (Some (ErrConnectAll (db c) (endpoints c)), c') ∧
       curEndpoint c' = curEndpoint c ∧
       dialed c' = dialed c ++ fromCursor (curEndpoint c) (endpoints c) ∧
       fromCursor (curEndpoint c) (endpoints c) ≡ₚ endpoints c) ∧
  (∀ k, k < length (endpoints c) →
     (∀ j, j < k →
        ∃ addr, endpoints c !! ((curEndpoint c + j) mod length (endpoints c)) = Some addr ∧
                attemptFails Connect I addr) →
     (∃ addr, endpoints c !! ((curEndpoint c + k) mod length (endpoints c)) = Some addr ∧
              attemptSucceeds Connect I addr) →
     ∃ c',
       connect Connect c = Some (None, c') ∧
       curEndpoint c' = (curEndpoint c + k) mod length (endpoints c) ∧
       dialed c' = dialed c ++ take (S k) (fromCursor (curEndpoint c) (endpoints c))).
Proof.
  intros HI Hcur. split.
  - intros Hall.
    destruct (connectLoop_fails Connect I (length (endpoints c)) c HI Hcur)
      as (c' & new & Hloop & He & Hcur' & Hd & Hlen & Hnew).
    { intros j Hj.
      destruct (lookup_lt_is_Some_2 (endpoints c)
                  ((curEndpoint c + j) mod length (endpoints c))) as [addr Ha].
      { apply Nat.mod_upper_bound. lia. }
      exists addr. split; [done|]. apply Hall. by eapply list_elem_of_lookup_2. }
    exists c'. split; [done|]. split.
    { rewrite Hcur'. replace (curEndpoint c + length (endpoints c))
        with (curEndpoint c + 1 * length (endpoints c)) by lia.
      rewrite Nat.Div0.mod_add. by apply Nat.mod_small. }
    split; [|apply fromCursor_Permutation].
    rewrite Hd. f_equal.
    rewrite (fromCursor_prefix (endpoints c) new (curEndpoint c)); try done; try lia.
    + rewrite Hlen. apply take_ge. unfold fromCursor.
      rewrite length_app, length_drop, length_take. lia.
    + rewrite Hlen. exact Hnew.
  - intros k Hk Hfail Hok.
    destruct (connectLoop_succeeds Connect I (length (endpoints c)) k c HI Hcur Hk Hfail Hok)
      as (c' & new & Hloop & He & Hcur' & Hd & Hlen & Hnew).
    exists c'. split; [done|]. split; [done|].
    rewrite Hd. f_equal. rewrite <-Hlen.
    apply fromCursor_prefix; try done; try lia.
    rewrite Hlen. exact Hnew.
Qed.

(** ** Snapshot updates *)

Lemma cacheRow_insert_ne (cache : gmap string (gmap string Row))
    (t : gmap string Row) (table table' uuid : string) :
  table' ≠ table →
  cacheRow (<[table' := t]> cache) table uuid = cacheRow cache table uuid.
Proof. intros Hne. unfold cacheRow. by rewrite lookup_insert_ne. Qed.

Lemma cacheRow_store_other (cache : gmap string (gmap string Row))
    (table table' uuid uuid' : string) (row : Row) :
  (table', uuid') ≠ (table, uuid) →
  cacheRow (<[table' := <[uuid' := row]> (default ∅ (cache !! table'))]> cache) table uuid
  = cacheRow cache table uuid.
Proof.
  intros Hne. destruct (decide (table' = table)) as [->|Ht].
  - unfold cacheRow. rewrite lookup_insert_eq. simpl.
    rewrite lookup_insert_ne by congruence.
    by destruct (cache !! table).
  - by apply cacheRow_insert_ne.
Qed.

Lemma cacheRow_delete_other (cache : gmap string (gmap string Row))
    (table table' uuid uuid' : string) :
  (table', uuid') ≠ (table, uuid) →
  cacheRow (cacheDelete cache table' uuid') table uuid = cacheRow cache table uuid.
Proof.
  intros Hne. unfold cacheDelete.
  destruct (cache !! table') as [t|] eqn:Ht; [|done].
  destruct (decide (table' = table)) as [->|Hn].
  - unfold cacheRow. rewrite lookup_insert_eq, Ht. simpl.
    by rewrite lookup_delete_ne by congruence.
  - by apply cacheRow_insert_ne.
Qed.

Lemma ctxCache_ctxSetCache (ctx : context) (v : gmap string (gmap string Row)) (c : ovndb) :
  ctxCache ctx (ctxSetCache ctx v c) = v ∧
  signals (ctxSetCache ctx v c) = signals c.
Proof. unfold ctxCache, ctxSetCache. by destruct (ctxServer ctx). Qed.

Lemma entryKept_ensureTable (ctx : context) (table uuid table' : string) (new : Row)
    (odbi c : ovndb) :
  new ≠ emptyRow →
  entryKept ctx table uuid new odbi c →
  entryKept ctx table uuid new odbi (ensureTable ctx table' c).
Proof.
  intros Hne [Hrow Hsig]. unfold ensureTable.
  destruct (ctxCache ctx c !! table') as [t|] eqn:Ht; [done|].
  destruct (ctxCache_ctxSetCache ctx (<[table' := ∅]> (ctxCache ctx c)) c) as [Hc Hs].
  split; [|by rewrite Hs]. rewrite Hc.
  destruct (decide (table' = table)) as [->|Hn].
  - exfalso. apply Hne. rewrite <-Hrow. unfold cacheRow. by rewrite Ht.
  - by rewrite cacheRow_insert_ne.
Qed.

Lemma entryKept_deleteRow (ctx : context) (table uuid table' uuid' : string) (new : Row)
    (odbi c : ovndb) :
  (table', uuid') ≠ (table, uuid) →
  entryKept ctx table uuid new odbi c →
  entryKept ctx table uuid new odbi (deleteRow ctx table' uuid' c).
Proof.
  intros Hne [Hrow Hsig]. unfold deleteRow.
  destruct (ctxCache_ctxSetCache ctx (cacheDelete (ctxCache ctx c) table' uuid') c)
    as [Hc Hs].
  split; [|by rewrite Hs]. rewrite Hc. by rewrite cacheRow_delete_other.
Qed.

Lemma entryKept_storeRow (ctx : context) (table uuid table' uuid' : string)
    (new row : Row) (odbi c : ovndb) :
  (table', uuid') ≠ (table, uuid) →
  entryKept ctx table uuid new odbi c →
  entryKept ctx table uuid new odbi (storeRow ctx table' uuid' row c).
Proof.
  intros Hne [Hrow Hsig]. unfold storeRow.
  match goal with |- entryKept _ _ _ _ _ (ctxSetCache _ ?v _) =>
    destruct (ctxCache_ctxSetCache ctx v c) as [Hc Hs] end.
  split; [|by rewrite Hs]. rewrite Hc. by rewrite cacheRow_store_other.
Qed.

Lemma entryKept_disconnectIfFollower (ctx : context) (table uuid t u : string)
    (new : Row) (odbi c : ovndb) :
  entryKept ctx table uuid new odbi c →
  entryKept ctx table uuid new odbi (disconnectIfFollower t u c).
Proof.
  intros Hk. unfold disconnectIfFollower.
  destruct (_ && _); [|done].
  unfold requestDisconnect, nextEndpoint, entryKept, ctxCache in *.
  destruct (endpoints c); destruct (ctxServer ctx); exact Hk.
Qed.

Lemma entryKept_signal (ctx : context) (table uuid : string) (new : Row)
    (odbi c : ovndb) (s : Signal) :
  s ≠ Created table uuid →
  entryKept ctx table uuid new odbi c →
  entryKept ctx table uuid new odbi (set_signals (signals c ++ [s]) c).
Proof.
  intros Hs [Hrow (extra & Hsig & Hnot)]. split.
  - unfold ctxCache in *. by destruct (ctxServer ctx).
  - exists (extra ++ [s]). simpl. rewrite Hsig, <-app_assoc. split; [done|].
    rewrite elem_of_app, list_elem_of_singleton. intros [?|?]; [done|]. by apply Hs.
Qed.

(** The hooks that [getContext] hands out keep the entry, the create hook
    when it is called for another row. *)
Lemma entryKept_hooks (odbi0 : ovndb) (dbName table uuid t u : string) (new : Row)
    (odbi c : ovndb) (signal : bool) :
  let ctx := getContext odbi0 dbName in
  entryKept ctx table uuid new odbi c →
  ((t, u) ≠ (table, uuid) →
     entryKept ctx table uuid new odbi (callHook signal (ctxCreate ctx) t u c)) ∧
  (∀ f, ctxDelete ctx = Some f → entryKept ctx table uuid new odbi (f t u c)).
Proof.
  intros ctx Hk. subst ctx. unfold getContext in *. unfold callHook.
  case_bool_decide; [|destruct (signalCB odbi0)]; simpl; split.
  - intros _. destruct signal; [|done]. by apply entryKept_disconnectIfFollower.
  - intros f [= <-]. by apply entryKept_disconnectIfFollower.
  - intros Hne. destruct signal; [|done]. apply entryKept_signal; [congruence|done].
  - intros f [= <-]. by apply entryKept_signal.
  - intros _. by destruct signal.
  - done.
Qed.

Lemma populateCacheRow_kept (odbi0 : ovndb) (dbName table uuid t u : string)
    (new : Row) (odbi : ovndb) (signal : bool) (row : RowUpdate)
    (acc : ovndb * list (ovndb → ovndb)) :
  let ctx := getContext odbi0 dbName in
  new ≠ emptyRow →
  ((t, u) = (table, uuid) → float64_to_int (New row) = new) →
  loopKept ctx table uuid new odbi acc →
  loopKept ctx table uuid new odbi (populateCacheRow ctx signal t u row acc).
Proof.
  intros ctx Hne Hsame [Hc Hd]. destruct acc as [c deferred]. simpl in *.
  unfold populateCacheRow.
  destruct (decide ((t, u) = (table, uuid))) as [Heq|Hneq].
  - rewrite (Hsame Heq). injection Heq as -> ->.
    rewrite bool_decide_eq_true_2 by done.
    rewrite bool_decide_eq_true_2 by (symmetry; apply Hc). by split.
  - case_bool_decide.
    + case_bool_decide; [by split|]. split; [|done]. simpl.
      destruct (entryKept_hooks odbi0 dbName table uuid t u new odbi
                  (storeRow ctx t u (float64_to_int (New row)) c) signal) as [Hcr _].
      { by apply entryKept_storeRow. }
      by apply Hcr.
    + assert (Hdel : ∀ x, entryKept ctx table uuid new odbi x →
                          entryKept ctx table uuid new odbi (deleteRow ctx t u x)).
      { intros x Hx. by apply entryKept_deleteRow. }
      split; [done|]. simpl. destruct signal; [|by constructor].
      destruct (ctxDelete ctx) as [f|] eqn:Hf; [|by constructor].
      constructor; [|by constructor].
      intros x Hx.
      destruct (entryKept_hooks odbi0 dbName table uuid t u new odbi x true Hx) as [_ Hdl].
      by apply Hdl.
Qed.

Lemma runDeferred_kept (ctx : context) (table uuid : string) (new : Row)
    (odbi : ovndb) (acc : ovndb * list (ovndb → ovndb)) :
  loopKept ctx table uuid new odbi acc →
  entryKept ctx table uuid new odbi (runDeferred acc.2 acc.1).
Proof.
  destruct acc as [c deferred]. intros [Hc Hd]. simpl in *. unfold runDeferred.
  revert c Hc. induction Hd as [|f deferred Hf _ IH]; intros c Hc; simpl; [done|].
  apply IH. by apply Hf.
Qed.

Lemma float64_to_int_value_idemp (v : Value) :
  float64_to_int_value (float64_to_int_value v) = float64_to_int_value v.
Proof.
  destruct v as [|[n|n d|b|s|s]|l|m]; try done. simpl.
  destruct d; try done. case_bool_decide as Hb; [done|].
  simpl. by rewrite bool_decide_eq_false_2.
Qed.

(** The normalisation pass changes nothing in a row it has been applied
    to; every row that [populateCache] stores is of that kind. *)
Lemma float64_to_int_idemp (row : Row) :
  float64_to_int (float64_to_int row) = float64_to_int row.
Proof.
  destruct row as [[f|]]; unfold float64_to_int; simpl; [|done].
  do 2 f_equal. rewrite <-map_fmap_compose. apply map_fmap_ext.
  intros i x _. apply float64_to_int_value_idemp.
Qed.

(** C2.  When the new content of a row in a snapshot-style update (as the
    function compares it, after its numeric normalisation of the incoming
    row) is not the empty row and equals what the cache holds for that
    table and row identifier, processing the update leaves that cache
    entry as it was and the create signal is not called for it, whatever
    else the batch contains; a batch that consists of this row alone
    leaves the whole client object as it was.  The incoming content itself
    equals its normalised form whenever it equals a cached row that went
    through the normalisation. *)
Theorem populateCache_identical_row (odbi : ovndb) (dbName : string)
    (updates : gmap string (gmap string RowUpdate)) (signal : bool)
    (table uuid : string) (tableUpdate : gmap string RowUpdate) (row : RowUpdate) :
  updates !! table = Some tableUpdate →
  tableUpdate !! uuid = Some row →
  float64_to_int (New row) ≠ emptyRow →
  float64_to_int (New row)
    = cacheRow (ctxCache (getContext odbi dbName) odbi) table uuid →
  cacheRow (ctxCache (getContext odbi dbName) (populateCache odbi dbName updates signal))
      table uuid
    = cacheRow (ctxCache (getContext odbi dbName) odbi) table uuid ∧
  (∃ extra, signals (populateCache odbi dbName updates signal) = signals odbi ++ extra ∧
            Created table uuid ∉ extra) ∧
  populateCache odbi dbName {[ table := {[ uuid := row ]} ]} signal = odbi ∧
  (∀ cached, New row = float64_to_int cached → float64_to_int (New row) = New row).
Proof.
  intros Hup Hrow Hne Heq.
  set (ctx := getContext odbi dbName) in *.
  set (new := float64_to_int (New row)) in *.
  assert (H0 : loopKept ctx table uuid new odbi (odbi, [])).
  { split; [|constructor]. split; [done|]. exists []. rewrite app_nil_r.
    split; [done|]. apply not_elem_of_nil. }
  assert (Hall : ∀ ups : gmap string (gmap string RowUpdate),
            (∀ tu r, ups !! table = Some tu → tu !! uuid = Some r →
                     float64_to_int (New r) = new) →
            loopKept ctx table uuid new odbi
              (map_fold (populateCacheTable ctx signal ups) (odbi, []) (ctxTableCols ctx odbi))).
  { intros ups Hups. apply map_fold_preserve; [done|].
    intros t cols acc _ Hacc. unfold populateCacheTable.
    destruct (ups !! t) as [tu|] eqn:Htu; [|done].
    apply map_fold_preserve.
    - destruct Hacc as [Hc Hd]. split; [|done]. simpl. by apply entryKept_ensureTable.
    - intros u r acc' Hu Hacc'. apply populateCacheRow_kept; [done| |done].
      intros [= -> ->]. by eapply Hups. }
  assert (Hmain : entryKept ctx table uuid new odbi (populateCache odbi dbName updates signal)).
  { unfold populateCache. fold ctx.
    specialize (Hall updates). destruct (map_fold _ _ _) as [c deferred] eqn:Hf.
    apply (runDeferred_kept ctx table uuid new odbi (c, deferred)). apply Hall.
    intros tu r Htu Hr. unfold new. congruence. }
  destruct Hmain as [Hcache Hsig]. split; [by rewrite Hcache|]. split; [done|].
  split.
  - unfold populateCache. fold ctx.
    assert (Hid : map_fold (populateCacheTable ctx signal {[table := {[uuid := row]}]})
                    (odbi, []) (ctxTableCols ctx odbi) = (odbi, [])).
    { apply (map_fold_preserve (λ acc, acc = (odbi, []))); [done|].
      intros t cols acc _ ->. unfold populateCacheTable.
      destruct (decide (t = table)) as [->|Hn].
      - rewrite lookup_singleton_eq, map_fold_singleton. simpl.
        assert (He : ensureTable ctx table odbi = odbi).
        { unfold ensureTable. destruct (ctxCache ctx odbi !! table) eqn:Ht; [done|].
          exfalso. apply Hne. fold new. rewrite Heq. unfold cacheRow. by rewrite Ht. }
        rewrite He. fold new. rewrite bool_decide_eq_true_2 by done.
        by rewrite bool_decide_eq_true_2 by done.
      - by rewrite lookup_singleton_ne. }
    by rewrite Hid.
  - intros cached Hc. unfold new. rewrite Hc. apply float64_to_int_idemp.
Qed.

(** ** Leader detection *)

Lemma rowLeader_rowSays (dbName : string) (row : Row) (leader : bool) :
  rowLeader dbName row = Some leader ↔ rowSays dbName true leader row.
Proof.
  unfold rowLeader, rowSays. split.
  - intros Hr.
    destruct (field row "name") as [[|[| | |name|]| |]|]; try done.
    case_bool_decide as Hn; [done|]. subst name.
    destruct (field row "model") as [[|[| | |model|]| |]|]; try done.
    case_bool_decide as Hm; [done|]. subst model.
    destruct (field row "leader") as [[|[| |b| |]| |]|]; try done.
    by injection Hr as ->.
  - intros (-> & -> & ->).
    rewrite bool_decide_eq_false_2 by (intros Hn; by apply Hn).
    by rewrite bool_decide_eq_false_2 by (intros Hn; by apply Hn).
Qed.

Lemma firstLeader_false (dbName : string) (rows : list (string * Row)) :
  (∃ u row, (u, row) ∈ rows ∧ rowLeader dbName row = Some false) →
  (∀ u row, (u, row) ∈ rows → rowLeader dbName row ≠ Some true) →
  firstLeader dbName rows = false.
Proof.
  induction rows as [|[u row] rows IH]; intros (u0 & row0 & Hin & Hr0) Hall.
  - by apply elem_of_nil in Hin.
  - simpl. destruct (rowLeader dbName row) as [[|]|] eqn:Hr.
    + exfalso. eapply Hall; [by left|done].
    + done.
    + apply IH.
      * apply elem_of_cons in Hin as [[= -> ->]|Hin]; [congruence|]. eauto.
      * intros u1 row1 Hin1. apply (Hall u1). by right.
Qed.

(** C8, as the code has it.  Leader-only mode is enabled and, after the
    initial dump, the cluster-membership table of the server cache holds a
    row for the client's database whose model is "clustered" and whose
    leader flag is false, and no clustered row for that database with the
    flag true: then [connectEndpoint] returns an error, and the round of
    [connect] that made the attempt advances the cursor to the next
    endpoint and drops the client. *)
Theorem connectEndpoint_follower (Connect : string → option OvsdbClient)
    (c0 c' : ovndb) (addr : string) (cl : OvsdbClient) (dbTable : gmap string Row) :
  leaderOnly c0 = true →
  endpoints c0 !! curEndpoint c0 = Some addr →
  Connect addr = Some cl →
  connectEndpointDump (set_client (Some cl) (set_dialed (dialed c0 ++ [addr]) c0))
    = Some (None, c') →
  serverCache c' !! TableDatabase = Some dbTable →
  (∃ uuid row, dbTable !! uuid = Some row ∧ rowSays (db c0) true false row) →
  (∀ uuid row, dbTable !! uuid = Some row → ¬ rowSays (db c0) true true row) →
  connectEndpoint (set_client (Some cl) (set_dialed (dialed c0 ++ [addr]) c0))
    = Some (Some ErrLeaderOnly, c') ∧
  ∃ c'', connectAttempt Connect c0 = Some (inr c'') ∧
         curEndpoint c'' = (curEndpoint c0 + 1) mod length (endpoints c0) ∧
         client c'' = None.
Proof.
  intros Hlo Ha Hconn Hdump Htab (uuid & row & Hrow & Hsays) Hnone.
  pose proof (connectEndpointDump_same _ _ _ Hdump) as (He & Hcur & Hd & Hdb & Hl).
  simpl in He, Hcur, Hd, Hdb, Hl.
  assert (Hleader : serverIsLeader c' = false).
  { unfold serverIsLeader. rewrite Htab, Hdb. apply firstLeader_false.
    - exists uuid, row. split; [by apply elem_of_map_to_list|].
      by apply rowLeader_rowSays.
    - intros u r Hin%elem_of_map_to_list Hr%rowLeader_rowSays. by eapply Hnone. }
  assert (Hce : connectEndpoint (set_client (Some cl) (set_dialed (dialed c0 ++ [addr]) c0))
                = Some (Some ErrLeaderOnly, c')).
  { unfold connectEndpoint. rewrite Hdump. simpl. by rewrite Hl, Hlo, Hleader. }
  split; [done|].
  unfold connectAttempt. rewrite Ha. cbn -[connectEndpoint]. rewrite Hconn, Hce. simpl.
  eexists. split; [reflexivity|].
  assert (Hne : endpoints c0 ≠ []) by (intros Hnil; by rewrite Hnil in Ha).
  unfold dropClient, nextEndpoint. rewrite He.
  destruct (endpoints c0) eqn:Hl0; [done|]. rewrite <-Hl0. simpl.
  destruct (client c') eqn:Hcl; simpl; by rewrite Hcur.
Qed.

(** ** Auxiliary key/value deletion *)



(** The lookup does not consult [table]: with no Logical_Switch table in
    the cache nothing is found, whatever [table] holds. *)
Lemma auxKeyValDel_not_found (odbi : ovndb) (table rowName auxCol : string)
    (kv : gmap string (option string)) :
  kv ≠ ∅ →
  cache odbi !! TableLogicalSwitch = None →
  auxKeyValDel odbi table rowName auxCol kv = Some (inr ErrorNotFound).
Proof.
  intros Hkv Hc. unfold auxKeyValDel, getRowUUID, getRowUUIDs.
  rewrite bool_decide_eq_false_2 by (by rewrite map_size_empty_iff).
  by rewrite Hc.
Qed.

End ClientProperties.

Section CacheProperties.
Context `{Names}.

(** ** What a snapshot-style batch leaves in the cache *)

Lemma map_fold_two_phase {A B} (f : string → A → B → B) (b : B) (m : gmap string A)
    (k : string) (Pb Pa : B → Prop) :
  Pb b →
  (∀ i x r, m !! i = Some x → i ≠ k → Pb r → Pb (f i x r)) →
  (∀ i x r, m !! i = Some x → i ≠ k → Pa r → Pa (f i x r)) →
  (∀ x r, m !! k = Some x → Pb r → Pa (f k x r)) →
  match m !! k with
  | Some _ => Pa (map_fold f b m)
  | None => Pb (map_fold f b m)
  end.
Proof.
  intros Hb Hpb Hpa Hstep.
  cut (∀ m', m' ⊆ m → match m' !! k with
                       | Some _ => Pa (map_fold f b m')
                       | None => Pb (map_fold f b m')
                       end).
  { intros Hcut. apply Hcut. reflexivity. }
  intros m'. apply (map_fold_weak_ind (λ r m0, m0 ⊆ m →
    match m0 !! k with Some _ => Pa r | None => Pb r end)).
  - intros _. by rewrite lookup_empty.
  - intros i x m0 r Hi IH Hsub.
    assert (Hx : m !! i = Some x).
    { eapply lookup_weaken; [|exact Hsub]. apply lookup_insert_eq. }
    assert (Hsub0 : m0 ⊆ m).
    { etrans; [|exact Hsub]. by apply insert_subseteq. }
    specialize (IH Hsub0).
    destruct (decide (i = k)) as [->|Hne].
    + rewrite lookup_insert_eq. rewrite Hi in IH. by apply Hstep.
    + rewrite lookup_insert_ne by done.
      destruct (m0 !! k); [by apply Hpa|by apply Hpb].
Qed.

Lemma hooks_ctxCache (odbi0 : ovndb) (dbName t u : string) (c : ovndb) (signal : bool) :
  let ctx := getContext odbi0 dbName in
  ctxCache ctx (callHook signal (ctxCreate ctx) t u c) = ctxCache ctx c ∧
  ∀ f, ctxDelete ctx = Some f → ctxCache ctx (f t u c) = ctxCache ctx c.
Proof.
  intros ctx. subst ctx. unfold getContext, callHook.
  assert (Hd : ∀ b, ctxCache (mkContext b (Some disconnectIfFollower)
                                (Some disconnectIfFollower)) (disconnectIfFollower t u c)
                    = ctxCache (mkContext b (Some disconnectIfFollower)
                                  (Some disconnectIfFollower)) c).
  { intros b. unfold disconnectIfFollower. destruct (_ && _); [|done].
    unfold requestDisconnect, nextEndpoint, ctxCache. simpl.
    by destruct (endpoints c); destruct b. }
  case_bool_decide; [|destruct (signalCB odbi0)]; simpl; split.
  - destruct signal; [apply Hd|done].
  - intros f [= <-]. apply Hd.
  - by destruct signal.
  - by intros f [= <-].
  - by destruct signal.
  - done.
Qed.

Lemma cacheRow_ensureTable (ctx : context) (t table uuid : string) (c : ovndb) :
  cacheRow (ctxCache ctx (ensureTable ctx t c)) table uuid
  = cacheRow (ctxCache ctx c) table uuid.
Proof.
  unfold ensureTable. destruct (ctxCache ctx c !! t) as [tm|] eqn:Ht; [done|].
  rewrite (proj1 (ctxCache_ctxSetCache ctx _ c)).
  destruct (decide (t = table)) as [->|Hne].
  - unfold cacheRow. by rewrite lookup_insert_eq, Ht.
  - by apply cacheRow_insert_ne.
Qed.

Lemma cacheRow_storeRow (ctx : context) (t u table uuid : string) (row : Row) (c : ovndb) :
  cacheRow (ctxCache ctx (storeRow ctx t u row c)) table uuid
  = if bool_decide ((t, u) = (table, uuid)) then row
    else cacheRow (ctxCache ctx c) table uuid.
Proof.
  unfold storeRow. rewrite (proj1 (ctxCache_ctxSetCache ctx _ c)).
  case_bool_decide as Heq.
  - injection Heq as -> ->. unfold cacheRow. rewrite lookup_insert_eq. simpl.
    by rewrite lookup_insert_eq.
  - by apply cacheRow_store_other.
Qed.

Lemma cacheRow_deleteRow (ctx : context) (t u table uuid : string) (c : ovndb) :
  cacheRow (ctxCache ctx (deleteRow ctx t u c)) table uuid
  = if bool_decide ((t, u) = (table, uuid)) then emptyRow
    else cacheRow (ctxCache ctx c) table uuid.
Proof.
  unfold deleteRow. rewrite (proj1 (ctxCache_ctxSetCache ctx _ c)).
  case_bool_decide as Heq.
  - injection Heq as -> ->. unfold cacheRow, cacheDelete.
    destruct (ctxCache ctx c !! table) as [tm|] eqn:Ht.
    + rewrite lookup_insert_eq. simpl. by rewrite lookup_delete_eq.
    + by rewrite Ht.
  - by apply cacheRow_delete_other.
Qed.

Section Entry.
Variables (odbi0 : ovndb) (dbName table uuid : string).

Local Abbreviation ctx := (getContext odbi0 dbName).
Local Abbreviation V := (entryOf (getContext odbi0 dbName) table uuid).
Local Abbreviation keeps := (keepsEntry (getContext odbi0 dbName) table uuid).
Local Abbreviation before := (entryBefore (getContext odbi0 dbName) table uuid).
Local Abbreviation after := (entryAfter (getContext odbi0 dbName) table uuid).
Local Abbreviation sigBefore := (signalsBefore odbi0 table uuid).
Local Abbreviation sigAfter := (signalsAfter odbi0 dbName table uuid).
Local Abbreviation before2 := (entryBefore2 (getContext odbi0 dbName) odbi0 table uuid).
Local Abbreviation after2 := (entryAfter2 odbi0 dbName table uuid).
Local Abbreviation sigBefore2 := (signalsBefore2 odbi0 table uuid).
Local Abbreviation sigAfter2 := (signalsAfter2 odbi0 dbName table uuid).

Lemma runDeferred_keeps (deferred : list (ovndb → ovndb)) (x : ovndb) :
  Forall keeps deferred → V (runDeferred deferred x) = V x.
Proof.
  intros Hd. revert x. unfold runDeferred.
  induction Hd as [|f deferred Hf _ IH]; intros x; simpl; [done|].
  by rewrite IH, Hf.
Qed.

Lemma keeps_create (signal : bool) (t u : string) :
  keeps (callHook signal (ctxCreate ctx) t u).
Proof.
  intros x. unfold entryOf. by rewrite (proj1 (hooks_ctxCache odbi0 dbName t u x signal)).
Qed.

Lemma keeps_delete (f : string → string → ovndb → ovndb) (t u : string) :
  ctxDelete ctx = Some f → keeps (f t u).
Proof.
  intros Hf x. unfold entryOf.
  by rewrite (proj2 (hooks_ctxCache odbi0 dbName t u x true) f Hf).
Qed.

Lemma keeps_deleteRow (t u : string) :
  (t, u) ≠ (table, uuid) → keeps (deleteRow ctx t u).
Proof.
  intros Hne x. unfold entryOf. rewrite cacheRow_deleteRow.
  by rewrite bool_decide_eq_false_2.
Qed.

Lemma populateCacheRow_shape (signal : bool) (t u : string) (row : RowUpdate)
    (c : ovndb) (deferred : list (ovndb → ovndb)) :
  let new := float64_to_int (New row) in
  ∃ c' more,
    populateCacheRow ctx signal t u row (c, deferred) = (c', more ++ deferred) ∧
    (V c' = if bool_decide ((t, u) = (table, uuid))
            then (if bool_decide (new ≠ emptyRow) then new else V c)
            else V c) ∧
    (new ≠ emptyRow → more = []) ∧
    (new = emptyRow → ∃ hooks, more = hooks ++ [deleteRow ctx t u] ∧ Forall keeps hooks).
Proof.
  intros new. unfold populateCacheRow. fold new.
  case_bool_decide as Hnew.
  - case_bool_decide as Hsame.
    + exists c, []. split; [done|]. split; [|split; [done|done]].
      case_bool_decide as Heq; [|done]. injection Heq as -> ->. by rewrite Hsame.
    + eexists _, []. split; [done|]. split; [|split; [done|done]].
      rewrite (keeps_create _ _ _ _). unfold entryOf. by rewrite cacheRow_storeRow.
  - assert (Hnew' : new = emptyRow) by (by destruct (decide (new = emptyRow))).
    destruct signal; [destruct (ctxDelete ctx) as [f|] eqn:Hf|].
    + exists c, [f t u; deleteRow ctx t u]. split; [done|].
      split; [by case_bool_decide|]. split; [done|]. intros _.
      exists [f t u]. split; [done|]. constructor; [|done]. by apply keeps_delete.
    + exists c, [deleteRow ctx t u]. split; [done|].
      split; [by case_bool_decide|]. split; [done|]. intros _. by exists [].
    + exists c, [deleteRow ctx t u]. split; [done|].
      split; [by case_bool_decide|]. split; [done|]. intros _. by exists [].
Qed.

Lemma populateCacheRow_before (signal : bool) (t u : string) (row : RowUpdate)
    (orig : Row) (acc : ovndb * list (ovndb → ovndb)) :
  (t, u) ≠ (table, uuid) →
  before orig acc → before orig (populateCacheRow ctx signal t u row acc).
Proof.
  intros Hne [Hc Hd]. destruct acc as [c deferred]. simpl in Hc, Hd.
  destruct (populateCacheRow_shape signal t u row c deferred)
    as (c' & more & -> & Hv & Hnone & Hdel).
  rewrite bool_decide_eq_false_2 in Hv by done.
  split; simpl; [congruence|]. apply Forall_app. split; [|done].
  destruct (decide (float64_to_int (New row) = emptyRow)) as [He|He].
  - destruct (Hdel He) as (hooks & -> & Hh). apply Forall_app. split; [done|].
    constructor; [|done]. by apply keeps_deleteRow.
  - by rewrite (Hnone He).
Qed.

Lemma populateCacheRow_after (signal : bool) (t u : string) (row : RowUpdate)
    (new : Row) (acc : ovndb * list (ovndb → ovndb)) :
  (t, u) ≠ (table, uuid) →
  after new acc → after new (populateCacheRow ctx signal t u row acc).
Proof.
  intros Hne Ha. destruct acc as [c deferred]. unfold entryAfter in *. simpl in Ha.
  destruct (populateCacheRow_shape signal t u row c deferred)
    as (c' & more & -> & Hv & Hnone & Hdel).
  rewrite bool_decide_eq_false_2 in Hv by done. simpl.
  intros x Hx. unfold runDeferred. rewrite foldl_app. apply Ha.
  rewrite <-Hv, <-Hx. apply runDeferred_keeps.
  destruct (decide (float64_to_int (New row) = emptyRow)) as [He|He].
  - destruct (Hdel He) as (hooks & -> & Hh). apply Forall_app. split; [done|].
    constructor; [|done]. by apply keeps_deleteRow.
  - by rewrite (Hnone He).
Qed.

Lemma populateCacheRow_reached (signal : bool) (row : RowUpdate)
    (orig : Row) (acc : ovndb * list (ovndb → ovndb)) :
  before orig acc →
  after (float64_to_int (New row)) (populateCacheRow ctx signal table uuid row acc).
Proof.
  intros [Hc Hd]. destruct acc as [c deferred]. unfold entryAfter. simpl in Hc, Hd.
  destruct (populateCacheRow_shape signal table uuid row c deferred)
    as (c' & more & -> & Hv & Hnone & Hdel).
  rewrite bool_decide_eq_true_2 in Hv by done. simpl.
  intros x Hx. unfold runDeferred. rewrite foldl_app.
  fold (runDeferred deferred (foldl (λ c'0 f, f c'0) x more)).
  rewrite runDeferred_keeps by done.
  destruct (decide (float64_to_int (New row) = emptyRow)) as [He|He].
  - destruct (Hdel He) as (hooks & -> & Hh). rewrite foldl_app. simpl.
    unfold entryOf. rewrite cacheRow_deleteRow. by rewrite bool_decide_eq_true_2.
  - rewrite (Hnone He). simpl. rewrite Hx, Hv.
    by rewrite bool_decide_eq_true_2.
Qed.

(** The two loops of [populateCache], seen from one entry: [B] holds until
    the row of the entry is reached, and [A] from then on. *)
Lemma populateCache_phases (signal : bool)
    (updates : gmap string (gmap string RowUpdate))
    (B : ovndb * list (ovndb → ovndb) → Prop)
    (A : RowUpdate → ovndb * list (ovndb → ovndb) → Prop) :
  B (odbi0, []) →
  (∀ t x d, B (x, d) → B (ensureTable ctx t x, d)) →
  (∀ r t x d, A r (x, d) → A r (ensureTable ctx t x, d)) →
  (∀ t u row acc, (t, u) ≠ (table, uuid) →
     B acc → B (populateCacheRow ctx signal t u row acc)) →
  (∀ r t u row acc, (t, u) ≠ (table, uuid) →
     A r acc → A r (populateCacheRow ctx signal t u row acc)) →
  (∀ row acc, B acc → A row (populateCacheRow ctx signal table uuid row acc)) →
  match updateOf (ctxTableCols ctx odbi0) updates table uuid with
  | Some row =>
      A row (map_fold (populateCacheTable ctx signal updates) (odbi0, [])
               (ctxTableCols ctx odbi0))
  | None =>
      B (map_fold (populateCacheTable ctx signal updates) (odbi0, [])
           (ctxTableCols ctx odbi0))
  end.
Proof.
  intros Hstart HensB HensA HrowB HrowA Hreach.
  set (final := match updates !! table ≫= (λ tableUpdate, tableUpdate !! uuid) with
                | Some row => A row
                | None => B
                end).
  assert (Hother : ∀ (P : ovndb * list (ovndb → ovndb) → Prop) t cols acc,
            (∀ x d, P (x, d) → P (ensureTable ctx t x, d)) →
            (∀ u row acc, P acc → P (populateCacheRow ctx signal t u row acc)) →
            P acc → P (populateCacheTable ctx signal updates t cols acc)).
  { intros P t cols acc Hens Hrow Hacc. unfold populateCacheTable.
    destruct (updates !! t) as [tableUpdate|]; [|done].
    apply map_fold_preserve.
    - destruct acc as [x d]. by apply Hens.
    - intros u row r _ Hr. by apply Hrow. }
  pose proof (map_fold_two_phase (populateCacheTable ctx signal updates) (odbi0, [])
                (ctxTableCols ctx odbi0) table B final) as Hfold.
  unfold updateOf.
  destruct (ctxTableCols ctx odbi0 !! table) as [cols|] eqn:Hcols.
  - assert (Hfinal : final (map_fold (populateCacheTable ctx signal updates) (odbi0, [])
                              (ctxTableCols ctx odbi0))).
    { apply Hfold.
      - done.
      - intros t cs r _ Hne Hr. apply Hother; [by apply HensB| |done].
        intros u row acc. apply HrowB. congruence.
      - intros t cs r _ Hne Hr. subst final.
        destruct (updates !! table ≫= _) as [row|].
        + apply Hother; [by apply HensA| |done].
          intros u row' acc. apply HrowA. congruence.
        + apply Hother; [by apply HensB| |done].
          intros u row' acc. apply HrowB. congruence.
      - intros cs r _ Hr. subst final. unfold populateCacheTable.
        destruct (updates !! table) as [tableUpdate|] eqn:Hu; simpl; [|done].
        pose proof (map_fold_two_phase (populateCacheRow ctx signal table)
                      (ensureTable ctx table r.1, r.2) tableUpdate uuid B
                      (match tableUpdate !! uuid with
                       | Some row => A row
                       | None => B
                       end)) as Hrows.
        destruct (tableUpdate !! uuid) as [row|] eqn:Hrow.
        + apply Hrows.
          * destruct r as [x d]. by apply HensB.
          * intros u row' acc _ Hne. apply HrowB. congruence.
          * intros u row' acc _ Hne. apply HrowA. congruence.
          * intros row' acc [= <-]. apply Hreach.
        + apply Hrows.
          * destruct r as [x d]. by apply HensB.
          * intros u row' acc _ Hne. apply HrowB. congruence.
          * intros u row' acc _ Hne. apply HrowB. congruence.
          * intros row' acc [=]. }
    subst final. by destruct (updates !! table ≫= _).
  - apply map_fold_preserve; [done|].
    intros t cs r Ht Hr. apply Hother; [by apply HensB| |done].
    intros u row acc. apply HrowB. congruence.
Qed.

Lemma populateCache_entry (signal : bool)
    (updates : gmap string (gmap string RowUpdate)) :
  V (populateCache odbi0 dbName updates signal) =
  match updateOf (ctxTableCols ctx odbi0) updates table uuid with
  | Some row => float64_to_int (New row)
  | None => V odbi0
  end.
Proof.
  unfold populateCache.
  pose proof (populateCache_phases signal updates (before (V odbi0))
                (λ row, after (float64_to_int (New row)))) as Hph.
  destruct (updateOf (ctxTableCols ctx odbi0) updates table uuid) as [row|];
    destruct (map_fold _ _ _) as [c deferred].
  - apply Hph; try done.
    + intros t x d [Hx Hd]. split; [|done]. simpl in *. unfold entryOf.
      by rewrite cacheRow_ensureTable.
    + intros r t x d Ha y Hy. simpl in *. apply Ha. rewrite Hy. unfold entryOf.
      by rewrite cacheRow_ensureTable.
    + intros. by apply populateCacheRow_before.
    + intros. by apply populateCacheRow_after.
    + intros. by eapply populateCacheRow_reached.
  - destruct Hph as [Hc Hd]; try done.
    + intros t x d [Hx Hd]. split; [|done]. simpl in *. unfold entryOf.
      by rewrite cacheRow_ensureTable.
    + intros r t x d Ha y Hy. simpl in *. apply Ha. rewrite Hy. unfold entryOf.
      by rewrite cacheRow_ensureTable.
    + intros. by apply populateCacheRow_before.
    + intros. by apply populateCacheRow_after.
    + intros. by eapply populateCacheRow_reached.
    + simpl in *. by rewrite runDeferred_keeps.
Qed.

(** *** The calls of the signal callbacks *)

Lemma signals_disconnectIfFollower (t u : string) (x : ovndb) :
  signals (disconnectIfFollower t u x) = signals x.
Proof.
  unfold disconnectIfFollower. destruct (_ && _); [|done].
  unfold requestDisconnect, nextEndpoint. by destruct (endpoints x).
Qed.

Lemma signals_create_hook (signal : bool) (t u : string) (x : ovndb) :
  signals (callHook signal (ctxCreate ctx) t u x)
  = signals x ++ if signalling odbi0 dbName signal then [Created t u] else [].
Proof.
  unfold getContext, callHook, signalling.
  case_bool_decide; destruct signal; destruct (signalCB odbi0); simpl;
    rewrite ?signals_disconnectIfFollower, ?app_nil_r; done.
Qed.

Lemma signals_delete_hook (signal : bool) (t u : string) (x : ovndb)
    (rest : list (ovndb → ovndb)) :
  ∃ hooks,
    (if signal then match ctxDelete ctx with
                    | Some f => f t u :: rest
                    | None => rest
                    end
     else rest) = hooks ++ rest ∧
    ∀ x, signals (runDeferred hooks x)
         = signals x ++ if signalling odbi0 dbName signal then [Deleted t u] else [].
Proof.
  unfold getContext, signalling.
  case_bool_decide; destruct signal; destruct (signalCB odbi0); simpl.
  all: first
    [ exists [disconnectIfFollower t u]; split; [done|]; intros y; simpl;
      by rewrite signals_disconnectIfFollower, app_nil_r
    | exists [signalDelete t u]; split; [done|]; by intros y
    | exists []; split; [done|]; intros y; simpl; by rewrite app_nil_r ].
Qed.

Lemma populateCacheRow_signals (signal : bool) (t u : string) (row : RowUpdate)
    (c : ovndb) (deferred : list (ovndb → ovndb)) :
  let new := float64_to_int (New row) in
  ∃ c' more,
    populateCacheRow ctx signal t u row (c, deferred) = (c', more ++ deferred) ∧
    signals c' = signals c ++
      (if signalling odbi0 dbName signal && bool_decide (new ≠ emptyRow)
          && bool_decide (new ≠ cacheRow (ctxCache ctx c) t u)
       then [Created t u] else []) ∧
    ∀ x, signals (runDeferred more x) = signals x ++
      (if signalling odbi0 dbName signal && bool_decide (new = emptyRow)
       then [Deleted t u] else []).
Proof.
  intros new. unfold populateCacheRow. fold new.
  case_bool_decide as Hnew.
  - rewrite (bool_decide_eq_false_2 (new = emptyRow)) by done.
    rewrite !andb_true_r, andb_false_r.
    case_bool_decide as Hsame.
    + rewrite (bool_decide_eq_false_2 (new ≠ _)) by (intros Hn; by apply Hn).
      rewrite andb_false_r. exists c, []. split; [done|].
      split; [by rewrite app_nil_r|]. intros x. by rewrite app_nil_r.
    + rewrite (bool_decide_eq_true_2 (new ≠ _)) by done. rewrite andb_true_r.
      eexists _, []. split; [done|]. split; [|intros x; by rewrite app_nil_r].
      rewrite signals_create_hook. f_equal. unfold storeRow.
      apply (proj2 (ctxCache_ctxSetCache ctx _ c)).
  - assert (Hnew' : new = emptyRow) by (by destruct (decide (new = emptyRow))).
    rewrite (bool_decide_eq_true_2 (new = emptyRow)) by done.
    rewrite andb_true_r, !andb_false_r.
    destruct (signals_delete_hook signal t u c (deleteRow ctx t u :: deferred))
      as (hooks & -> & Hh).
    exists c, (hooks ++ [deleteRow ctx t u]). split; [by rewrite <-app_assoc|].
    split; [by rewrite app_nil_r|]. intros x.
    unfold runDeferred. rewrite foldl_app. simpl.
    unfold deleteRow at 1. rewrite (proj2 (ctxCache_ctxSetCache ctx _ _)).
    apply Hh.
Qed.

Lemma elem_of_if_singleton (b : bool) (s s' : Signal) :
  s ∈ (if b then [s'] else []) ↔ b = true ∧ s = s'.
Proof.
  destruct b.
  - rewrite list_elem_of_singleton. tauto.
  - split; [by intros ?%elem_of_nil|by intros [? _]].
Qed.

Lemma Forall_if_singleton (P : Signal → Prop) (b : bool) (s : Signal) :
  P s → Forall P (if b then [s] else []).
Proof. intros Hs. destruct b; by repeat constructor. Qed.

Lemma populateCacheRow_sigBefore (signal : bool) (t u : string) (row : RowUpdate)
    (acc : ovndb * list (ovndb → ovndb)) :
  (t, u) ≠ (table, uuid) →
  sigBefore acc → sigBefore (populateCacheRow ctx signal t u row acc).
Proof.
  intros Hne [(cs & Hcs & Hall & Hnot) Hd]. destruct acc as [c deferred].
  simpl in Hcs, Hd.
  destruct (populateCacheRow_signals signal t u row c deferred)
    as (c' & more & -> & Hsig & Hmore).
  split; simpl.
  - eexists. rewrite Hsig, Hcs, <-app_assoc. split; [done|]. split.
    + apply Forall_app. split; [done|]. by apply Forall_if_singleton.
    + rewrite elem_of_app, elem_of_if_singleton. intros [?|[_ ?]]; [done|congruence].
  - intros x. unfold runDeferred. rewrite foldl_app.
    destruct (Hd (foldl (λ c0 f, f c0) x more)) as (ds & Hds & Hdall & Hdnot).
    unfold runDeferred in Hds. rewrite Hds.
    fold (runDeferred more x). rewrite Hmore, <-app_assoc.
    eexists. split; [done|]. split.
    + apply Forall_app. split; [|done]. by apply Forall_if_singleton.
    + rewrite elem_of_app, elem_of_if_singleton. intros [[_ ?]|?]; [congruence|done].
Qed.

Lemma populateCacheRow_sigAfter (signal : bool) (t u : string) (row : RowUpdate)
    (new : Row) (acc : ovndb * list (ovndb → ovndb)) :
  (t, u) ≠ (table, uuid) →
  sigAfter signal new acc → sigAfter signal new (populateCacheRow ctx signal t u row acc).
Proof.
  intros Hne [(cs & Hcs & Hall & Hiff) Hd]. destruct acc as [c deferred].
  simpl in Hcs, Hd.
  destruct (populateCacheRow_signals signal t u row c deferred)
    as (c' & more & -> & Hsig & Hmore).
  split; simpl.
  - eexists. rewrite Hsig, Hcs, <-app_assoc. split; [done|]. split.
    + apply Forall_app. split; [done|]. by apply Forall_if_singleton.
    + rewrite elem_of_app, elem_of_if_singleton, Hiff.
      split; [intros [?|[_ ?]]; [done|congruence]|by left].
  - intros x. unfold runDeferred. rewrite foldl_app.
    destruct (Hd (foldl (λ c0 f, f c0) x more)) as (ds & Hds & Hdall & Hdiff).
    unfold runDeferred in Hds. rewrite Hds.
    fold (runDeferred more x). rewrite Hmore, <-app_assoc.
    eexists. split; [done|]. split.
    + apply Forall_app. split; [|done]. by apply Forall_if_singleton.
    + rewrite elem_of_app, elem_of_if_singleton, Hdiff.
      split; [intros [[_ ?]|?]; [congruence|done]|by right].
Qed.

Lemma populateCacheRow_sigReached (signal : bool) (row : RowUpdate)
    (acc : ovndb * list (ovndb → ovndb)) :
  before (V odbi0) acc → sigBefore acc →
  sigAfter signal (float64_to_int (New row))
    (populateCacheRow ctx signal table uuid row acc).
Proof.
  intros [Hv _] [(cs & Hcs & Hall & Hnot) Hd]. destruct acc as [c deferred].
  simpl in Hv, Hcs, Hd.
  destruct (populateCacheRow_signals signal table uuid row c deferred)
    as (c' & more & -> & Hsig & Hmore).
  fold (V c) in Hsig. rewrite Hv in Hsig.
  split; simpl.
  - eexists. rewrite Hsig, Hcs, <-app_assoc. split; [done|]. split.
    + apply Forall_app. split; [done|]. by apply Forall_if_singleton.
    + rewrite elem_of_app, elem_of_if_singleton.
      rewrite !andb_true_iff, !bool_decide_eq_true. intuition.
  - intros x. unfold runDeferred. rewrite foldl_app.
    destruct (Hd (foldl (λ c0 f, f c0) x more)) as (ds & Hds & Hdall & Hdnot).
    unfold runDeferred in Hds. rewrite Hds.
    fold (runDeferred more x). rewrite Hmore, <-app_assoc.
    eexists. split; [done|]. split.
    + apply Forall_app. split; [|done]. by apply Forall_if_singleton.
    + rewrite elem_of_app, elem_of_if_singleton.
      rewrite !andb_true_iff, !bool_decide_eq_true. intuition.
Qed.

Lemma signals_ensureTable (t : string) (x : ovndb) :
  signals (ensureTable ctx t x) = signals x.
Proof.
  unfold ensureTable. destruct (ctxCache ctx x !! t); [done|].
  apply (proj2 (ctxCache_ctxSetCache ctx _ x)).
Qed.

Lemma populateCache_signals_entry (signal : bool)
    (updates : gmap string (gmap string RowUpdate)) :
  ∃ cs ds,
    signals (populateCache odbi0 dbName updates signal) = signals odbi0 ++ cs ++ ds ∧
    Forall isCreated cs ∧ Forall isDeleted ds ∧
    (Created table uuid ∈ cs ↔
       signalling odbi0 dbName signal = true ∧
       ∃ row, updateOf (ctxTableCols ctx odbi0) updates table uuid = Some row ∧
              float64_to_int (New row) ≠ emptyRow ∧
              float64_to_int (New row) ≠ V odbi0) ∧
    (Deleted table uuid ∈ ds ↔
       signalling odbi0 dbName signal = true ∧
       ∃ row, updateOf (ctxTableCols ctx odbi0) updates table uuid = Some row ∧
              float64_to_int (New row) = emptyRow).
Proof.
  unfold populateCache.
  pose proof (populateCache_phases signal updates
                (λ acc, before (V odbi0) acc ∧ sigBefore acc)
                (λ row, sigAfter signal (float64_to_int (New row)))) as Hph.
  assert (HensB : ∀ t x d, before (V odbi0) (x, d) ∧ sigBefore (x, d) →
            before (V odbi0) (ensureTable ctx t x, d) ∧ sigBefore (ensureTable ctx t x, d)).
  { intros t x d [[Hx Hd] [Hc Hs]]. split; [split; [|done]|split; [|done]]; simpl in *.
    - unfold entryOf. by rewrite cacheRow_ensureTable.
    - by rewrite signals_ensureTable. }
  assert (HensA : ∀ r t x d, sigAfter signal (float64_to_int (New r)) (x, d) →
            sigAfter signal (float64_to_int (New r)) (ensureTable ctx t x, d)).
  { intros r t x d [Hc Hs]. split; [|done]. simpl in *. by rewrite signals_ensureTable. }
  assert (Hstart : before (V odbi0) (odbi0, []) ∧ sigBefore (odbi0, [])).
  { split; [by split|]. split; simpl.
    - exists []. rewrite app_nil_r. split; [done|]. split; [done|]. apply not_elem_of_nil.
    - intros x. exists []. rewrite app_nil_r. split; [done|]. split; [done|].
      apply not_elem_of_nil. }
  specialize (Hph Hstart HensB HensA).
  assert (Hfinal :
    match updateOf (ctxTableCols ctx odbi0) updates table uuid with
    | Some row =>
        sigAfter signal (float64_to_int (New row))
          (map_fold (populateCacheTable ctx signal updates) (odbi0, [])
             (ctxTableCols ctx odbi0))
    | None =>
        before (V odbi0)
          (map_fold (populateCacheTable ctx signal updates) (odbi0, [])
             (ctxTableCols ctx odbi0)) ∧
        sigBefore
          (map_fold (populateCacheTable ctx signal updates) (odbi0, [])
             (ctxTableCols ctx odbi0))
    end).
  { apply Hph.
    - intros t u row acc Hne [Hb Hs]. split;
        [by apply populateCacheRow_before|by apply populateCacheRow_sigBefore].
    - intros r t u row acc Hne Ha. by apply populateCacheRow_sigAfter.
    - intros row acc [Hb Hs]. by apply populateCacheRow_sigReached. }
  clear Hph.
  destruct (updateOf (ctxTableCols ctx odbi0) updates table uuid) as [row|];
    destruct (map_fold _ _ _) as [c deferred].
  - destruct Hfinal as [(cs & Hcs & Hall & Hiff) Hd]. simpl in Hcs, Hd.
    destruct (Hd c) as (ds & Hds & Hdall & Hdiff).
    exists cs, ds. rewrite Hds, Hcs, <-app_assoc. split; [done|].
    split; [done|]. split; [done|]. split.
    + rewrite Hiff. split; [intros (? & ? & ?); eauto|].
      by intros (? & row' & [= <-] & ? & ?).
    + rewrite Hdiff. split; [intros (? & ?); eauto|]. by intros (? & row' & [= <-] & ?).
  - destruct Hfinal as [_ [(cs & Hcs & Hall & Hnot) Hd]]. simpl in Hcs, Hd.
    destruct (Hd c) as (ds & Hds & Hdall & Hdnot).
    exists cs, ds. rewrite Hds, Hcs, <-app_assoc. split; [done|].
    split; [done|]. split; [done|]. split.
    + split; [done|]. by intros (_ & row & [=] & _).
    + split; [done|]. by intros (_ & row & [=] & _).
Qed.

(** *** Update2 batches *)

Lemma hooks_client (signal : bool) (t u : string) (x : ovndb) :
  client (callHook signal (ctxCreate ctx) t u x) = client x ∧
  client (callHook signal (ctxDelete ctx) t u x) = client x.
Proof.
  assert (Hd : client (disconnectIfFollower t u x) = client x).
  { unfold disconnectIfFollower. destruct (_ && _); [|done].
    unfold requestDisconnect, nextEndpoint. by destruct (endpoints x). }
  unfold getContext, callHook.
  case_bool_decide; destruct signal; destruct (signalCB odbi0); simpl; by rewrite ?Hd.
Qed.

Lemma client_ctxSetCache (v : gmap string (gmap string Row)) (x : ovndb) :
  client (ctxSetCache ctx v x) = client x.
Proof. unfold ctxSetCache. by destruct (ctxServer ctx). Qed.

Lemma keeps_delete_hook (signal : bool) (t u : string) :
  keeps (callHook signal (ctxDelete ctx) t u).
Proof.
  intros x. unfold callHook. destruct signal; [|done].
  destruct (ctxDelete ctx) as [f|] eqn:Hf; [|done]. by apply keeps_delete.
Qed.

Lemma cacheRow_cacheStore (cache cache' : gmap string (gmap string Row))
    (t u : string) (row : Row) :
  cacheStore cache t u row = Some cache' →
  cacheRow cache' table uuid
  = if bool_decide ((t, u) = (table, uuid)) then row else cacheRow cache table uuid.
Proof.
  unfold cacheStore. destruct (cache !! t) as [tm|] eqn:Ht; [|done].
  intros [= <-]. case_bool_decide as Heq.
  - injection Heq as -> ->. apply cacheRow_stored.
  - destruct (decide (t = table)) as [->|Hne].
    + unfold cacheRow. rewrite lookup_insert_eq, Ht. simpl.
      by rewrite lookup_insert_ne by congruence.
    + by apply cacheRow_insert_ne.
Qed.

Lemma V_storeRow (t u : string) (r : Row) (c : ovndb) :
  V (storeRow ctx t u r c) = if bool_decide ((t, u) = (table, uuid)) then r else V c.
Proof. unfold entryOf. by rewrite cacheRow_storeRow. Qed.

(** One round of the loop over the rows: what it makes of the row it
    names is [rowAfter2] of what the cache held for that row, a delete
    being left for the end; every other entry reads as before. *)
Lemma populateCache2Row_shape (signal : bool) (t u : string) (row : RowUpdate2)
    (c c' : ovndb) (deferred deferred' : list (ovndb → ovndb)) :
  populateCache2Row ctx dbName signal t u row (Some (c, deferred))
    = Some (c', deferred') →
  client c' = client c ∧
  ((t, u) ≠ (table, uuid) → V c' = V c) ∧
  ∃ r, rowAfter2 (getSchema c dbName) t row (cacheRow (ctxCache ctx c) t u) = Some r ∧
       (deferred' = deferred ∧ ((t, u) = (table, uuid) → V c' = r) ∨
        deferred' = deleteRow ctx t u :: deferred ∧ r = emptyRow ∧ V c' = V c).
Proof.
  unfold populateCache2Row, rowAfter2. simpl.
  destruct (isSet (Initial row)).
  { case_bool_decide as Hsame.
    - intros [= <- <-]. split; [done|]. split; [done|]. eexists. split; [done|].
      left. split; [done|]. intros Heq. injection Heq as -> ->. done.
    - destruct (getSchema c dbName) as [schema|]; [simpl|done].
      destruct (initMissingColumnsWithDefaults _ _ _) as [r|]; [simpl|done].
      intros [= <- <-]. rewrite (proj1 (hooks_client _ _ _ _)).
      unfold storeRow at 1. rewrite client_ctxSetCache. split; [done|].
      rewrite !(keeps_create _ _ _ _), !V_storeRow. split; [by intros ?; case_bool_decide|].
      exists r. split; [done|]. left. split; [done|]. intros ?. by case_bool_decide. }
  destruct (isSet (Insert row)).
  { destruct (getSchema c dbName) as [schema|]; [simpl|done].
    destruct (initMissingColumnsWithDefaults _ _ _) as [r|]; [simpl|done].
    intros [= <- <-]. rewrite (proj1 (hooks_client _ _ _ _)).
    unfold storeRow at 1. rewrite client_ctxSetCache. split; [done|].
    rewrite !(keeps_create _ _ _ _), !V_storeRow. split; [by intros ?; case_bool_decide|].
    eexists. split; [done|]. left. split; [done|]. intros ?. by case_bool_decide. }
  destruct (isSet (Modify row)).
  { unfold applyUpdatesToRow.
    destruct (applyRowDiff _ _ _ _) as [r|]; [simpl|done].
    destruct (cacheStore _ _ _ _) as [cache'|] eqn:Hcs; [simpl|done].
    intros [= <- <-]. rewrite (proj1 (hooks_client _ _ _ _)), client_ctxSetCache.
    split; [done|]. rewrite !(keeps_create _ _ _ _). unfold entryOf.
    rewrite (proj1 (ctxCache_ctxSetCache ctx _ _)).
    rewrite (cacheRow_cacheStore _ _ _ _ _ Hcs).
    split; [by intros ?; case_bool_decide|].
    exists r. split; [done|]. left. split; [done|]. intros ?. by case_bool_decide. }
  destruct (isSet (Delete row)).
  { intros [= <- <-]. rewrite (proj2 (hooks_client _ _ _ _)). split; [done|].
    rewrite !(keeps_delete_hook _ _ _ _). split; [done|]. eexists. split; [done|]. by right. }
  intros [= <- <-]. split; [done|]. split; [done|]. eexists. split; [done|].
  left. split; [done|]. intros Heq. injection Heq as -> ->. done.
Qed.

Lemma populateCache2Row_before (signal : bool) (t u : string) (row : RowUpdate2)
    (acc : option (ovndb * list (ovndb → ovndb))) :
  (t, u) ≠ (table, uuid) →
  before2 acc → before2 (populateCache2Row ctx dbName signal t u row acc).
Proof.
  intros Hne Hb. destruct acc as [[c deferred]|]; [|done].
  destruct (populateCache2Row _ _ _ _ _ _ _) as [[c' deferred']|] eqn:Hrow; [|done].
  destruct Hb as (Hv & Hcl & Hd).
  destruct (populateCache2Row_shape _ _ _ _ _ _ _ _ Hrow)
    as (Hcl' & Hother & r & _ & [[-> _]|(-> & _ & Hv')]).
  - split; [by rewrite Hother|]. split; [congruence|done].
  - split; [congruence|]. split; [congruence|].
    constructor; [|done]. by apply keeps_deleteRow.
Qed.

Lemma populateCache2Row_after (signal : bool) (t u : string) (row row0 : RowUpdate2)
    (acc : option (ovndb * list (ovndb → ovndb))) :
  (t, u) ≠ (table, uuid) →
  after2 row0 acc → after2 row0 (populateCache2Row ctx dbName signal t u row acc).
Proof.
  intros Hne Ha. destruct acc as [[c deferred]|]; [|done].
  destruct (populateCache2Row _ _ _ _ _ _ _) as [[c' deferred']|] eqn:Hrow; [|done].
  destruct Ha as (r0 & Hr0 & Hrun).
  destruct (populateCache2Row_shape _ _ _ _ _ _ _ _ Hrow)
    as (Hcl' & Hother & r & _ & [[-> _]|(-> & _ & Hv')]).
  - exists r0. split; [done|]. intros x Hx. apply Hrun. by rewrite Hx, Hother.
  - exists r0. split; [done|]. intros x Hx. simpl. apply Hrun.
    rewrite (keeps_deleteRow _ _ Hne). by rewrite Hx, Hv'.
Qed.

Lemma populateCache2Row_reached (signal : bool) (row : RowUpdate2)
    (acc : option (ovndb * list (ovndb → ovndb))) :
  before2 acc → after2 row (populateCache2Row ctx dbName signal table uuid row acc).
Proof.
  intros Hb. destruct acc as [[c deferred]|]; [|done].
  destruct (populateCache2Row _ _ _ _ _ _ _) as [[c' deferred']|] eqn:Hrow; [|done].
  destruct Hb as (Hv & Hcl & Hd).
  destruct (populateCache2Row_shape _ _ _ _ _ _ _ _ Hrow)
    as (Hcl' & _ & r & Hr & Hcase).
  fold (V c) in Hr. rewrite Hv in Hr.
  assert (Hschema : getSchema c dbName = getSchema odbi0 dbName).
  { unfold getSchema. by rewrite Hcl. }
  rewrite Hschema in Hr. exists r. split; [done|].
  destruct Hcase as [[-> Hv']|(-> & -> & Hv')].
  - intros x Hx. rewrite runDeferred_keeps by done. rewrite Hx. by apply Hv'.
  - intros x Hx. simpl. rewrite runDeferred_keeps by done.
    unfold entryOf. rewrite cacheRow_deleteRow. by rewrite bool_decide_eq_true_2.
Qed.

(** The two loops of [populateCache2], seen from one entry. *)
Lemma populateCache2_phases (signal : bool)
    (updates : gmap string (gmap string RowUpdate2))
    (B : option (ovndb * list (ovndb → ovndb)) → Prop)
    (A : RowUpdate2 → option (ovndb * list (ovndb → ovndb)) → Prop) :
  B None → (∀ r, A r None) →
  B (Some (odbi0, [])) →
  (∀ t x d, B (Some (x, d)) → B (Some (ensureTable ctx t x, d))) →
  (∀ r t x d, A r (Some (x, d)) → A r (Some (ensureTable ctx t x, d))) →
  (∀ t u row acc, (t, u) ≠ (table, uuid) →
     B acc → B (populateCache2Row ctx dbName signal t u row acc)) →
  (∀ r t u row acc, (t, u) ≠ (table, uuid) →
     A r acc → A r (populateCache2Row ctx dbName signal t u row acc)) →
  (∀ row acc, B acc → A row (populateCache2Row ctx dbName signal table uuid row acc)) →
  match updateOf2 (ctxTableCols ctx odbi0) updates table uuid with
  | Some row =>
      A row (map_fold (populateCache2Table ctx dbName signal updates) (Some (odbi0, []))
               (ctxTableCols ctx odbi0))
  | None =>
      B (map_fold (populateCache2Table ctx dbName signal updates) (Some (odbi0, []))
           (ctxTableCols ctx odbi0))
  end.
Proof.
  intros HBnone HAnone Hstart HensB HensA HrowB HrowA Hreach.
  set (final := match updates !! table ≫= (λ tableUpdate, tableUpdate !! uuid) with
                | Some row => A row
                | None => B
                end).
  assert (Hother : ∀ (P : option (ovndb * list (ovndb → ovndb)) → Prop) t cols acc,
            P None →
            (∀ x d, P (Some (x, d)) → P (Some (ensureTable ctx t x, d))) →
            (∀ u row acc, P acc → P (populateCache2Row ctx dbName signal t u row acc)) →
            P acc → P (populateCache2Table ctx dbName signal updates t cols acc)).
  { intros P t cols acc Hnone Hens Hrow Hacc. unfold populateCache2Table.
    destruct acc as [[x d]|]; [simpl|done].
    destruct (updates !! t) as [tableUpdate|]; [|done].
    apply map_fold_preserve; [by apply Hens|].
    intros u row r _ Hr. by apply Hrow. }
  pose proof (map_fold_two_phase (populateCache2Table ctx dbName signal updates)
                (Some (odbi0, [])) (ctxTableCols ctx odbi0) table B final) as Hfold.
  unfold updateOf2.
  destruct (ctxTableCols ctx odbi0 !! table) as [cols|] eqn:Hcols.
  - assert (Hfinal : final (map_fold (populateCache2Table ctx dbName signal updates)
                              (Some (odbi0, [])) (ctxTableCols ctx odbi0))).
    { apply Hfold.
      - done.
      - intros t cs r _ Hne Hr. apply Hother; [done|by apply HensB| |done].
        intros u row acc. apply HrowB. congruence.
      - intros t cs r _ Hne Hr. subst final.
        destruct (updates !! table ≫= _) as [row|].
        + apply Hother; [done|by apply HensA| |done].
          intros u row' acc. apply HrowA. congruence.
        + apply Hother; [done|by apply HensB| |done].
          intros u row' acc. apply HrowB. congruence.
      - intros cs r _ Hr. subst final. unfold populateCache2Table.
        destruct r as [[x d]|]; simpl.
        2: { by destruct (updates !! table ≫= _). }
        destruct (updates !! table) as [tableUpdate|] eqn:Hu; simpl; [|done].
        pose proof (map_fold_two_phase (populateCache2Row ctx dbName signal table)
                      (Some (ensureTable ctx table x, d)) tableUpdate uuid B
                      (match tableUpdate !! uuid with
                       | Some row => A row
                       | None => B
                       end)) as Hrows.
        destruct (tableUpdate !! uuid) as [row|] eqn:Hrow.
        + apply Hrows.
          * by apply HensB.
          * intros u row' acc _ Hne. apply HrowB. congruence.
          * intros u row' acc _ Hne. apply HrowA. congruence.
          * intros row' acc [= <-]. apply Hreach.
        + apply Hrows.
          * by apply HensB.
          * intros u row' acc _ Hne. apply HrowB. congruence.
          * intros u row' acc _ Hne. apply HrowB. congruence.
          * intros row' acc [=]. }
    subst final. by destruct (updates !! table ≫= _).
  - apply map_fold_preserve; [done|].
    intros t cs r Ht Hr. apply Hother; [done|by apply HensB| |done].
    intros u row acc. apply HrowB. congruence.
Qed.

Lemma populateCache2_entry (signal : bool)
    (updates : gmap string (gmap string RowUpdate2)) (c' : ovndb) :
  populateCache2 odbi0 dbName updates signal = Some c' →
  match updateOf2 (ctxTableCols ctx odbi0) updates table uuid with
  | Some row =>
      rowAfter2 (getSchema odbi0 dbName) table row (V odbi0) = Some (V c')
  | None => V c' = V odbi0
  end.
Proof.
  unfold populateCache2. intros Hp.
  pose proof (populateCache2_phases signal updates before2 after2) as Hph.
  assert (Hfinal :
    match updateOf2 (ctxTableCols ctx odbi0) updates table uuid with
    | Some row =>
        after2 row (map_fold (populateCache2Table ctx dbName signal updates)
                      (Some (odbi0, [])) (ctxTableCols ctx odbi0))
    | None =>
        before2 (map_fold (populateCache2Table ctx dbName signal updates)
                   (Some (odbi0, [])) (ctxTableCols ctx odbi0))
    end).
  { apply Hph; try done.
    - intros t x d (Hx & Hcl & Hd). split; [|split; [|done]].
      + unfold entryOf. by rewrite cacheRow_ensureTable.
      + unfold ensureTable. destruct (ctxCache ctx x !! t); [done|].
        by rewrite client_ctxSetCache.
    - intros r t x d (r0 & Hr0 & Hrun). exists r0. split; [done|].
      intros y Hy. apply Hrun. rewrite Hy. unfold entryOf. by rewrite cacheRow_ensureTable.
    - intros. by apply populateCache2Row_before.
    - intros. by apply populateCache2Row_after.
    - intros. by apply populateCache2Row_reached. }
  clear Hph.
  destruct (map_fold _ _ _) as [[c deferred]|]; simplify_eq/=.
  destruct (updateOf2 (ctxTableCols ctx odbi0) updates table uuid) as [row|].
  - destruct Hfinal as (r & Hr & Hrun). rewrite Hr. f_equal. symmetry. by apply Hrun.
  - destruct Hfinal as (Hv & _ & Hd). by rewrite runDeferred_keeps.
Qed.

(** *** The calls of the signal callbacks for an update2 batch *)

Lemma signals_delete_callHook (signal : bool) (t u : string) (x : ovndb) :
  signals (callHook signal (ctxDelete ctx) t u x)
  = signals x ++ if signalling odbi0 dbName signal then [Deleted t u] else [].
Proof.
  unfold getContext, callHook, signalling.
  case_bool_decide; destruct signal; destruct (signalCB odbi0); simpl;
    rewrite ?signals_disconnectIfFollower, ?app_nil_r; done.
Qed.

Lemma signals_ctxSetCache (v : gmap string (gmap string Row)) (x : ovndb) :
  signals (ctxSetCache ctx v x) = signals x.
Proof. apply (proj2 (ctxCache_ctxSetCache ctx v x)). Qed.

Lemma populateCache2Row_signals (signal : bool) (t u : string) (row : RowUpdate2)
    (c c' : ovndb) (deferred deferred' : list (ovndb → ovndb)) :
  populateCache2Row ctx dbName signal t u row (Some (c, deferred))
    = Some (c', deferred') →
  signals c' = signals c ++
    (if signalling odbi0 dbName signal
     then (if announcesCreate row (cacheRow (ctxCache ctx c) t u) then [Created t u]
           else if announcesDelete row then [Deleted t u] else [])
     else []) ∧
  (deferred' = deferred ∨ deferred' = deleteRow ctx t u :: deferred).
Proof.
  unfold populateCache2Row, announcesCreate, announcesDelete. simpl.
  destruct (isSet (Initial row)).
  { destruct (decide (float64_to_int (Initial row) = cacheRow (ctxCache ctx c) t u))
      as [Hsame|Hdiff].
    - rewrite (bool_decide_eq_true_2 _ Hsame).
      rewrite (bool_decide_eq_false_2 (_ ≠ _)) by (intros Hn; by apply Hn).
      intros [= <- <-]. split; [|by left]. simpl.
      destruct (signalling odbi0 dbName signal); by rewrite app_nil_r.
    - rewrite (bool_decide_eq_false_2 _ Hdiff).
      rewrite (bool_decide_eq_true_2 (_ ≠ _)) by done.
      destruct (getSchema c dbName) as [schema|]; [simpl|done].
      destruct (initMissingColumnsWithDefaults _ _ _) as [r|]; [simpl|done].
      intros [= <- <-]. split; [|by left].
      rewrite signals_create_hook. unfold storeRow. by rewrite signals_ctxSetCache. }
  destruct (isSet (Insert row)).
  { destruct (getSchema c dbName) as [schema|]; [simpl|done].
    destruct (initMissingColumnsWithDefaults _ _ _) as [r|]; [simpl|done].
    intros [= <- <-]. split; [|by left].
    rewrite signals_create_hook. unfold storeRow. by rewrite signals_ctxSetCache. }
  destruct (isSet (Modify row)).
  { destruct (applyUpdatesToRow _ _ _ _ _) as [cache'|]; [simpl|done].
    intros [= <- <-]. split; [|by left].
    rewrite signals_create_hook. by rewrite signals_ctxSetCache. }
  destruct (isSet (Delete row)).
  { intros [= <- <-]. split; [|by right]. by rewrite signals_delete_callHook. }
  intros [= <- <-]. split; [|by left]. simpl.
  destruct (signalling odbi0 dbName signal); by rewrite app_nil_r.
Qed.

Lemma silent_deleteRow (t u : string) : silent (deleteRow ctx t u).
Proof. intros x. unfold deleteRow. by rewrite signals_ctxSetCache. Qed.

Lemma announced_other (b : bool) (row : RowUpdate2) (cached : Row) (t u : string)
    (s : Signal) :
  s ≠ Created t u → s ≠ Deleted t u →
  s ∉ (if b
       then (if announcesCreate row cached then [Created t u]
             else if announcesDelete row then [Deleted t u] else [])
       else []).
Proof.
  intros Hc Hd. destruct b; [|apply not_elem_of_nil].
  destruct (announcesCreate row cached); [by intros ->%list_elem_of_singleton|].
  destruct (announcesDelete row); [by intros ->%list_elem_of_singleton|].
  apply not_elem_of_nil.
Qed.

Lemma populateCache2Row_sigBefore (signal : bool) (t u : string) (row : RowUpdate2)
    (acc : option (ovndb * list (ovndb → ovndb))) :
  (t, u) ≠ (table, uuid) →
  sigBefore2 acc → sigBefore2 (populateCache2Row ctx dbName signal t u row acc).
Proof.
  intros Hne Hb. destruct acc as [[c deferred]|]; [|done].
  destruct (populateCache2Row _ _ _ _ _ _ _) as [[c' deferred']|] eqn:Hrow; [|done].
  destruct Hb as [(added & Hsig & Hnc & Hnd) Hd].
  destruct (populateCache2Row_signals _ _ _ _ _ _ _ _ Hrow) as [Hsig' Hdef].
  split.
  - eexists. rewrite Hsig', Hsig, <-app_assoc. split; [done|].
    rewrite !elem_of_app. split; intros [?|Hin]; try done;
      revert Hin; apply announced_other; congruence.
  - destruct Hdef as [->| ->]; [done|]. constructor; [apply silent_deleteRow|done].
Qed.

Lemma populateCache2Row_sigAfter (signal : bool) (t u : string) (row row0 : RowUpdate2)
    (acc : option (ovndb * list (ovndb → ovndb))) :
  (t, u) ≠ (table, uuid) →
  sigAfter2 signal row0 acc →
  sigAfter2 signal row0 (populateCache2Row ctx dbName signal t u row acc).
Proof.
  intros Hne Ha. destruct acc as [[c deferred]|]; [|done].
  destruct (populateCache2Row _ _ _ _ _ _ _) as [[c' deferred']|] eqn:Hrow; [|done].
  destruct Ha as [(added & Hsig & Hc & Hdl) Hd].
  destruct (populateCache2Row_signals _ _ _ _ _ _ _ _ Hrow) as [Hsig' Hdef].
  split.
  - eexists. rewrite Hsig', Hsig, <-app_assoc. split; [done|].
    rewrite !elem_of_app, Hc, Hdl. split.
    + split; [|by left]. intros [?|Hin]; [done|]. exfalso.
      revert Hin. apply announced_other; congruence.
    + split; [|by left]. intros [?|Hin]; [done|]. exfalso.
      revert Hin. apply announced_other; congruence.
  - destruct Hdef as [->| ->]; [done|]. constructor; [apply silent_deleteRow|done].
Qed.

Lemma populateCache2Row_sigReached (signal : bool) (row : RowUpdate2)
    (acc : option (ovndb * list (ovndb → ovndb))) :
  before2 acc → sigBefore2 acc →
  sigAfter2 signal row (populateCache2Row ctx dbName signal table uuid row acc).
Proof.
  intros Hb Hs. destruct acc as [[c deferred]|]; [|done].
  destruct (populateCache2Row _ _ _ _ _ _ _) as [[c' deferred']|] eqn:Hrow; [|done].
  destruct Hb as (Hv & _ & _). destruct Hs as [(added & Hsig & Hnc & Hnd) Hd].
  destruct (populateCache2Row_signals _ _ _ _ _ _ _ _ Hrow) as [Hsig' Hdef].
  fold (V c) in Hsig'. rewrite Hv in Hsig'.
  split.
  - eexists. rewrite Hsig', Hsig, <-app_assoc. split; [done|].
    rewrite !elem_of_app.
    assert (Hexcl : announcesCreate row (V odbi0) = true → announcesDelete row = false).
    { unfold announcesCreate, announcesDelete.
      destruct (isSet (Initial row)); [done|].
      destruct (isSet (Insert row)); [done|]. by destruct (isSet (Modify row)). }
    destruct (signalling odbi0 dbName signal);
      [destruct (announcesCreate row (V odbi0)) eqn:Hcr;
         [rewrite (Hexcl eq_refl)|destruct (announcesDelete row)]|];
      rewrite ?list_elem_of_singleton, ?elem_of_nil;
      (split; (split; [intros [?|?]|intros [? ?]]));
      first [done|by right|by left].
  - destruct Hdef as [->| ->]; [done|]. constructor; [apply silent_deleteRow|done].
Qed.

Lemma populateCache2_signals_entry (signal : bool)
    (updates : gmap string (gmap string RowUpdate2)) (c' : ovndb) :
  populateCache2 odbi0 dbName updates signal = Some c' →
  ∃ added,
    signals c' = signals odbi0 ++ added ∧
    (Created table uuid ∈ added ↔
       signalling odbi0 dbName signal = true ∧
       ∃ row, updateOf2 (ctxTableCols ctx odbi0) updates table uuid = Some row ∧
              announcesCreate row (V odbi0) = true) ∧
    (Deleted table uuid ∈ added ↔
       signalling odbi0 dbName signal = true ∧
       ∃ row, updateOf2 (ctxTableCols ctx odbi0) updates table uuid = Some row ∧
              announcesDelete row = true).
Proof.
  unfold populateCache2. intros Hp.
  pose proof (populateCache2_phases signal updates
                (λ acc, before2 acc ∧ sigBefore2 acc) (sigAfter2 signal)) as Hph.
  assert (Hfinal :
    match updateOf2 (ctxTableCols ctx odbi0) updates table uuid with
    | Some row =>
        sigAfter2 signal row
          (map_fold (populateCache2Table ctx dbName signal updates)
             (Some (odbi0, [])) (ctxTableCols ctx odbi0))
    | None =>
        before2 (map_fold (populateCache2Table ctx dbName signal updates)
                   (Some (odbi0, [])) (ctxTableCols ctx odbi0)) ∧
        sigBefore2 (map_fold (populateCache2Table ctx dbName signal updates)
                      (Some (odbi0, [])) (ctxTableCols ctx odbi0))
    end).
  { apply Hph; try done.
    - split; [done|]. split; [|done]. exists []. rewrite app_nil_r.
      split; [done|]. split; apply not_elem_of_nil.
    - intros t x d [(Hx & Hcl & Hd) [Hs Hsd]]. split; [split; [|split; [|done]]|split].
      + unfold entryOf. by rewrite cacheRow_ensureTable.
      + unfold ensureTable. destruct (ctxCache ctx x !! t); [done|].
        by rewrite client_ctxSetCache.
      + by rewrite signals_ensureTable.
      + done.
    - intros r t x d [Hs Hsd]. split; [|done]. by rewrite signals_ensureTable.
    - intros t u row acc Hne [Hb Hs]. split;
        [by apply populateCache2Row_before|by apply populateCache2Row_sigBefore].
    - intros. by apply populateCache2Row_sigAfter.
    - intros row acc [Hb Hs]. by apply populateCache2Row_sigReached. }
  clear Hph.
  assert (Hrun : ∀ d x, Forall silent d → signals (runDeferred d x) = signals x).
  { intros d x Hd. revert x. unfold runDeferred.
    induction Hd as [|f d Hf _ IH]; intros x; simpl; [done|]. by rewrite IH, Hf. }
  destruct (map_fold _ _ _) as [[c deferred]|]; simplify_eq/=.
  destruct (updateOf2 (ctxTableCols ctx odbi0) updates table uuid) as [row|].
  - destruct Hfinal as [(added & Hsig & Hc & Hd) Hsil]. exists added.
    rewrite Hrun by done. split; [done|]. rewrite Hc, Hd. split.
    + split; [intros [? ?]; eauto|]. by intros (? & row' & [= <-] & ?).
    + split; [intros [? ?]; eauto|]. by intros (? & row' & [= <-] & ?).
  - destruct Hfinal as [_ [(added & Hsig & Hnc & Hnd) Hsil]]. exists added.
    rewrite Hrun by done. split; [done|]. split.
    + split; [done|]. by intros (_ & row & [=] & _).
    + split; [done|]. by intros (_ & row & [=] & _).
Qed.

End Entry.

(** After [populateCache] has processed a batch, every row that the batch
    names in a monitored table reads as the new content that the batch
    carries for it, numerically normalised; when that content is empty the
    row is gone (it reads as the zero row).  Every other entry of that
    database's cache reads as before. *)
Theorem populateCache_entries (odbi : ovndb) (dbName : string)
    (updates : gmap string (gmap string RowUpdate)) (signal : bool)
    (table uuid : string) :
  let ctx := getContext odbi dbName in
  cacheRow (ctxCache ctx (populateCache odbi dbName updates signal)) table uuid =
  match updateOf (ctxTableCols ctx odbi) updates table uuid with
  | Some row => float64_to_int (New row)
  | None => cacheRow (ctxCache ctx odbi) table uuid
  end.
Proof. intros ctx. apply populateCache_entry. Qed.

(** [populateCache2] treats the rows of a batch independently of each
    other and of the order in which Go visits them: when it returns, every
    row that the batch names in a monitored table reads as what its own
    notification makes of what the cache held for it (the initial or
    inserted content with the missing columns filled in, the cached row
    with the diff applied, no row after a delete), and every other entry
    of that database's cache reads as before. *)
Theorem populateCache2_entries (odbi c' : ovndb) (dbName : string)
    (updates : gmap string (gmap string RowUpdate2)) (signal : bool)
    (table uuid : string) :
  populateCache2 odbi dbName updates signal = Some c' →
  let ctx := getContext odbi dbName in
  match updateOf2 (ctxTableCols ctx odbi) updates table uuid with
  | Some row =>
      rowAfter2 (getSchema odbi dbName) table row (cacheRow (ctxCache ctx odbi) table uuid)
      = Some (cacheRow (ctxCache ctx c') table uuid)
  | None =>
      cacheRow (ctxCache ctx c') table uuid = cacheRow (ctxCache ctx odbi) table uuid
  end.
Proof. intros Hp ctx. by apply (populateCache2_entry odbi dbName table uuid signal). Qed.

(** The calls that [populateCache2] makes to the signal callbacks for one
    batch, whatever the order in which the rows are visited: a row of a
    monitored table gets a create call exactly when the batch carries for
    it initial content that the cache does not hold already, an insert or
    a modify, and a delete call exactly when the batch carries a delete
    for it.  No call is made when the caller does not ask for signals,
    when the callback interface is nil, or for the server database. *)
Theorem populateCache2_signals (odbi c' : ovndb) (dbName : string)
    (updates : gmap string (gmap string RowUpdate2)) (signal : bool) :
  populateCache2 odbi dbName updates signal = Some c' →
  ∃ added,
    signals c' = signals odbi ++ added ∧
    (signalling odbi dbName signal = false → added = []) ∧
    ∀ table uuid,
      (Created table uuid ∈ added ↔
         signalling odbi dbName signal = true ∧
         ∃ row, updateOf2 (tableCols odbi) updates table uuid = Some row ∧
                announcesCreate row (cacheRow (cache odbi) table uuid) = true) ∧
      (Deleted table uuid ∈ added ↔
         signalling odbi dbName signal = true ∧
         ∃ row, updateOf2 (tableCols odbi) updates table uuid = Some row ∧
                announcesDelete row = true).
Proof.
  intros Hp.
  destruct (populateCache2_signals_entry odbi dbName "" "" signal updates c' Hp)
    as (added & Hsig & _ & _).
  exists added. split; [done|].
  assert (Hentry : ∀ table uuid,
    (Created table uuid ∈ added ↔
       signalling odbi dbName signal = true ∧
       ∃ row, updateOf2 (ctxTableCols (getContext odbi dbName) odbi) updates table uuid
                = Some row ∧
              announcesCreate row
                (cacheRow (ctxCache (getContext odbi dbName) odbi) table uuid) = true) ∧
    (Deleted table uuid ∈ added ↔
       signalling odbi dbName signal = true ∧
       ∃ row, updateOf2 (ctxTableCols (getContext odbi dbName) odbi) updates table uuid
                = Some row ∧
              announcesDelete row = true)).
  { intros table uuid.
    destruct (populateCache2_signals_entry odbi dbName table uuid signal updates c' Hp)
      as (added' & Hsig' & Hc & Hd).
    rewrite Hsig in Hsig'. apply app_inv_head in Hsig'. by subst added'. }
  split.
  - intros Hoff. destruct added as [|[t u|t u] added]; [done| |].
    + destruct (proj1 (proj1 (Hentry t u)) (list_elem_of_here _ _)) as [Hon _].
      congruence.
    + destruct (proj1 (proj2 (Hentry t u)) (list_elem_of_here _ _)) as [Hon _].
      congruence.
  - intros table uuid.
    destruct (Hentry table uuid) as [Hc Hd]. rewrite Hc, Hd. clear Hc Hd Hentry.
    destruct (signalling odbi dbName signal) eqn:Hon.
    + assert (Hctx : ctxServer (getContext odbi dbName) = false).
      { unfold signalling in Hon. unfold getContext.
        case_bool_decide; [by rewrite andb_false_r in Hon|].
        by destruct (signalCB odbi). }
      unfold ctxTableCols, ctxCache. by rewrite Hctx.
    + split; (split; [by intros [? _]|by intros [? _]]).
Qed.

Lemma created_deleted_unique (cs ds cs' ds' : list Signal) :
  Forall isCreated cs → Forall isDeleted ds →
  Forall isCreated cs' → Forall isDeleted ds' →
  cs ++ ds = cs' ++ ds' → cs = cs' ∧ ds = ds'.
Proof.
  intros Hcs Hds Hcs'. revert cs Hcs.
  induction Hcs' as [|s' cs' Hs' _ IH]; intros cs Hcs Hds' Heq.
  - destruct Hcs as [|s cs Hs _]; [done|]. simpl in Heq. subst ds'.
    apply Forall_cons in Hds' as [Hd _]. by destruct s.
  - destruct Hcs as [|s cs Hs Hcs].
    + simpl in Heq. subst ds. apply Forall_cons in Hds as [Hd _]. by destruct s'.
    + injection Heq as -> Heq. destruct (IH cs Hcs Hds' Heq) as [-> ->]. done.
Qed.

(** The calls that [populateCache] makes to the signal callbacks for one
    batch: first the create calls, then, when the function returns, the
    delete calls.  A row gets a create call exactly when the batch carries
    non-empty content for it in a monitored table and that content differs
    from what the cache held; it gets a delete call exactly when the batch
    carries empty content for it.  No call is made when the caller does not
    ask for signals, when the callback interface is nil, or for the server
    database. *)
Theorem populateCache_signals (odbi : ovndb) (dbName : string)
    (updates : gmap string (gmap string RowUpdate)) (signal : bool) :
  ∃ cs ds,
    signals (populateCache odbi dbName updates signal) = signals odbi ++ cs ++ ds ∧
    Forall isCreated cs ∧ Forall isDeleted ds ∧
    (signalling odbi dbName signal = false → cs = [] ∧ ds = []) ∧
    ∀ table uuid,
      (Created table uuid ∈ cs ↔
         signalling odbi dbName signal = true ∧
         ∃ row, updateOf (tableCols odbi) updates table uuid = Some row ∧
                float64_to_int (New row) ≠ emptyRow ∧
                float64_to_int (New row) ≠ cacheRow (cache odbi) table uuid) ∧
      (Deleted table uuid ∈ ds ↔
         signalling odbi dbName signal = true ∧
         ∃ row, updateOf (tableCols odbi) updates table uuid = Some row ∧
                float64_to_int (New row) = emptyRow).
Proof.
  destruct (populateCache_signals_entry odbi dbName "" "" signal updates)
    as (cs & ds & Hsig & Hcs & Hds & _ & _).
  exists cs, ds. split; [done|]. split; [done|]. split; [done|].
  assert (Hentry : ∀ table uuid,
    (Created table uuid ∈ cs ↔
       signalling odbi dbName signal = true ∧
       ∃ row, updateOf (ctxTableCols (getContext odbi dbName) odbi) updates table uuid
                = Some row ∧
              float64_to_int (New row) ≠ emptyRow ∧
              float64_to_int (New row)
                ≠ cacheRow (ctxCache (getContext odbi dbName) odbi) table uuid) ∧
    (Deleted table uuid ∈ ds ↔
       signalling odbi dbName signal = true ∧
       ∃ row, updateOf (ctxTableCols (getContext odbi dbName) odbi) updates table uuid
                = Some row ∧
              float64_to_int (New row) = emptyRow)).
  { intros table uuid.
    destruct (populateCache_signals_entry odbi dbName table uuid signal updates)
      as (cs' & ds' & Hsig' & Hcs' & Hds' & Hc & Hd).
    rewrite Hsig in Hsig'. apply app_inv_head in Hsig'.
    destruct (created_deleted_unique cs ds cs' ds') as [-> ->]; done. }
  split.
  - intros Hoff. split.
    + destruct cs as [|[t u|t u] cs]; [done| |].
      * destruct (proj1 (proj1 (Hentry t u)) (list_elem_of_here _ _)) as [Hon _].
        congruence.
      * apply Forall_cons in Hcs as [[] _].
    + destruct ds as [|[t u|t u] ds]; [done| |].
      * apply Forall_cons in Hds as [[] _].
      * destruct (proj1 (proj2 (Hentry t u)) (list_elem_of_here _ _)) as [Hon _].
        congruence.
  - intros table uuid.
    destruct (Hentry table uuid) as [Hc Hd]. rewrite Hc, Hd. clear Hc Hd Hentry.
    destruct (signalling odbi dbName signal) eqn:Hon.
    + assert (Hctx : ctxServer (getContext odbi dbName) = false).
      { unfold signalling in Hon. unfold getContext.
        case_bool_decide; [by rewrite andb_false_r in Hon|].
        by destruct (signalCB odbi). }
      unfold ctxTableCols, ctxCache. by rewrite Hctx.
    + split; (split; [by intros [? _]|by intros [? _]]).
Qed.

(** ** What the initial dump leaves alone *)

Lemma onlyCacheOf_refl (ctx : context) (c : ovndb) : onlyCacheOf ctx c c.
Proof. unfold onlyCacheOf, ctxSetCache, ctxCache. by destruct c, (ctxServer ctx). Qed.

Lemma onlyCacheOf_set (ctx : context) (v : gmap string (gmap string Row)) (c0 c : ovndb) :
  onlyCacheOf ctx c0 c → onlyCacheOf ctx c0 (ctxSetCache ctx v c).
Proof.
  unfold onlyCacheOf. intros ->. rewrite !(proj1 (ctxCache_ctxSetCache ctx _ _)).
  unfold ctxSetCache. by destruct (ctxServer ctx).
Qed.

Lemma onlyCacheOf_ensureTable (ctx : context) (t : string) (c0 c : ovndb) :
  onlyCacheOf ctx c0 c → onlyCacheOf ctx c0 (ensureTable ctx t c).
Proof.
  intros Hc. unfold ensureTable. destruct (ctxCache ctx c !! t); [done|].
  by apply onlyCacheOf_set.
Qed.

Lemma onlyCacheOf_runDeferred (ctx : context) (c0 c : ovndb)
    (deferred : list (ovndb → ovndb)) :
  onlyCacheOf ctx c0 c →
  Forall (λ f, ∀ x, onlyCacheOf ctx c0 x → onlyCacheOf ctx c0 (f x)) deferred →
  onlyCacheOf ctx c0 (runDeferred deferred c).
Proof.
  intros Hc Hd. revert c Hc. unfold runDeferred.
  induction Hd as [|f deferred Hf _ IH]; intros c Hc; simpl; [done|].
  apply IH. by apply Hf.
Qed.

(** With [signal] false, as in the initial dump of [connectEndpoint],
    [populateCache2] and [populateCache] change nothing in the client
    object but the cache of the database they are given: the other cache,
    the table lists, the endpoint cursor, the disconnect request and the
    trace of signals are as before, and no callback is called. *)
Theorem populateCache_only_cache (odbi : ovndb) (dbName : string) :
  let ctx := getContext odbi dbName in
  (∀ updates,
     onlyCacheOf ctx odbi (populateCache odbi dbName updates false)) ∧
  (∀ updates c',
     populateCache2 odbi dbName updates false = Some c' → onlyCacheOf ctx odbi c').
Proof.
  intros ctx. split.
  - intros updates. unfold populateCache. fold ctx.
    set (inv := λ acc : ovndb * list (ovndb → ovndb),
      onlyCacheOf ctx odbi acc.1 ∧
      Forall (λ f, ∀ x, onlyCacheOf ctx odbi x → onlyCacheOf ctx odbi (f x)) acc.2).
    assert (Hinv : inv (map_fold (populateCacheTable ctx false updates) (odbi, [])
                          (ctxTableCols ctx odbi))).
    { apply map_fold_preserve.
      - split; [apply onlyCacheOf_refl|constructor].
      - intros table cols acc _ Hacc. unfold populateCacheTable.
        destruct (updates !! table) as [tableUpdate|]; [|done].
        apply map_fold_preserve.
        + destruct Hacc as [Hc Hd]. split; [|done]. by apply onlyCacheOf_ensureTable.
        + intros uuid row [c deferred] _ [Hc Hd]. unfold populateCacheRow.
          simpl in Hc, Hd.
          case_bool_decide; [case_bool_decide|]; split; simpl; try done.
          * unfold storeRow. by apply onlyCacheOf_set.
          * constructor; [|done]. intros x Hx. unfold deleteRow.
            by apply onlyCacheOf_set. }
    destruct (map_fold _ _ _) as [c deferred]. destruct Hinv as [Hc Hd].
    by apply onlyCacheOf_runDeferred.
  - intros updates c'. unfold populateCache2. fold ctx. intros Hp.
    set (inv := λ acc : option (ovndb * list (ovndb → ovndb)),
      match acc with
      | Some (c, deferred) =>
          onlyCacheOf ctx odbi c ∧
          Forall (λ f, ∀ x, onlyCacheOf ctx odbi x → onlyCacheOf ctx odbi (f x)) deferred
      | None => True
      end).
    assert (Hinv : inv (map_fold (populateCache2Table ctx dbName false updates)
                          (Some (odbi, [])) (ctxTableCols ctx odbi))).
    { apply map_fold_preserve.
      - split; [apply onlyCacheOf_refl|constructor].
      - intros table cols acc _ Hacc. unfold populateCache2Table.
        destruct acc as [[c deferred]|]; [|done]. simpl.
        destruct (updates !! table) as [tableUpdate|]; [|done].
        apply map_fold_preserve.
        + destruct Hacc as [Hc Hd]. split; [|done]. by apply onlyCacheOf_ensureTable.
        + intros uuid row [[c1 d1]|] _ Hr; [|done]. destruct Hr as [Hc Hd].
          unfold populateCache2Row, callHook, storeRow. simpl.
          destruct (isSet (Initial row)).
          { case_bool_decide; [done|].
            destruct (getSchema c1 dbName) as [schema|]; [simpl|done].
            destruct (initMissingColumnsWithDefaults _ _ _); [simpl|done].
            split; [|done]. by apply onlyCacheOf_set. }
          destruct (isSet (Insert row)).
          { destruct (getSchema c1 dbName) as [schema|]; [simpl|done].
            destruct (initMissingColumnsWithDefaults _ _ _); [simpl|done].
            split; [|done]. by apply onlyCacheOf_set. }
          destruct (isSet (Modify row)).
          { destruct (applyUpdatesToRow _ _ _ _ _); [simpl|done].
            split; [|done]. by apply onlyCacheOf_set. }
          destruct (isSet (Delete row)); [|done].
          split; [done|]. constructor; [|done]. intros x Hx. unfold deleteRow.
          by apply onlyCacheOf_set. }
    destruct (map_fold _ _ _) as [[c deferred]|]; simplify_eq/=.
    destruct Hinv as [Hc Hd]. by apply onlyCacheOf_runDeferred.
Qed.

End CacheProperties.

Section ConnectionProperties.
Context `{Names}.

(** ** What the outcome of connecting tells *)

Lemma connectLoop_outcome (Connect : string → option OvsdbClient) (rounds : nat)
    (c c' : ovndb) (r : option error) :
  curEndpoint c < length (endpoints c) →
  connectLoop Connect rounds c = Some (r, c') →
  ∃ new,
    endpoints c' = endpoints c ∧ db c' = db c ∧ dialed c' = dialed c ++ new ∧
    (∀ j, j < length new →
       new !! j = endpoints c !! ((curEndpoint c + j) mod length (endpoints c))) ∧
    match r with
    | Some e =>
        e = ErrConnectAll (db c) (endpoints c) ∧ length new = rounds ∧
        curEndpoint c' = (curEndpoint c + rounds) mod length (endpoints c) ∧
        (0 < rounds → client c' = None)
    | None =>
        0 < length new ≤ rounds ∧
        curEndpoint c' = (curEndpoint c + (length new - 1)) mod length (endpoints c)
    end.
Proof.
  revert c. induction rounds as [|rounds IH]; intros c Hcur Hloop; simpl in Hloop.
  - injection Hloop as <- <-. exists []. rewrite app_nil_r.
    split; [done|]. split; [done|]. split; [done|]. split; [simpl; intros; lia|].
    split; [done|]. split; [done|]. split; [|lia].
    by rewrite Nat.add_0_r, Nat.mod_small.
  - destruct (connectAttempt Connect c) as [[c1|c1]|] eqn:Hatt; simpl in Hloop; [| |done].
    + injection Hloop as <- <-.
      destruct (connectAttempt_inl _ _ _ Hatt) as (He & Hdb & Hcur1 & addr & Ha & Hd).
      exists [addr]. split; [done|]. split; [done|]. split; [done|]. split.
      * intros [|j] Hj; simpl in *; [|lia]. by rewrite Nat.add_0_r, Nat.mod_small.
      * simpl. split; [lia|]. by rewrite Nat.add_0_r, Nat.mod_small.
    + destruct (connectAttempt_inr _ _ _ Hatt) as (He & Hdb & Hcur1 & Hcl & addr & Ha & Hd).
      assert (Hstep : ∀ j, (curEndpoint c1 + j) mod length (endpoints c)
                           = (curEndpoint c + S j) mod length (endpoints c)).
      { intros j. rewrite Hcur1, Nat.Div0.add_mod_idemp_l. f_equal. lia. }
      destruct (IH c1) as (new & He' & Hdb' & Hd' & Hnew & Hr); [|done|].
      { rewrite He, Hcur1. apply Nat.mod_upper_bound. lia. }
      exists (addr :: new). split; [congruence|]. split; [congruence|].
      split; [by rewrite Hd', Hd, <-app_assoc|]. split.
      * intros [|j] Hj; simpl in *.
        -- by rewrite Nat.add_0_r, Nat.mod_small.
        -- rewrite Hnew, He, Hstep by lia. done.
      * destruct r as [e|].
        -- destruct Hr as (-> & Hlen & Hcur' & Hnil).
           split; [by rewrite Hdb, He|]. split; [simpl; lia|].
           split; [by rewrite Hcur', He, Hstep|]. intros _.
           destruct rounds as [|rounds]; [|apply Hnil; lia].
           simpl in Hloop. by injection Hloop as <-.
        -- destruct Hr as [Hlen Hcur']. split; [simpl; lia|].
           rewrite Hcur', He, Hstep. simpl. f_equal. lia.
Qed.

(** Whatever the endpoints answer, [connect] reports a failure only after
    it has dialed every endpoint exactly once, in cursor order; the error
    names the database and the endpoints, the cursor is back where it
    started and no client is left.  When it reports success it has dialed
    the endpoints in cursor order up to the one that succeeded, and the
    cursor rests on the address dialed last. *)
Theorem connect_outcome (Connect : string → option OvsdbClient) (c c' : ovndb)
    (r : option error) :
  curEndpoint c < length (endpoints c) →
  connect Connect c = Some (r, c') →
  endpoints c' = endpoints c ∧
  match r with
  | Some e =>
      e = ErrConnectAll (db c) (endpoints c) ∧
      dialed c' = dialed c ++ fromCursor (curEndpoint c) (endpoints c) ∧
      curEndpoint c' = curEndpoint c ∧
      client c' = None
  | None =>
      ∃ k, k < length (endpoints c) ∧
           dialed c' = dialed c ++ take (S k) (fromCursor (curEndpoint c) (endpoints c)) ∧
           curEndpoint c' = (curEndpoint c + k) mod length (endpoints c) ∧
           last (dialed c') = endpoints c' !! curEndpoint c'
  end.
Proof.
  intros Hcur Hconn. unfold connect in Hconn.
  destruct (connectLoop_outcome _ _ _ _ _ Hcur Hconn) as (new & He & Hdb & Hd & Hnew & Hr).
  split; [done|]. destruct r as [e|].
  - destruct Hr as (-> & Hlen & Hcur' & Hnil). split; [done|]. split; [|split].
    + rewrite Hd. f_equal.
      rewrite (fromCursor_prefix (endpoints c) new (curEndpoint c)); try done; try lia.
      rewrite Hlen. apply take_ge. unfold fromCursor.
      rewrite length_app, length_drop, length_take. lia.
    + rewrite Hcur'. replace (curEndpoint c + length (endpoints c))
        with (curEndpoint c + 1 * length (endpoints c)) by lia.
      rewrite Nat.Div0.mod_add. by apply Nat.mod_small.
    + apply Hnil. lia.
  - destruct Hr as [Hlen Hcur']. exists (length new - 1).
    split; [lia|]. split; [|split; [done|]].
    + rewrite Hd. f_equal. replace (S (length new - 1)) with (length new) by lia.
      apply fromCursor_prefix; try done; lia.
    + rewrite Hd, He, Hcur'. rewrite last_app.
      rewrite <-Hnew by lia. rewrite last_lookup.
      replace (pred (length new)) with (length new - 1) by lia.
      destruct (new !! (length new - 1)) eqn:Hl; [done|].
      apply lookup_ge_None in Hl. lia.
Qed.

(** ** The leader verdict *)

Lemma firstLeader_false_inv (dbName : string) (rows : list (string * Row)) :
  firstLeader dbName rows = false →
  ∃ u row, (u, row) ∈ rows ∧ rowLeader dbName row = Some false.
Proof.
  induction rows as [|[u row] rows IH]; simpl; [done|].
  destruct (rowLeader dbName row) as [leader|] eqn:Hr.
  - intros ->. exists u, row. split; [by left|done].
  - intros (u' & row' & Hin & Hr')%IH. exists u', row'. split; [by right|done].
Qed.

(** [serverIsLeader] answers false only when the cluster-membership table
    of the server cache holds a row that names the client's database, has
    the model "clustered" and the leader flag false.  Without that table,
    and without such a row, the server counts as the leader: a server
    whose membership is unknown is never refused. *)
Theorem serverIsLeader_false_only_if (c : ovndb) :
  (serverIsLeader c = false →
     ∃ t u row, serverCache c !! TableDatabase = Some t ∧ t !! u = Some row ∧
                rowSays (db c) true false row) ∧
  (serverCache c !! TableDatabase = None → serverIsLeader c = true) ∧
  (∀ t, serverCache c !! TableDatabase = Some t →
        (∀ u row, t !! u = Some row → ¬ rowSays (db c) true false row) →
        serverIsLeader c = true).
Proof.
  assert (Hfalse : serverIsLeader c = false →
     ∃ t u row, serverCache c !! TableDatabase = Some t ∧ t !! u = Some row ∧
                rowSays (db c) true false row).
  { unfold serverIsLeader.
    destruct (serverCache c !! TableDatabase) as [t|] eqn:Ht; [|done].
    intros (u & row & Hin & Hr)%firstLeader_false_inv.
    exists t, u, row. split; [done|]. split; [by apply elem_of_map_to_list|].
    by apply rowLeader_rowSays. }
  split; [done|]. split.
  - unfold serverIsLeader. by intros ->.
  - intros t Ht Hnone. destruct (serverIsLeader c) eqn:Hl; [done|].
    destruct (Hfalse eq_refl) as (t' & u & row & Ht' & Hu & Hsays).
    exfalso. apply (Hnone u row); congruence.
Qed.

(** ** The endpoint cursor *)

Lemma nextEndpoint_iter (c : ovndb) (k : nat) :
  endpoints c ≠ [] →
  Nat.iter (S k) nextEndpoint c =
  set_curEndpoint ((curEndpoint c + S k) mod length (endpoints c)) c.
Proof.
  intros Hne. induction k as [|k IH].
  - simpl. unfold nextEndpoint. by destruct (endpoints c).
  - change (Nat.iter (S (S k)) nextEndpoint c)
      with (nextEndpoint (Nat.iter (S k) nextEndpoint c)).
    rewrite IH. unfold nextEndpoint, set_curEndpoint. simpl.
    destruct (endpoints c) as [|e es] eqn:He; [done|]. rewrite <-He.
    f_equal. rewrite Nat.Div0.add_mod_idemp_l. f_equal. lia.
Qed.

(** [nextEndpoint] moves the cursor around the endpoint list and touches
    nothing else: after [k] steps it is [k] places further, modulo the
    number of endpoints, always inside the list, and after as many steps
    as there are endpoints the client object is what it was. *)
Theorem nextEndpoint_cycle (c : ovndb) (k : nat) :
  endpoints c ≠ [] →
  curEndpoint c < length (endpoints c) →
  Nat.iter k nextEndpoint c
    = set_curEndpoint ((curEndpoint c + k) mod length (endpoints c)) c ∧
  curEndpoint (Nat.iter k nextEndpoint c) < length (endpoints c) ∧
  endpoints (Nat.iter k nextEndpoint c) !! curEndpoint (Nat.iter k nextEndpoint c)
    = fromCursor (curEndpoint c) (endpoints c) !! (k mod length (endpoints c)) ∧
  Nat.iter (length (endpoints c)) nextEndpoint c = c.
Proof.
  intros Hne Hcur.
  assert (Hlen : 0 < length (endpoints c)) by lia.
  assert (Hiter : ∀ k, Nat.iter k nextEndpoint c
            = set_curEndpoint ((curEndpoint c + k) mod length (endpoints c)) c).
  { intros [|k']; [|by apply nextEndpoint_iter].
    simpl. rewrite Nat.add_0_r, Nat.mod_small by done. by destruct c. }
  split; [apply Hiter|]. rewrite !Hiter. simpl. split; [|split].
  - apply Nat.mod_upper_bound. lia.
  - rewrite fromCursor_lookup; [|done|apply Nat.mod_upper_bound; lia].
    by rewrite Nat.Div0.add_mod_idemp_r.
  - replace (curEndpoint c + length (endpoints c))
      with (curEndpoint c + 1 * length (endpoints c)) by lia.
    rewrite Nat.Div0.mod_add, Nat.mod_small by done. by destruct c.
Qed.

(** ** Which tables are monitored *)

Lemma checkTableCols_spec (tables : list string) (dbName : string)
    (requested : list (string * list string)) :
  match checkTableCols tables dbName requested with
  | None => ∀ t columns, (t, columns) ∈ requested → t ∈ tables ∧ columns = []
  | Some e =>
      (e = ErrColumnsNotSupported ∧
       ∃ t columns, (t, columns) ∈ requested ∧ t ∈ tables ∧ columns ≠ []) ∨
      (∃ t columns, e = ErrTableNotSupported t dbName ∧
                    (t, columns) ∈ requested ∧ t ∉ tables)
  end.
Proof.
  induction requested as [|[t columns] requested IH]; simpl.
  - intros ? ? []%elem_of_nil.
  - case_bool_decide as Ht.
    + case_bool_decide as Hc.
      * left. split; [done|]. exists t, columns. split; [by left|]. split; [done|].
        by destruct columns.
      * destruct (checkTableCols tables dbName requested) as [e|].
        -- destruct IH as [(-> & t' & cs & Hin & ? & ?)|(t' & cs & -> & Hin & ?)].
           ++ left. split; [done|]. exists t', cs. split; [by right|done].
           ++ right. exists t', cs. split; [done|]. split; [by right|done].
        -- intros t' cs [[= -> ->]|Hin]%elem_of_cons; [|by apply IH].
           split; [done|]. by destruct columns.
    + right. exists t, columns. split; [done|]. split; [by left|done].
Qed.

Lemma filterTablesFromSchema_elem (cl : OvsdbClient) (dbName t : string) :
  t ∈ filterTablesFromSchema cl dbName →
  is_Some (Tables (default (mkDatabaseSchema ∅) (Schema cl !! dbName)) !! t) ∧
  (dbName = DBNB ∧ t ∈ NBTablesOrder ∨
   dbName = DBSB ∧ t ∈ SBTablesOrder ∨
   dbName = DBServer ∧ t ∈ ServerTablesOrder).
Proof.
  unfold filterTablesFromSchema. rewrite list_elem_of_filter. intros [Hs Hin].
  split; [done|]. repeat case_bool_decide; try tauto. by apply elem_of_nil in Hin.
Qed.

(** A request for specific tables is checked before anything is sent to
    the server.  When it names a table that the library's table list for
    the database or the schema of the server lacks, or asks for specific
    columns of a table, [monitorTables] returns the matching error, sends
    nothing and leaves the client object as it was; otherwise every
    requested table is a table of the schema that the library knows, with
    no columns named, and the request goes out as given. *)
Theorem monitorTables_validation (c : ovndb) (dbName : string) (cl : OvsdbClient) :
  client c = Some cl →
  (if bool_decide (dbName = DBServer) then serverTableCols c else tableCols c) ≠ ∅ →
  let cols := if bool_decide (dbName = DBServer) then serverTableCols c else tableCols c in
  ((∃ e, monitorTables c dbName = Some (inr e, c) ∧
         ((e = ErrColumnsNotSupported ∧
           ∃ t columns, cols !! t = Some columns ∧ columns ≠ []) ∨
          (∃ t, e = ErrTableNotSupported t dbName ∧ is_Some (cols !! t) ∧
                t ∉ filterTablesFromSchema cl dbName))) ∨
   ((∀ t columns, cols !! t = Some columns →
       columns = [] ∧ t ∈ filterTablesFromSchema cl dbName ∧
       is_Some (Tables (default (mkDatabaseSchema ∅) (Schema cl !! dbName)) !! t)) ∧
    ∃ r c1, monitorTables c dbName = Some (r, c1) ∧
            tableCols c1 = tableCols c ∧ serverTableCols c1 = serverTableCols c ∧
            match r with
            | inl updates =>
                if bool_decide (dbName = DBServer)
                then Monitor2 cl dbName cols = (updates, None)
                else ∃ txn, Monitor3 cl dbName cols (currentTxn c) = (updates, txn, None)
            | inr e =>
                if bool_decide (dbName = DBServer)
                then (Monitor2 cl dbName cols).2 = Some e
                else (Monitor3 cl dbName cols (currentTxn c)).2 = Some e
            end)).
Proof.
  intros Hcl Hne cols. unfold monitorTables. rewrite Hcl. simpl.
  fold cols. rewrite (bool_decide_eq_true_2 (size cols ≠ 0))
    by (by rewrite map_size_empty_iff).
  pose proof (checkTableCols_spec (filterTablesFromSchema cl dbName) dbName
                (map_to_list cols)) as Hchk.
  destruct (checkTableCols _ _ _) as [e|].
  - left. exists e. split; [done|].
    destruct Hchk as [(-> & t & cs & Hin & Ht & Hcs)|(t & cs & -> & Hin & Ht)].
    + left. split; [done|]. exists t, cs. split; [by apply elem_of_map_to_list|done].
    + right. exists t. split; [done|]. split; [|done].
      exists cs. by apply elem_of_map_to_list.
  - right. split.
    + intros t columns Ht. apply elem_of_map_to_list in Ht.
      destruct (Hchk t columns Ht) as [Hin ->]. split; [done|]. split; [done|].
      by apply filterTablesFromSchema_elem.
    + subst cols. case_bool_decide as Hs.
      * destruct (Monitor2 cl dbName (serverTableCols c)) as [updates err] eqn:Hm.
        destruct err as [e|]; eexists _, _; (split; [done|]); done.
      * destruct (Monitor3 cl dbName (tableCols c) (currentTxn c))
          as [[updates txn] err] eqn:Hm.
        destruct err as [e|]; eexists _, _; (split; [done|]).
        -- done.
        -- split; [by case_bool_decide|]. split; [by case_bool_decide|]. by exists txn.
Qed.



End ConnectionProperties.

(** ** Executing commands *)

Lemma gatherOps_fold (cmds : list (option OvnCommand)) (ops : list Operation) :
  foldl gatherOps ops cmds = ops ++ allOperations cmds.
Proof.
  revert ops. induction cmds as [|cmd cmds IH]; intros ops; simpl.
  - by rewrite app_nil_r.
  - rewrite IH. unfold allOperations. simpl. destruct cmd; simpl; [|done].
    by rewrite <-app_assoc.
Qed.

Lemma gatherUUID_fold (results : list OperationResult) (UUIDs : list string) :
  foldl gatherUUID UUIDs results = UUIDs ++ createdUUIDs results.
Proof.
  revert UUIDs. induction results as [|r results IH]; intros UUIDs; simpl.
  - by rewrite app_nil_r.
  - rewrite IH. unfold createdUUIDs, gatherUUID. simpl. rewrite filter_cons.
    destruct (UUID r) as [|a u] eqn:Hu; simpl.
    + done.
    + by rewrite <-app_assoc.
Qed.

Lemma executeR_unfold (odbi : ovndb) (cmds : list (option OvnCommand)) :
  executeR odbi (Some cmds) =
  '(results, err, odbi') ← transact odbi (db odbi) (allOperations cmds);
  match err with
  | Some e => Some (None, Some e, odbi')
  | None =>
      Some (match createdUUIDs (default [] results) with
            | [] => None
            | ids => Some ids
            end, None, odbi')
  end.
Proof.
  unfold executeR. rewrite gatherOps_fold. simpl.
  destruct (transact _ _ _) as [[[results err] odbi']|]; [simpl|done].
  destruct err; [done|]. rewrite gatherUUID_fold. simpl.
  by destruct (createdUUIDs (default [] results)).
Qed.

(** [executeR] submits, as one transaction on the client's database, the
    operations of all its commands in order, nil commands left out.  When
    the server answers every operation without an error, the result is the
    non-empty identifiers of the reply in order, or nil when there is
    none; no error is returned and the client object is as before. *)
Theorem executeR_success (odbi : ovndb) (cmds : list (option OvnCommand))
    (cl : OvsdbClient) (reply : list OperationResult) :
  client odbi = Some cl →
  Transact cl (db odbi) (allOperations cmds) = (reply, None) →
  (∀ o, o ∈ reply → Error o = "") →
  length (allOperations cmds) ≤ length reply →
  executeR odbi (Some cmds) =
    Some (match createdUUIDs reply with [] => None | ids => Some ids end, None, odbi) ∧
  execute odbi (Some cmds) = Some (None, odbi) ∧
  length (createdUUIDs reply) ≤ length reply.
Proof.
  intros Hcl Ht Herr Hlen.
  assert (He : executeR odbi (Some cmds) =
    Some (match createdUUIDs reply with [] => None | ids => Some ids end, None, odbi)).
  { rewrite executeR_unfold. unfold transact, getClient. rewrite Hcl, Ht.
    rewrite firstError_None by done.
    rewrite bool_decide_eq_false_2 by lia. done. }
  split; [exact He|]. split.
  - unfold execute. by rewrite He.
  - unfold createdUUIDs. etrans; [apply length_filter|]. by rewrite length_fmap.
Qed.

(** Whatever the server answers, [executeR] never returns identifiers
    together with an error, and never an empty list of identifiers: the
    identifiers it returns are the non-empty ones of the reply to the one
    transaction it submitted, and then the client object is as before.
    Without arguments it returns at once and submits nothing. *)
Theorem executeR_ids_or_error (odbi odbi' : ovndb)
    (cmds : option (list (option OvnCommand)))
    (ids : option (list string)) (err : option error) :
  executeR odbi cmds = Some (ids, err, odbi') →
  (is_Some err → ids = None) ∧
  (cmds = None → ids = None ∧ err = None ∧ odbi' = odbi) ∧
  (∀ l, ids = Some l →
     l ≠ [] ∧ err = None ∧ odbi' = odbi ∧
     ∃ cl cmds', client odbi = Some cl ∧ cmds = Some cmds' ∧
       l = createdUUIDs (Transact cl (db odbi) (allOperations cmds')).1).
Proof.
  destruct cmds as [cmds|].
  - rewrite executeR_unfold. unfold transact, getClient.
    destruct (client odbi) as [cl|] eqn:Hcl; simpl.
    + destruct (Transact cl (db odbi) (allOperations cmds)) as [reply e] eqn:Ht.
      destruct e as [e|]; simpl.
      { intros [= <- <- <-]. split; [done|]. split; done. }
      destruct (firstError 0 (allOperations cmds) reply) as [e|]; simpl.
      { unfold close. rewrite Hcl. simpl. intros [= <- <- <-].
        split; [done|]. split; done. }
      case_bool_decide; simpl.
      { intros [= <- <- <-]. split; [done|]. split; done. }
      intros [= <- <- <-]. split; [by intros [? [=]]|]. split; [done|].
      intros l Hl. destruct (createdUUIDs reply) as [|u us] eqn:Hc; [done|].
      injection Hl as <-. split; [done|]. split; [done|]. split; [done|].
      exists cl, cmds. by rewrite Ht.
    + intros [= <- <- <-]. split; [done|]. split; done.
  - simpl. intros [= <- <- <-]. split; [done|]. split; done.
Qed.

(** After [disconnect] the client pointer is nil: every later call of
    [executeR] or [execute] with commands fails with the error that the
    client is disconnected, nothing is submitted and the client object
    stays as [disconnect] left it.  Disconnecting again changes nothing. *)
Theorem executeR_after_disconnect (odbi : ovndb) (cmds : list (option OvnCommand)) :
  client (disconnect odbi) = None ∧
  disconnect (disconnect odbi) = disconnect odbi ∧
  executeR (disconnect odbi) (Some cmds)
    = Some (None, Some ErrClientDisconnected, disconnect odbi) ∧
  execute (disconnect odbi) (Some cmds)
    = Some (Some ErrClientDisconnected, disconnect odbi) ∧
  GetSchema (disconnect odbi) = mkDatabaseSchema ∅.
Proof.
  assert (Hc : client (disconnect odbi) = None).
  { unfold disconnect. by destruct (client odbi) eqn:Hcl. }
  assert (He : executeR (disconnect odbi) (Some cmds)
               = Some (None, Some ErrClientDisconnected, disconnect odbi)).
  { rewrite executeR_unfold. unfold transact, getClient. by rewrite Hc. }
  split; [done|]. split; [|split; [done|split]].
  - unfold disconnect at 1. by rewrite Hc.
  - unfold execute. by rewrite He.
  - unfold GetSchema, getClient. by rewrite Hc.
Qed.

(** ** Which entry of the reply fails a transaction *)

Lemma firstError_at (i j : nat) (ops : list Operation) (reply : list OperationResult)
    (o : OperationResult) :
  reply !! j = Some o → Error o ≠ "" →
  (∀ j' o', j' < j → reply !! j' = Some o' → Error o' = "") →
  firstError i ops reply =
    Some (ErrTransactionFailed (Error o) (Details o)
            (match ops !! (i + j) with
             | Some op => OpsInfoOp op
             | None => commitTransactionText
             end)).
Proof.
  intros Hj Hne Hfirst.
  destruct (firstError_Some i ops reply) as (k & o' & Hk & Hne' & Hbefore & ->).
  { exists o. split; [by eapply list_elem_of_lookup_2|done]. }
  destruct (Nat.lt_trichotomy k j) as [Hlt|[->|Hgt]].
  - exfalso. apply Hne'. by eapply Hfirst.
  - by replace o' with o by congruence.
  - exfalso. apply Hne. by eapply Hbefore.
Qed.

(** The error of a failed transaction is that of the first entry of the
    reply that carries one, whatever follows it and however many entries
    the reply has: it gives the error and the details of that entry and
    names the operation at its position.  When the entry comes after the
    last operation, as the additional entry of a commit that failed does,
    the commit is named instead.  The connection is closed and no result
    is returned. *)
Theorem transact_first_error (odbi : ovndb) (db_ : string) (ops : list Operation)
    (cl : OvsdbClient) (reply : list OperationResult) (j : nat) (o : OperationResult) :
  client odbi = Some cl →
  Transact cl db_ ops = (reply, None) →
  reply !! j = Some o → Error o ≠ "" →
  (∀ j' o', j' < j → reply !! j' = Some o' → Error o' = "") →
  ∃ info,
    transact odbi db_ ops
      = Some (None, Some (ErrTransactionFailed (Error o) (Details o) info),
              set_client (Some (Disconnect cl)) odbi) ∧
    (∀ op, ops !! j = Some op → info = OpsInfoOp op) ∧
    (length ops ≤ j → info = commitTransactionText).
Proof.
  intros Hcl Hrpc Hj Hne Hfirst. unfold transact, getClient. rewrite Hcl, Hrpc.
  rewrite (firstError_at 0 j ops reply o Hj Hne Hfirst). simpl.
  unfold close. rewrite Hcl. simpl. eexists. split; [done|]. split.
  - by intros op ->.
  - intros Hlen. by rewrite lookup_ge_None_2.
Qed.

(** ** Maps and sets of strings *)

Lemma containsAll_spec (s : gmap Atom Atom) (t : list (Atom * Atom)) :
  containsAll s t = true ↔ ∀ tk tv, (tk, tv) ∈ t → s !! tk = Some tv.
Proof.
  induction t as [|[tk tv] t IH]; simpl.
  - split; [|done]. intros _ ? ? []%elem_of_nil.
  - destruct (s !! tk) as [sv|] eqn:Hs.
    + case_bool_decide as Hne.
      * split; [done|]. intros Hall. exfalso. apply Hne.
        specialize (Hall tk tv (list_elem_of_here _ _)). congruence.
      * assert (tv = sv) as -> by (by destruct (decide (tv = sv)); [|exfalso; auto]).
        rewrite IH. split.
        -- intros Hall k v [[= -> ->]|Hin]%elem_of_cons; [done|by apply Hall].
        -- intros Hall k v Hin. apply Hall. by right.
    + split; [done|]. intros Hall.
      specialize (Hall tk tv (list_elem_of_here _ _)). congruence.
Qed.

(** [oMapContians] answers true exactly when neither map is nil and every
    pair of [t] is a pair of [s]; so a nil map contains nothing and is
    contained in nothing, and a non-nil map contains itself and the empty
    map. *)
Theorem oMapContians_subseteq (s t : option (gmap Atom Atom)) :
  (oMapContians s t = true ↔ ∃ s' t', s = Some s' ∧ t = Some t' ∧ t' ⊆ s') ∧
  oMapContians None t = false ∧
  oMapContians s None = false ∧
  (∀ m, oMapContians (Some m) (Some m) = true) ∧
  (∀ m, oMapContians (Some m) (Some ∅) = true).
Proof.
  assert (Hiff : ∀ s t, oMapContians s t = true ↔
                        ∃ s' t', s = Some s' ∧ t = Some t' ∧ t' ⊆ s').
  { clear. intros [s|] [t|]; simpl.
    - rewrite containsAll_spec. split.
      + intros Hall. exists s, t. split; [done|]. split; [done|].
        apply map_subseteq_spec. intros k v Hk. apply Hall.
        by apply elem_of_map_to_list.
      + intros (s' & t' & [= <-] & [= <-] & Hsub) k v Hin.
        apply elem_of_map_to_list in Hin.
        by eapply lookup_weaken.
    - split; [done|]. by intros (? & ? & _ & ? & _).
    - split; [done|]. by intros (? & ? & ? & _).
    - split; [done|]. by intros (? & ? & ? & _). }
  split; [apply Hiff|]. split; [done|]. split; [by destruct s|]. split.
  - intros m. apply Hiff. by exists m, m.
  - intros m. apply Hiff. exists m, ∅. split; [done|]. split; [done|].
    apply map_empty_subseteq.
Qed.

Lemma gatherString_fold (oset : list Atom) (ret : list string) :
  foldl gatherString ret oset = ret ++ omap atomString oset.
Proof.
  revert ret. induction oset as [|a oset IH]; intros ret; simpl.
  - by rewrite app_nil_r.
  - rewrite IH. destruct a; simpl; try done; by rewrite <-app_assoc.
Qed.

(** [ConvertGoSetToStringArray] keeps, in order, the text of the strings
    and the identifiers of the set and drops every other element; a set
    made of strings gives these strings back.  [optionalStringFieldToPointer]
    gives the first of them, or nil; it reads a column in either form in
    which the cache holds a set of strings (a bare string when there is
    exactly one) as the first string, and a column of another kind as
    nil. *)
Theorem ConvertGoSetToStringArray_strings (oset : list Atom) :
  ConvertGoSetToStringArray oset = omap atomString oset ∧
  length (ConvertGoSetToStringArray oset) ≤ length oset ∧
  optionalStringFieldToPointer (VSet oset) = head (omap atomString oset) ∧
  (∀ l, ConvertGoSetToStringArray (AString <$> l) = l) ∧
  (∀ l, optionalStringFieldToPointer (NewOvsSet l) = head l) ∧
  (∀ l, optionalStringFieldToPointer (collapse (AString <$> l)) = head l) ∧
  (∀ m, optionalStringFieldToPointer (VMap m) = None) ∧
  optionalStringFieldToPointer VNil = None.
Proof.
  assert (Hconv : ∀ oset, ConvertGoSetToStringArray oset = omap atomString oset).
  { intros o. unfold ConvertGoSetToStringArray. by rewrite gatherString_fold. }
  assert (Hstr : ∀ l : list string, omap atomString (AString <$> l) = l).
  { induction l as [|x l IH]; [done|]. rewrite fmap_cons. simpl. by f_equal. }
  assert (Hptr : ∀ o, optionalStringFieldToPointer (VSet o) = head (omap atomString o)).
  { intros o. simpl. rewrite Hconv. by destruct (omap atomString o). }
  assert (Hlen : ∀ o, length (omap atomString o) ≤ length o).
  { induction o as [|a o IH]; [done|]. cbn. destruct (atomString a); cbn; lia. }
  split; [apply Hconv|]. split; [rewrite Hconv; apply Hlen|].
  split; [apply Hptr|]. split; [intros l; by rewrite Hconv, Hstr|].
  split; [intros l; unfold NewOvsSet; by rewrite Hptr, Hstr|].
  split; [|done].
  intros [|x [|y l]]; [done|done|].
  change (collapse (AString <$> x :: y :: l)) with (VSet (AString <$> x :: y :: l)).
  by rewrite Hptr, Hstr.
Qed.

(** ** Looking a row up by name *)

Lemma getRowUUIDs_rows (cache : gmap string (gmap string Row)) (table : string)
    (query : gmap string Value) (t : gmap string Row) :
  cache !! table = Some t →
  (∀ field_ value, query !! field_ = Some value → comparable value) →
  ∃ rows, getRowUUIDs cache table query = Some rows.*1 ∧
          ∀ u row, (u, row) ∈ rows ↔ t !! u = Some row ∧ rowMatches query row.
Proof.
  intros Ht Hc. unfold getRowUUIDs. rewrite Ht.
  assert (Hq : Forall (λ e, comparable e.2) (map_to_list query)).
  { apply Forall_forall. intros [f v] Hin%elem_of_map_to_list. by eapply Hc. }
  case_bool_decide as Hw.
  - exists (map_to_list t). rewrite collectRow_wildcard. split; [done|].
    intros u row. rewrite elem_of_map_to_list. subst query.
    split; [|tauto]. intros Hu. split; [done|]. intros f v Hf. by rewrite lookup_empty in Hf.
  - exists (filter (λ e, rowIsEqual e.2 (map_to_list query) = Some true) (map_to_list t)).
    rewrite collectRow_query by done. split; [done|].
    intros u row. rewrite list_elem_of_filter, elem_of_map_to_list. simpl.
    destruct (rowIsEqual_comparable row (map_to_list query) Hq) as (b & Hb & Hiff).
    rewrite Hb. unfold rowMatches. split.
    + intros [[= ->] Hu]. split; [done|]. intros f v Hf.
      apply (proj1 Hiff eq_refl). by apply elem_of_map_to_list.
    + intros [Hu Hm]. split; [|done]. f_equal. apply Hiff.
      intros f v Hin%elem_of_map_to_list. by apply Hm.
Qed.

Lemma getRowUUID_cases (cache : gmap string (gmap string Row)) (table : string)
    (query : gmap string Value) :
  (∀ field_ value, query !! field_ = Some value → comparable value) →
  ∃ uuid,
    getRowUUID cache table query = Some uuid ∧
    (cache !! table = None → uuid = "") ∧
    (∀ t, cache !! table = Some t →
       (∀ u row, t !! u = Some row → ¬ rowMatches query row) → uuid = "") ∧
    (∀ t u row, cache !! table = Some t → t !! u = Some row → rowMatches query row →
       ∃ row', t !! uuid = Some row' ∧ rowMatches query row').
Proof.
  intros Hc. unfold getRowUUID.
  destruct (cache !! table) as [t|] eqn:Ht.
  - destruct (getRowUUIDs_rows cache table query t Ht Hc) as (rows & Hr & Hrows).
    rewrite Hr. simpl. destruct rows as [|[u0 row0] rows]; simpl.
    + exists "". split; [done|]. split; [done|]. split; [done|].
      intros t' u row [= <-] Hu Hm. exfalso.
      eapply not_elem_of_nil, Hrows. by split.
    + exists u0. split; [done|]. split; [done|]. split.
      * intros t' [= <-] Hnone. exfalso.
        destruct (proj1 (Hrows u0 row0) (list_elem_of_here _ _)) as [Hu Hm].
        by eapply Hnone.
      * intros t' u row [= <-] _ _. exists row0.
        apply Hrows. by left.
  - exists "". unfold getRowUUIDs. rewrite Ht. simpl.
    split; [done|]. split; [done|]. split; [done|]. intros t u row [=].
Qed.

(** [getRowUUID] answers the empty string when the table is not cached or
    none of its rows matches the query, and otherwise the identifier of a
    cached row of the table that matches it. *)
Theorem getRowUUID_result (cache : gmap string (gmap string Row)) (table : string)
    (query : gmap string Value) :
  (∀ field_ value, query !! field_ = Some value → comparable value) →
  ∃ uuid,
    getRowUUID cache table query = Some uuid ∧
    (cache !! table = None → uuid = "") ∧
    (∀ t, cache !! table = Some t →
       (∀ u row, t !! u = Some row → ¬ rowMatches query row) → uuid = "") ∧
    (∀ t u row, cache !! table = Some t → t !! u = Some row → rowMatches query row →
       ∃ row', t !! uuid = Some row' ∧ rowMatches query row').
Proof. apply getRowUUID_cases. Qed.

(** ** Setting keys of a map column *)

Lemma mergeGiven_fold (kv : gmap string string) (a : Atom) :
  map_fold mergeGiven ∅ kv !! a =
  match a with
  | AString k => AString <$> kv !! k
  | _ => None
  end.
Proof.
  revert a. apply (map_fold_weak_ind (λ (r : gmap Atom Atom) (m : gmap string string),
    ∀ a, r !! a = match a with AString k => AString <$> m !! k | _ => None end)).
  - intros a. rewrite lookup_empty. destruct a; by rewrite ?lookup_empty.
  - intros k v m r Hk IH a. unfold mergeGiven.
    destruct (decide (a = AString k)) as [->|Hne].
    + by rewrite !lookup_insert_eq.
    + rewrite lookup_insert_ne by done. rewrite IH.
      destruct a as [| | |k'|]; try done.
      rewrite lookup_insert_ne by congruence. done.
Qed.

Lemma mergeCached_fold (kv : gmap string string) (given cachedMap : gmap Atom Atom) :
  (∀ k v, cachedMap !! k = Some v →
     ∃ ck, k = AString ck ∧ (kv !! ck = None → ∃ cv, v = AString cv)) →
  (∀ k, kv !! k = None → given !! AString k = None) →
  ∃ mergedMap,
    map_fold (mergeCached kv) (Some given) cachedMap = Some mergedMap ∧
    ∀ a, mergedMap !! a =
         match a with
         | AString k =>
             match kv !! k with
             | Some _ => given !! a
             | None => cachedMap !! a
             end
         | _ => given !! a
         end.
Proof.
  intros Hstr Hgiven. revert Hstr.
  apply (map_fold_weak_ind (λ (r : option (gmap Atom Atom)) (m : gmap Atom Atom),
    (∀ k v, m !! k = Some v →
       ∃ ck, k = AString ck ∧ (kv !! ck = None → ∃ cv, v = AString cv)) →
    ∃ mergedMap, r = Some mergedMap ∧
      ∀ a, mergedMap !! a =
           match a with
           | AString k =>
               match kv !! k with
               | Some _ => given !! a
               | None => m !! a
               end
           | _ => given !! a
           end)).
  - intros _. exists given. split; [done|]. intros a.
    destruct a as [| | |k|]; try done.
    destruct (kv !! k) eqn:Hk; [done|]. rewrite lookup_empty. by apply Hgiven.
  - intros k v m r Hk IH Hstr.
    destruct IH as (acc & -> & Hacc).
    { intros k' v' Hk'. apply Hstr. rewrite lookup_insert_ne; [done|].
      intros ->. congruence. }
    destruct (Hstr k v) as (ck & -> & Hv); [by rewrite lookup_insert_eq|].
    simpl. destruct (kv !! ck) as [given_v|] eqn:Hkv.
    + exists acc. split; [done|]. intros a. rewrite Hacc.
      destruct a as [| | |k'|]; try done.
      destruct (kv !! k') eqn:Hk'; [done|].
      rewrite lookup_insert_ne by congruence. done.
    + destruct (Hv eq_refl) as [cv ->].
      exists (<[AString ck := AString cv]> acc). split; [done|]. intros a.
      destruct (decide (a = AString ck)) as [->|Hne].
      * by rewrite Hkv, !lookup_insert_eq.
      * rewrite lookup_insert_ne by done. rewrite Hacc.
        destruct a as [| | |k'|]; try done.
        destruct (kv !! k') eqn:Hk'; [done|].
        by rewrite lookup_insert_ne by done.
Qed.

(** [auxKeyValSet] for a row that the lookup finds, with a map in the
    column: the command is one update of that row, by its identifier, which
    writes the whole column.  The map it writes holds every pair that the
    caller passed, every cached pair whose key the caller did not pass,
    and nothing else: passed keys are added or overwritten and no cached
    key is lost.  The cached keys must be strings, and so must the cached
    values under the keys that were not passed. *)
Theorem auxKeyValSet_merge (odbi : ovndb) (table rowName auxCol uuid : string)
    (kv : gmap string string) (cachedMap : gmap Atom Atom) :
  kv ≠ ∅ →
  getRowUUID (cache odbi) table {[ "name" := VAtom (AString rowName) ]} = Some uuid →
  fieldOrNil (cacheRow (cache odbi) table uuid) auxCol = VMap cachedMap →
  (∀ k v, cachedMap !! k = Some v →
     ∃ ck, k = AString ck ∧ (kv !! ck = None → ∃ cv, v = AString cv)) →
  ∃ mergedMap,
    auxKeyValSet odbi table rowName auxCol kv =
      Some (inl (mkOvnCommand
        [mkOperation opUpdate table
           (<[auxCol := VMap mergedMap]> {[ "name" := VAtom (AString rowName) ]})
           [] [NewCondition "_uuid" "==" (VAtom (AUUID uuid))]])) ∧
    (∀ k v, kv !! k = Some v → mergedMap !! AString k = Some (AString v)) ∧
    (∀ k, kv !! k = None → mergedMap !! AString k = cachedMap !! AString k) ∧
    (∀ a, (∀ k, a ≠ AString k) → mergedMap !! a = None).
Proof.
  intros Hkv Hu Hcol Hstr. unfold auxKeyValSet.
  rewrite bool_decide_eq_false_2 by (by rewrite map_size_empty_iff).
  rewrite Hu. simpl. rewrite Hcol.
  destruct (mergeCached_fold kv (map_fold mergeGiven ∅ kv) cachedMap Hstr)
    as (mergedMap & Hfold & Hlookup).
  { intros k Hk. by rewrite mergeGiven_fold, Hk. }
  rewrite Hfold. simpl. exists mergedMap. split; [done|]. split; [|split].
  - intros k v Hk. by rewrite Hlookup, Hk, mergeGiven_fold, Hk.
  - intros k Hk. by rewrite Hlookup, Hk.
  - intros a Ha. rewrite Hlookup, mergeGiven_fold.
    destruct a as [| | |k|]; try done. by destruct (Ha k).
Qed.

(** The errors of [auxKeyValSet].  An empty or nil key/value map is
    refused before the cache is read.  A row name that no cached row of
    the table matches is reported as a column that is not in the cache
    (the lookup answers the empty identifier, under which the table holds
    no row), and so is a row that lacks the column; a column whose value is
    not a map is refused as such.  In none of these cases is a command
    built. *)
Theorem auxKeyValSet_errors (odbi : ovndb) (table rowName auxCol : string)
    (kv : gmap string string) :
  auxKeyValSet odbi table rowName auxCol ∅ = Some (inr ErrKVNilOrEmpty) ∧
  (kv ≠ ∅ →
   (∀ t u row, cache odbi !! table = Some t → t !! u = Some row →
      ¬ rowMatches {[ "name" := VAtom (AString rowName) ]} row) →
   field (cacheRow (cache odbi) table "") auxCol = None →
   auxKeyValSet odbi table rowName auxCol kv
     = Some (inr (ErrColumnNotPresent table rowName auxCol))) ∧
  (kv ≠ ∅ →
   ∀ uuid,
     getRowUUID (cache odbi) table {[ "name" := VAtom (AString rowName) ]} = Some uuid →
     match fieldOrNil (cacheRow (cache odbi) table uuid) auxCol with
     | VNil =>
         auxKeyValSet odbi table rowName auxCol kv
           = Some (inr (ErrColumnNotPresent table rowName auxCol))
     | VAtom _ | VSet _ =>
         auxKeyValSet odbi table rowName auxCol kv
           = Some (inr (ErrColumnNotMap table rowName auxCol))
     | VMap _ => True
     end).
Proof.
  split; [done|]. split.
  - intros Hkv Hnone Hcol. unfold auxKeyValSet.
    rewrite bool_decide_eq_false_2 by (by rewrite map_size_empty_iff).
    destruct (getRowUUID_cases (cache odbi) table {[ "name" := VAtom (AString rowName) ]})
      as (uuid & Hu & Hmiss & Hempty & _).
    { intros f v [_ <-]%lookup_singleton_Some. exact I. }
    rewrite Hu. simpl.
    assert (uuid = "") as ->.
    { destruct (cache odbi !! table) as [t|] eqn:Ht; [|by apply Hmiss].
      apply (Hempty t eq_refl). intros u row. by apply Hnone. }
    unfold fieldOrNil. by rewrite Hcol.
  - intros Hkv uuid Hu. unfold auxKeyValSet.
    rewrite bool_decide_eq_false_2 by (by rewrite map_size_empty_iff).
    rewrite Hu. simpl.
    by destruct (fieldOrNil (cacheRow (cache odbi) table uuid) auxCol).
Qed.

(** ** Applying a set diff twice *)

(** The toggle of a set column is its own inverse: a diff of distinct
    elements applied to a set without duplicates, and applied again to what
    the cache then holds (a bare element when one is left), gives back the
    elements the set had, possibly in another order. *)
Theorem modifySet_twice (s inc : list Atom) :
  NoDup s → NoDup inc →
  ∃ nv nv',
    modifySet (VSet s) (VSet inc) = Some nv ∧
    modifySet (collapse nv) (VSet inc) = Some nv' ∧
    nv' ≡ₚ s.
Proof.
  intros Hs Hinc.
  destruct (foldl_updateSetWithElem_NoDup inc s Hs Hinc) as [Hnd Hmem].
  destruct (foldl_updateSetWithElem_NoDup inc _ Hnd Hinc) as [Hnd' Hmem'].
  exists (foldl updateSetWithElem s inc),
         (foldl updateSetWithElem (foldl updateSetWithElem s inc) inc).
  split; [done|]. split.
  - by destruct (foldl updateSetWithElem s inc) as [|x [|y l]].
  - apply NoDup_Permutation; [done|done|].
    intros x. rewrite Hmem', Hmem.
    destruct (decide (x ∈ s)); destruct (decide (x ∈ inc)); tauto.
Qed.

(** ** Default synthesis, again *)

(** [initMissingColumnsWithDefaults] panics exactly on a row whose field
    map is nil when the table has a column.  Otherwise the row it leaves
    has every column of the table, and a second pass changes nothing. *)
Theorem initMissingColumnsWithDefaults_idempotent (schema : DatabaseSchema)
    (table : string) (row : Row) :
  (initMissingColumnsWithDefaults schema table row = None ↔
     Fields row = None ∧ tableColumns schema table ≠ ∅) ∧
  ∀ row', initMissingColumnsWithDefaults schema table row = Some row' →
    initMissingColumnsWithDefaults schema table row' = Some row' ∧
    (Fields row' = None ↔ Fields row = None) ∧
    ∀ column, is_Some (tableColumns schema table !! column) →
              is_Some (field row' column).
Proof.
  unfold initMissingColumnsWithDefaults. destruct row as [[f|]]; simpl.
  - split; [split; [done|by intros [? _]]|].
    intros row' [= <-]. simpl. split; [|split; [done|]].
    + do 3 f_equal. apply map_eq. intros column.
      rewrite !initColumn_fold_lookup.
      destruct (f !! column); [done|]. by destruct (tableColumns schema table !! column).
    + intros column [cs Hcs]. unfold field. simpl.
      rewrite initColumn_fold_lookup, Hcs. by destruct (f !! column).
  - case_bool_decide as He.
    + split; [split; [done|by intros [_ ?]]|].
      intros row' [= <-]. simpl.
      split; [done|]. split; [done|]. intros column [cs Hcs].
      rewrite He, lookup_empty in Hcs. done.
    + split; [done|]. intros row' [=].
Qed.

Section NewClientProperties.
Context `{Names}.

(** ** Creating a client *)




(** ** A follower at run time *)

Lemma disconnectIfFollower_iter (c : ovndb) (uuid : string) (k : nat) :
  leaderOnly c = true → serverIsLeader c = false → endpoints c ≠ [] →
  Nat.iter (S k) (disconnectIfFollower TableDatabase uuid) c =
  set_disconnSig true
    (set_curEndpoint ((curEndpoint c + S k) mod length (endpoints c)) c).
Proof.
  intros Hlo Hfl Hne.
  assert (Hstep : ∀ x, leaderOnly x = true → serverIsLeader x = false →
            disconnectIfFollower TableDatabase uuid x = requestDisconnect (nextEndpoint x)).
  { intros x Hx1 Hx2. unfold disconnectIfFollower.
    by rewrite bool_decide_eq_true_2, Hx1, Hx2 by done. }
  induction k as [|k IH].
  - simpl. rewrite Hstep by done.
    unfold requestDisconnect, nextEndpoint. destruct (endpoints c) eqn:He; [done|].
    by rewrite <-He.
  - change (Nat.iter (S (S k)) (disconnectIfFollower TableDatabase uuid) c)
      with (disconnectIfFollower TableDatabase uuid
              (Nat.iter (S k) (disconnectIfFollower TableDatabase uuid) c)).
    rewrite IH. rewrite Hstep; [|done|].
    + assert (Hnext : ∀ n, requestDisconnect
                (nextEndpoint (set_disconnSig true (set_curEndpoint n c)))
              = set_disconnSig true
                  (set_curEndpoint ((n + 1) mod length (endpoints c)) c)).
      { intros n. unfold requestDisconnect, nextEndpoint. simpl.
        by destruct (endpoints c). }
      rewrite Hnext. do 2 f_equal.
      rewrite Nat.Div0.add_mod_idemp_l. f_equal. lia.
    + rewrite <-Hfl. unfold serverIsLeader. done.
Qed.

(** A leader-only client that learns, from a row of the cluster-membership
    table, that its server is a follower: [disconnectIfFollower] moves the
    cursor to the next endpoint and leaves a disconnect request, touching
    nothing else; the goroutine of [NewClient] then drops the client, after
    which commands fail as disconnected, while both caches survive.  Every
    further call on the follower moves the cursor once more, but the
    request is queued once.  For any other table, or a client that is not
    leader-only, or a leader, the call does nothing. *)
Theorem disconnectIfFollower_follower (c : ovndb) (uuid : string) :
  (leaderOnly c = true → serverIsLeader c = false → endpoints c ≠ [] →
   (∀ k, Nat.iter (S k) (disconnectIfFollower TableDatabase uuid) c =
           set_disconnSig true
             (set_curEndpoint ((curEndpoint c + S k) mod length (endpoints c)) c)) ∧
   let c' := handleDisconnSig (disconnectIfFollower TableDatabase uuid c) in
   client c' = None ∧ disconnSig c' = false ∧
   curEndpoint c' = (curEndpoint c + 1) mod length (endpoints c) ∧
   cache c' = cache c ∧ serverCache c' = serverCache c ∧
   ∀ cmds, executeR c' (Some cmds) = Some (None, Some ErrClientDisconnected, c')) ∧
  (∀ table, table ≠ TableDatabase ∨ leaderOnly c = false ∨ serverIsLeader c = true →
            disconnectIfFollower table uuid c = c) ∧
  (disconnSig c = false → handleDisconnSig c = c).
Proof.
  split; [|split].
  - intros Hlo Hfl Hne.
    pose proof (disconnectIfFollower_iter c uuid 0 Hlo Hfl Hne) as H0.
    simpl Nat.iter in H0. split; [intros k; by apply disconnectIfFollower_iter|].
    rewrite H0. clear H0.
    assert (Hexec : ∀ x cmds, client x = None →
              executeR x (Some cmds) = Some (None, Some ErrClientDisconnected, x)).
    { intros x cmds Hx. rewrite executeR_unfold. unfold transact, getClient.
      by rewrite Hx. }
    assert (Hcl : ∀ x, client (disconnect x) = None).
    { intros x. unfold disconnect. by destruct (client x) eqn:Hx. }
    unfold handleDisconnSig. cbn [disconnSig set_disconnSig].
    split; [apply Hcl|].
    split; [|split; [|split; [|split]]].
    5: { intros cmds. apply Hexec, Hcl. }
    all: unfold disconnect; by destruct (client _).
  - intros table Hno. unfold disconnectIfFollower.
    destruct Hno as [Hne|[Hlo|Hl]].
    + by rewrite bool_decide_eq_false_2.
    + by rewrite Hlo, andb_false_r.
    + by rewrite Hl, andb_false_r.
  - intros Hsig. unfold handleDisconnSig. by rewrite Hsig.
Qed.

(** ** What a key/value deletion asks for *)


End NewClientProperties.

(** ** Utilities of the controller *)

Lemma string_length_app (s1 s2 : string) :
  String.length (s1 +:+ s2) = String.length s1 + String.length s2.
Proof. induction s1 as [|c s1 IH]; simpl; [done|]. by rewrite IH. Qed.

Lemma substring_all (s : string) (m : nat) :
  String.length s ≤ m → String.substring 0 m s = s.
Proof.
  revert m. induction s as [|c s IH]; intros m Hm; simpl.
  - by destruct m.
  - destruct m as [|m]; simpl in *; [lia|]. rewrite IH; [done|lia].
Qed.

Lemma substring_length_le (s : string) (m : nat) :
  String.length (String.substring 0 m s) ≤ m.
Proof.
  revert m. induction s as [|c s IH]; intros m; simpl.
  - destruct m; simpl; lia.
  - destruct m as [|m]; simpl; [lia|]. specialize (IH m). lia.
Qed.

Lemma prefix_app (p s : string) : String.prefix p (p +:+ s) = true.
Proof.
  induction p as [|c p IH]; simpl; [by destruct s|].
  destruct (Ascii.ascii_dec c c); [exact IH|done].
Qed.

Lemma prefix_split (p s : string) :
  String.prefix p s = true → ∃ r, s = p +:+ r.
Proof.
  revert s. induction p as [|c p IH]; intros s Hp.
  - by exists s.
  - destruct s as [|c' s]; simpl in Hp; [done|].
    destruct (Ascii.ascii_dec c c') as [->|]; [|done].
    destruct (IH s Hp) as [r ->]. by exists r.
Qed.

Lemma substring_skip_app (p s : string) :
  String.substring (String.length p) (String.length (p +:+ s) - String.length p) (p +:+ s) = s.
Proof.
  induction p as [|c p IH]; simpl.
  - rewrite Nat.sub_0_r. by apply substring_all.
  - exact IH.
Qed.

Lemma TrimPrefix_app (p s : string) : TrimPrefix (p +:+ s) p = s.
Proof. unfold TrimPrefix. rewrite prefix_app. apply substring_skip_app. Qed.

(** The worker switch name that is read off a gateway router name is the
    node the router name was made from; a name that does not start with
    the prefix is returned as it is, and one that does is the prefix
    followed by the result. *)
Theorem GetWorkerFromGatewayRouter_inverse (GWRouterPrefix : string) :
  (∀ node,
     GetWorkerFromGatewayRouter GWRouterPrefix
       (GetGatewayRouterFromNode GWRouterPrefix node) = node) ∧
  (∀ gr, String.prefix GWRouterPrefix gr = true →
         GetGatewayRouterFromNode GWRouterPrefix
           (GetWorkerFromGatewayRouter GWRouterPrefix gr) = gr) ∧
  (∀ gr, String.prefix GWRouterPrefix gr = false →
         GetWorkerFromGatewayRouter GWRouterPrefix gr = gr).
Proof.
  unfold GetWorkerFromGatewayRouter, GetGatewayRouterFromNode. split; [|split].
  - intros node. apply TrimPrefix_app.
  - intros gr [r ->]%prefix_split. by rewrite TrimPrefix_app.
  - intros gr Hp. unfold TrimPrefix. by rewrite Hp.
Qed.

(** The legacy management port name is the prefix followed by the first
    11 bytes of the node name: it is never longer than the prefix plus 11
    bytes, a name of at most 11 bytes is kept whole, and two nodes get the
    same port name exactly when their names agree on the first 11 bytes. *)
Theorem GetLegacyK8sMgmtIntfName_truncates (K8sPrefix : string) :
  (∀ nodeName,
     GetLegacyK8sMgmtIntfName K8sPrefix nodeName
       = K8sPrefix +:+ String.substring 0 11 nodeName ∧
     String.length (GetLegacyK8sMgmtIntfName K8sPrefix nodeName)
       ≤ String.length K8sPrefix + 11 ∧
     String.prefix K8sPrefix (GetLegacyK8sMgmtIntfName K8sPrefix nodeName) = true ∧
     (String.length nodeName ≤ 11 →
        GetLegacyK8sMgmtIntfName K8sPrefix nodeName = K8sPrefix +:+ nodeName)) ∧
  (∀ n1 n2,
     GetLegacyK8sMgmtIntfName K8sPrefix n1 = GetLegacyK8sMgmtIntfName K8sPrefix n2 ↔
     String.substring 0 11 n1 = String.substring 0 11 n2).
Proof.
  assert (Heq : ∀ nodeName, GetLegacyK8sMgmtIntfName K8sPrefix nodeName
                            = K8sPrefix +:+ String.substring 0 11 nodeName).
  { intros nodeName. unfold GetLegacyK8sMgmtIntfName. case_bool_decide; [done|].
    rewrite substring_all; [done|lia]. }
  split.
  - intros nodeName. split; [apply Heq|]. rewrite Heq. split; [|split].
    + rewrite string_length_app. pose proof (substring_length_le nodeName 11). lia.
    + apply prefix_app.
    + intros Hl. by rewrite substring_all.
  - intros n1 n2. rewrite !Heq. split; [|by intros ->].
    intros Happ. by apply (inj (String.app K8sPrefix)) in Happ.
Qed.

(** *** The hash of a name *)

Lemma fnvWrite_range (s : string) (h : Z) :
  (0 ≤ h < 2 ^ 64)%Z → (0 ≤ fnvWrite h s < 2 ^ 64)%Z.
Proof.
  revert h. induction s as [|c s IH]; intros h Hh; simpl; [done|].
  apply IH. unfold fnvStep. apply Z.mod_pos_bound. lia.
Qed.

Lemma digitChar_code (d : Z) :
  (0 ≤ d < 10)%Z → Ascii.nat_of_ascii (digitChar d) = 48 + Z.to_nat d.
Proof. intros Hd. unfold digitChar. apply Ascii.nat_ascii_embedding. lia. Qed.

Lemma allDigits_app (s t : string) :
  allDigits s → allDigits t → allDigits (s +:+ t).
Proof. induction s as [|c s IH]; simpl; [done|]. intros [Hc Hs] Ht. auto. Qed.

Lemma parseDigits_app (s t : string) (acc : Z) :
  parseDigits acc (s +:+ t) = parseDigits (parseDigits acc s) t.
Proof. revert acc. induction s as [|c s IH]; intros acc; simpl; [done|]. apply IH. Qed.

Lemma formatDigits_sound (fuel : nat) (n : Z) :
  0 < fuel → (0 ≤ n < 10 ^ Z.of_nat fuel)%Z →
  allDigits (formatDigits fuel n) ∧
  1 ≤ String.length (formatDigits fuel n) ≤ fuel ∧
  ∀ acc, parseDigits acc (formatDigits fuel n) = (10 ^ 0 * 0 + acc * 10 ^
           Z.of_nat (String.length (formatDigits fuel n)) + n)%Z.
Proof.
  revert n. induction fuel as [|fuel IH]; intros n Hf Hn; [lia|]. simpl.
  case_bool_decide as Hlt.
  - simpl. split; [|split].
    + split; [|done]. unfold isDigit. rewrite digitChar_code by lia. lia.
    + lia.
    + intros acc. rewrite digitChar_code by lia. lia.
  - assert (Hfuel : 0 < fuel).
    { destruct fuel; [|lia]. simpl in Hn. lia. }
    assert (Hdiv : (0 ≤ n / 10 < 10 ^ Z.of_nat fuel)%Z).
    { split; [apply Z.div_pos; lia|]. apply Z.div_lt_upper_bound; [lia|].
      replace (Z.of_nat (S fuel)) with (Z.succ (Z.of_nat fuel)) in Hn by lia.
      rewrite Z.pow_succ_r in Hn by lia. lia. }
    destruct (IH (n / 10)%Z Hfuel Hdiv) as (Hall & Hlen & Hparse).
    assert (Hmod : (0 ≤ n mod 10 < 10)%Z) by (apply Z.mod_pos_bound; lia).
    split; [|split].
    + apply allDigits_app; [done|]. simpl. split; [|done].
      unfold isDigit. rewrite digitChar_code by done. lia.
    + rewrite string_length_app. simpl. lia.
    + intros acc. rewrite parseDigits_app, Hparse. simpl.
      rewrite digitChar_code by done. rewrite string_length_app. simpl.
      replace (Z.of_nat (String.length (formatDigits fuel (n / 10)) + 1))
        with (Z.succ (Z.of_nat (String.length (formatDigits fuel (n / 10))))) by lia.
      rewrite Z.pow_succ_r by lia.
      pose proof (Z.div_mod n 10 ltac:(lia)). lia.
Qed.

(** The name made by [HashForOVN] is the letter [a] followed by the
    decimal digits of the 64-bit FNV-1a sum of the input: between 1 and 20
    digits and nothing else, which read back give the sum. *)
Theorem HashForOVN_format (s : string) :
  ∃ digits,
    HashForOVN s = "a" +:+ digits ∧
    allDigits digits ∧
    1 ≤ String.length digits ≤ 20 ∧
    parseDigits 0 digits = Sum64a s ∧
    (0 ≤ Sum64a s < 2 ^ 64)%Z.
Proof.
  assert (Hr : (0 ≤ Sum64a s < 2 ^ 64)%Z).
  { apply fnvWrite_range. unfold offset64. lia. }
  destruct (formatDigits_sound 20 (Sum64a s)) as (Hall & Hlen & Hparse); [lia|lia|].
  exists (FormatUint (Sum64a s)). split; [done|]. split; [done|]. split; [done|].
  split; [|done]. unfold FormatUint. rewrite Hparse. lia.
Qed.

(** *** Slices of addresses *)

Lemma firstOfFamily_Some (isIPv6 : string → bool) (old6 : bool)
    (newIPs : list string) (newIP : string) :
  firstOfFamily isIPv6 old6 newIPs = Some newIP →
  ∃ i, newIPs !! i = Some newIP ∧ isIPv6 newIP = old6 ∧
       ∀ j x, j < i → newIPs !! j = Some x → isIPv6 x ≠ old6.
Proof.
  induction newIPs as [|x newIPs IH]; simpl; [done|].
  destruct old6; destruct (isIPv6 x) eqn:Hx; simpl.
  - intros [= <-]. exists 0. split; [done|]. split; [done|]. intros; lia.
  - intros (i & Hi & H6 & Hfirst)%IH. exists (S i). split; [done|]. split; [done|].
    intros [|j] y Hj Hy; simpl in Hy; [by injection Hy as <-; rewrite Hx|].
    eapply Hfirst; [|done]. lia.
  - intros (i & Hi & H6 & Hfirst)%IH. exists (S i). split; [done|]. split; [done|].
    intros [|j] y Hj Hy; simpl in Hy; [by injection Hy as <-; rewrite Hx|].
    eapply Hfirst; [|done]. lia.
  - intros [= <-]. exists 0. split; [done|]. split; [done|]. intros; lia.
Qed.

Lemma firstOfFamily_None (isIPv6 : string → bool) (old6 : bool) (newIPs : list string) :
  firstOfFamily isIPv6 old6 newIPs = None ↔ ∀ x, x ∈ newIPs → isIPv6 x ≠ old6.
Proof.
  induction newIPs as [|x newIPs IH]; simpl.
  - split; [|done]. intros _ x []%elem_of_nil.
  - destruct old6; destruct (isIPv6 x) eqn:Hx; simpl.
    + split; [done|]. intros Hall. exfalso. apply (Hall x); [by left|done].
    + rewrite IH. split.
      * intros Hall y [->|Hy]%elem_of_cons; [by rewrite Hx|by apply Hall].
      * intros Hall y Hy. apply Hall. by right.
    + rewrite IH. split.
      * intros Hall y [->|Hy]%elem_of_cons; [by rewrite Hx|by apply Hall].
      * intros Hall y Hy. apply Hall. by right.
    + split; [done|]. intros Hall. exfalso. apply (Hall x); [by left|done].
Qed.

Lemma updateEntry_spec (isIPv6 : string → bool) (entry : string)
    (oldIPs newIPs : list string) :
  updateEntry isIPv6 entry oldIPs newIPs =
  if bool_decide (entry ∈ oldIPs)
  then default entry (firstOfFamily isIPv6 (isIPv6 entry) newIPs)
  else entry.
Proof.
  induction oldIPs as [|oldIP oldIPs IH]; simpl.
  - done.
  - destruct (decide (entry = oldIP)) as [Heq|Hne].
    + subst oldIP. rewrite (bool_decide_eq_true_2 (entry = entry)) by done.
      by rewrite bool_decide_eq_true_2 by (by left).
    + rewrite (bool_decide_eq_false_2 (entry = oldIP)) by done. rewrite IH.
      rewrite (bool_decide_ext (entry ∈ oldIP :: oldIPs) (entry ∈ oldIPs)); [done|].
      rewrite elem_of_cons. intuition congruence.
Qed.

(** [UpdateIPsSlice] returns a slice of the same length.  An entry that is
    not among the old addresses stays; an entry that is among them is
    replaced by the first new address of its own family, and stays when
    there is none.  So every entry of the result is the entry it replaces
    or a new address of the same family. *)
Theorem UpdateIPsSlice_entries (isIPv6 : string → bool) (s oldIPs newIPs : list string) :
  length (UpdateIPsSlice isIPv6 s oldIPs newIPs) = length s ∧
  ∀ i entry, s !! i = Some entry →
    ∃ r, UpdateIPsSlice isIPv6 s oldIPs newIPs !! i = Some r ∧
      (entry ∉ oldIPs → r = entry) ∧
      ((∀ x, x ∈ newIPs → isIPv6 x ≠ isIPv6 entry) → r = entry) ∧
      (entry ∈ oldIPs →
         ∀ j newIP, newIPs !! j = Some newIP → isIPv6 newIP = isIPv6 entry →
           (∀ j' x, j' < j → newIPs !! j' = Some x → isIPv6 x ≠ isIPv6 entry) →
           r = newIP) ∧
      (r = entry ∨ (entry ∈ oldIPs ∧ r ∈ newIPs ∧ isIPv6 r = isIPv6 entry)).
Proof.
  unfold UpdateIPsSlice. split; [apply length_fmap|].
  intros i entry Hi. rewrite list_lookup_fmap, Hi. simpl.
  eexists. split; [done|]. rewrite updateEntry_spec.
  destruct (firstOfFamily isIPv6 (isIPv6 entry) newIPs) as [newIP|] eqn:Hf; simpl.
  - destruct (firstOfFamily_Some _ _ _ _ Hf) as (k & Hk & H6 & Hfirst).
    case_bool_decide as Hin.
    + split; [done|]. split.
      { intros Hall. exfalso. eapply Hall; [|exact H6]. by eapply list_elem_of_lookup_2. }
      split.
      { intros _ j x Hj Hx6 Hbefore.
        destruct (Nat.lt_trichotomy j k) as [Hlt|[->|Hgt]].
        - exfalso. by eapply Hfirst.
        - congruence.
        - exfalso. by eapply Hbefore. }
      right. split; [done|]. split; [by eapply list_elem_of_lookup_2|done].
    + split; [done|]. split; [done|]. split; [done|]. by left.
  - pose proof (proj1 (firstOfFamily_None _ _ _) Hf) as Hnone. clear Hf.
    rename Hnone into Hf.
    assert (Hr : (if bool_decide (entry ∈ oldIPs) then entry else entry) = entry)
      by (by case_bool_decide).
    rewrite Hr. split; [done|]. split; [done|]. split; [|by left].
    intros _ j x Hj Hx6 _. exfalso. eapply Hf; [|exact Hx6].
    by eapply list_elem_of_lookup_2.
Qed.

Lemma matchesFilter_spec (is4 : string → bool) (ipStr : string) (filter_ : list IPNet) :
  matchesFilter (is4 ipStr) ipStr filter_ = true ↔ filterTakes is4 filter_ ipStr.
Proof.
  unfold filterTakes. induction filter_ as [|cidr filter_ IH]; simpl.
  - split; [done|]. intros (c & []%elem_of_nil & _).
  - destruct (is4 ipStr) eqn:H4; destruct (netIs4 cidr) eqn:Hn;
      destruct (Contains cidr ipStr) eqn:Hc; simpl.
    all: try (split; [intros _; exists cidr; split; [by left|by rewrite Hn, Hc]|done]).
    all: rewrite IH; split;
      [intros (c & Hin & H1 & H2); exists c; split; [by right|done]
      |intros (c & [->|Hin]%elem_of_cons & H1 & H2); [congruence|by exists c]].
Qed.

Lemma FilterIPsSlice_filter (is4 : string → bool) (s : list string)
    (filter_ : list IPNet) (keep : bool) :
  FilterIPsSlice is4 s filter_ keep =
  filter (λ ipStr, matchesFilter (is4 ipStr) ipStr filter_ = keep) s.
Proof.
  induction s as [|ipStr s IH]; simpl; [done|].
  rewrite filter_cons, <-IH.
  destruct (matchesFilter (is4 ipStr) ipStr filter_); destruct keep; simpl;
    by rewrite ?decide_True, ?decide_False by done.
Qed.

(** [FilterIPsSlice] keeps the order of the addresses and returns, with
    [keep], exactly those that the filter takes (an entry of the address's
    family contains it) and, without [keep], exactly the others: the two
    results split the input.  With an empty filter nothing is taken. *)
Theorem FilterIPsSlice_split (is4 : string → bool) (s : list string)
    (filter_ : list IPNet) :
  (∀ keep, FilterIPsSlice is4 s filter_ keep `sublist_of` s) ∧
  (∀ ipStr, ipStr ∈ FilterIPsSlice is4 s filter_ true ↔
            ipStr ∈ s ∧ filterTakes is4 filter_ ipStr) ∧
  (∀ ipStr, ipStr ∈ FilterIPsSlice is4 s filter_ false ↔
            ipStr ∈ s ∧ ¬ filterTakes is4 filter_ ipStr) ∧
  FilterIPsSlice is4 s filter_ true ++ FilterIPsSlice is4 s filter_ false ≡ₚ s ∧
  FilterIPsSlice is4 s [] false = s ∧
  FilterIPsSlice is4 s [] true = [].
Proof.
  split; [|split; [|split; [|split; [|split]]]].
  - intros keep. rewrite FilterIPsSlice_filter. apply sublist_filter.
  - intros ipStr. rewrite FilterIPsSlice_filter, list_elem_of_filter, matchesFilter_spec.
    tauto.
  - intros ipStr. rewrite FilterIPsSlice_filter, list_elem_of_filter.
    rewrite <-matchesFilter_spec. destruct (matchesFilter _ _ _); split; intros [? ?];
      (split; [done|]); congruence.
  - rewrite !FilterIPsSlice_filter.
    induction s as [|ipStr s IH]; [done|].
    rewrite !filter_cons. destruct (matchesFilter (is4 ipStr) ipStr filter_); simpl.
    + by constructor.
    + rewrite <-Permutation_middle. by constructor.
  - induction s as [|ipStr s IH]; simpl; [done|]. by rewrite IH.
  - induction s as [|ipStr s IH]; simpl; [done|]. by rewrite IH.
Qed.

(** ** Reading off results *)

Lemma option_fst_inv {A B} (r : option (A * B)) (a : A) (d : A * B) :
  fst <$> r = Some a → r = Some (a, (default d r).2).
Proof. destruct r as [[a' b]|]; simpl; [by intros [= ->]|done]. Qed.

Lemma succeeded_inl (r : option (ovndb + ovndb)) :
  succeeded r = true → ∃ c', r = Some (inl c').
Proof. destruct r as [[c'|c']|]; simpl; try done. by exists c'. Qed.

Lemma option_value_inv {A} (r : option A) (d : A) :
  is_Some r → r = Some (default d r).
Proof. by intros [a ->]. Qed.


(** * The properties on the example data *)

#[local] Existing Instance exampleNames.

(** Default synthesis on the switch of the example: the missing integer
    column with minimum 5 gets 5, the 0..1 boolean nil, the other boolean
    false, and [name] keeps its value. *)
Example initMissingColumnsWithDefaults_example :
  initMissingColumnsWithDefaults exNB "Logical_Switch"
    (mkRow (Some {[ "name" := VAtom (AString "ls0") ]})) =
  Some (mkRow (Some {[ "name" := VAtom (AString "ls0");
                       "external_ids" := VMap ∅;
                       "ports" := VSet [];
                       "tag" := VSet [];
                       "count" := VAtom (AInt 5);
                       "up" := VNil;
                       "enabled" := VAtom (ABool false);
                       "parent" := VNil ]})).
Proof. compute_done. Qed.

(** An insert notification for a switch that names only [name]: the cached
    row holds 5 in the integer column whose minimum is 5. *)
Example insert_synthesises_defaults :
  (populateCache2 (exClient ["A"] 0 (Some (exServer [] ∅ ∅)) ∅) "OVN_Northbound"
     {[ "Logical_Switch" :=
          {[ "u9" := mkRowUpdate2 emptyRow
                       (mkRow (Some {[ "name" := VAtom (AString "ls9") ]}))
                       emptyRow emptyRow ]} ]} true
   ≫= λ c, Some (field (cacheRow (cache c) "Logical_Switch" "u9") "count",
                 field (cacheRow (cache c) "Logical_Switch" "u9") "name",
                 signals c))
  = Some (Some (VAtom (AInt 5)), Some (VAtom (AString "ls9")),
          [Created "Logical_Switch" "u9"]).
Proof. compute_done. Qed.

Lemma applyUpdatesToRow_map_toggle_witness :
  ∃ cache1 cache2,
    applyUpdatesToRow (Some exNB) "Logical_Switch" "u1"
      (mapDiff "external_ids" {[ AString "owner" := AString "alice" ]}) exCache
      = Some cache1 ∧
    applyUpdatesToRow (Some exNB) "Logical_Switch" "u1"
      (mapDiff "external_ids" {[ AString "owner" := AString "alice" ]}) cache1
      = Some cache2 ∧
    mapKey cache1 "Logical_Switch" "u1" "external_ids" (AString "owner") = None ∧
    mapKey cache2 "Logical_Switch" "u1" "external_ids" (AString "owner")
      = mapKey exCache "Logical_Switch" "u1" "external_ids" (AString "owner").
Proof.
  assert (Hcs : tableColumns exNB "Logical_Switch" !! "external_ids"
                = Some (mkColumnSchema "map" 0 (-1))) by compute_done.
  assert (Ht : exCache !! "Logical_Switch" = Some exSwitchTable) by compute_done.
  assert (Hu : exSwitchTable !! "u1" = Some (mkRow (Some exSwitchFields)))
    by compute_done.
  assert (Hf : exSwitchFields !! "external_ids"
               = Some (VMap {[ AString "owner" := AString "alice" ]})) by compute_done.
  assert (Hk : ({[ AString "owner" := AString "alice" ]} : gmap Atom Atom)
                 !! AString "owner" = Some (AString "alice")) by compute_done.
  destruct (applyUpdatesToRow_map_toggle exNB "Logical_Switch" "u1" "external_ids"
              (mkColumnSchema "map" 0 (-1)) exCache exSwitchTable exSwitchFields
              {[ "external_ids" := VMap {[ AString "owner" := AString "alice" ]} ]}
              {[ AString "owner" := AString "alice" ]}
              {[ AString "owner" := AString "alice" ]}
              (AString "owner") (AString "alice") Hcs eq_refl Ht Hu Hf
              (lookup_singleton_eq _ _) Hk)
    as (_ & Hgen & cache1 & cache2 & H1 & H2).
  destruct (Hgen cache1 H1) as (_ & _ & Hrm & _ & Htwice).
  destruct (Htwice cache2 H2) as (Hback & _).
  exists cache1, cache2. split; [exact H1|]. split; [exact H2|].
  split; [apply Hrm; compute_done|].
  apply Hback. right. compute_done.
Defined.

(** C1 as stated fails where the key holds another value: the first
    application overwrites it and the second removes it, so the state of
    the key is not the one it started with. *)
Lemma applyUpdatesToRow_map_twice_not_inverse :
  ∃ cache1 cache2,
    applyUpdatesToRow (Some exNB) "Logical_Switch" "u1"
      (mapDiff "external_ids" {[ AString "owner" := AString "bob" ]}) exCache
      = Some cache1 ∧
    applyUpdatesToRow (Some exNB) "Logical_Switch" "u1"
      (mapDiff "external_ids" {[ AString "owner" := AString "bob" ]}) cache1
      = Some cache2 ∧
    mapKey exCache "Logical_Switch" "u1" "external_ids" (AString "owner")
      = Some (AString "alice") ∧
    mapKey cache1 "Logical_Switch" "u1" "external_ids" (AString "owner")
      = Some (AString "bob") ∧
    mapKey cache2 "Logical_Switch" "u1" "external_ids" (AString "owner") = None ∧
    mapKey cache2 "Logical_Switch" "u1" "external_ids" (AString "owner")
      ≠ mapKey exCache "Logical_Switch" "u1" "external_ids" (AString "owner").
Proof. exists exBobOnce, exBobTwice. repeat split; compute_done. Qed.

Lemma applyUpdatesToRow_set_witness :
  ∃ cache1,
    applyUpdatesToRow (Some exNB) "Logical_Switch" "u1"
      (columnDiff "ports" (VSet [AUUID "p2"])) exCache = Some cache1 ∧
    field (cacheRow cache1 "Logical_Switch" "u1") "ports" = Some (VAtom (AUUID "p1")).
Proof.
  assert (Hcs : tableColumns exNB "Logical_Switch" !! "ports"
                = Some (mkColumnSchema "set" 0 10)) by compute_done.
  assert (Ht : exCache !! "Logical_Switch" = Some exSwitchTable) by compute_done.
  assert (Hu : exSwitchTable !! "u1" = Some (mkRow (Some exSwitchFields)))
    by compute_done.
  assert (Hf : exSwitchFields !! "ports" = Some (VSet [AUUID "p1"; AUUID "p2"]))
    by compute_done.
  destruct (applyUpdatesToRow_set exNB "Logical_Switch" "u1" "ports"
              (mkColumnSchema "set" 0 10) exCache exSwitchTable exSwitchFields
              {[ "ports" := VSet [AUUID "p2"] ]}
              (VSet [AUUID "p1"; AUUID "p2"]) (VSet [AUUID "p2"]) Hcs eq_refl Ht Hu Hf
              (lookup_singleton_eq _ _))
    as (_ & Hgt & _).
  destruct (Hgt eq_refl [AUUID "p1"; AUUID "p2"] [AUUID "p2"] eq_refl eq_refl)
    as (nv & Hnv & Hread & (cache1 & Happ) & _).
  exists cache1. split; [exact Happ|].
  rewrite (Hread cache1 Happ), Hnv. compute_done.
Defined.

(** The collapsing and the return to a set: toggling [p2] out of
    [{p1, p2}] leaves the bare [p1], toggling [p3] in gives [{p1, p3}]. *)
Example ports_collapse_and_expand :
  (applyUpdatesToRow (Some exNB) "Logical_Switch" "u1"
     (columnDiff "ports" (VAtom (AUUID "p2"))) exCache
   ≫= applyUpdatesToRow (Some exNB) "Logical_Switch" "u1"
        (columnDiff "ports" (VSet [AUUID "p3"])))
  = Some {[ "Logical_Switch" :=
              {[ "u1" := mkRow (Some (<[ "ports" := VSet [AUUID "p1"; AUUID "p3"] ]>
                                        exSwitchFields)) ]} ]}.
Proof. compute_done. Qed.

Lemma getRowUUIDs_matches_witness :
  ∃ uuids,
    getRowUUIDs exCache "Logical_Switch" {[ "nat_addresses" := VAtom (AString "x") ]}
      = Some uuids ∧
    "u1" ∈ uuids.
Proof.
  assert (Ht : exCache !! "Logical_Switch" = Some exSwitchTable) by compute_done.
  destruct (getRowUUIDs_matches exCache "Logical_Switch" exSwitchTable Ht)
    as [_ Hq].
  destruct (Hq {[ "nat_addresses" := VAtom (AString "x") ]})
    as (uuids & Hg & _ & _ & Hlack).
  { intros f v [_ <-]%lookup_singleton_Some. exact I. }
  exists uuids. split; [exact Hg|].
  apply (Hlack "u1" (mkRow (Some exSwitchFields))); [compute_done|].
  intros f [v [<- _]%lookup_singleton_Some]. compute_done.
Defined.

Lemma transact_operation_error_witness :
  ∃ e odbi',
    transact (exClient ["A"] 0 (Some (exServer [exOK; exFailed; exOK] ∅ ∅)) ∅)
      "OVN_Northbound" [exInsert "ls0"; exInsert "ls0"; exInsert "ls1"]
      = Some (None, Some e, odbi') ∧
    ∃ cl', client odbi' = Some cl' ∧ connected cl' = false.
Proof.
  destruct (transact_operation_error
              (exClient ["A"] 0 (Some (exServer [exOK; exFailed; exOK] ∅ ∅)) ∅)
              "OVN_Northbound" [exInsert "ls0"; exInsert "ls0"; exInsert "ls1"]
              (exServer [exOK; exFailed; exOK] ∅ ∅) [exOK; exFailed; exOK]
              eq_refl eq_refl) as [Herr _].
  destruct Herr as (e & odbi' & Ht & _ & Hcl & _).
  { exists exFailed. split; [|discriminate]. right. left. }
  exists e, odbi'. split; [exact Ht|exact Hcl].
Defined.

Lemma transact_few_replies_witness :
  transact (exClient ["A"] 0 (Some (exServer [exOK] ∅ ∅)) ∅)
    "OVN_Northbound" [exInsert "ls0"; exInsert "ls1"]
  = Some (Some [exOK], Some ErrFewReplies,
          exClient ["A"] 0 (Some (exServer [exOK] ∅ ∅)) ∅).
Proof.
  destruct (transact_few_replies
              (exClient ["A"] 0 (Some (exServer [exOK] ∅ ∅)) ∅)
              "OVN_Northbound" [exInsert "ls0"; exInsert "ls1"]
              (exServer [exOK] ∅ ∅) [exOK] eq_refl eq_refl) as [Hfew _].
  { intros o ->%list_elem_of_singleton. reflexivity. }
  destruct Hfew as [Ht _]; [simpl; lia|]. exact Ht.
Defined.

Lemma populateCache_identical_row_witness :
  populateCache (exClient ["A"] 0 None exCache) "OVN_Northbound"
    {[ "Logical_Switch" := {[ "u1" := exSnapshot ]} ]} true
  = exClient ["A"] 0 None exCache.
Proof.
  assert (Hup : ({[ "Logical_Switch" := {[ "u1" := exSnapshot ]} ]}
                   : gmap string (gmap string RowUpdate)) !! "Logical_Switch"
                = Some {[ "u1" := exSnapshot ]}) by apply lookup_singleton_eq.
  assert (Hrow : ({[ "u1" := exSnapshot ]} : gmap string RowUpdate) !! "u1"
                 = Some exSnapshot) by apply lookup_singleton_eq.
  assert (Hne : float64_to_int (New exSnapshot) ≠ emptyRow) by compute_done.
  assert (Heq : float64_to_int (New exSnapshot)
                = cacheRow (ctxCache (getContext (exClient ["A"] 0 None exCache)
                                        "OVN_Northbound")
                              (exClient ["A"] 0 None exCache)) "Logical_Switch" "u1")
    by compute_done.
  exact (proj1 (proj2 (proj2
    (populateCache_identical_row (exClient ["A"] 0 None exCache)
       "OVN_Northbound" {[ "Logical_Switch" := {[ "u1" := exSnapshot ]} ]} true
       "Logical_Switch" "u1" {[ "u1" := exSnapshot ]} exSnapshot
       Hup Hrow Hne Heq)))).
Defined.

(** C9 at a failing input.  The cache holds the logical router [r1] and no
    logical switch: the deletion of a key from the router's column reports
    that the row is not found.  With a logical switch of the same name in
    the cache, the mutate operation on the router table is conditioned on
    the identifier of the switch. *)
Lemma auxKeyValDel_looks_in_Logical_Switch :
  field (cacheRow exRouterCache "Logical_Router" "r-uuid") "name"
    = Some (VAtom (AString "r1")) ∧
  auxKeyValDel (exClient ["A"] 0 None exRouterCache)
    "Logical_Router" "r1" "external_ids" {[ "k" := None ]}
  = Some (inr ErrorNotFound) ∧
  auxKeyValDel (exClient ["A"] 0 None exClashCache)
    "Logical_Router" "r1" "external_ids" {[ "k" := None ]}
  = Some (inl (mkOvnCommand
       [mkOperation opMutate "Logical_Router" ∅
          [NewMutation "external_ids" opDelete (VSet [AString "k"])]
          [NewCondition "_uuid" "==" (VAtom (AUUID "s-uuid"))]])).
Proof.
  split; [compute_done|]. split.
  - apply auxKeyValDel_not_found; compute_done.
  - vm_compute. reflexivity.
Qed.

Lemma exABC_dial_fails (Connect : string → option OvsdbClient) (addr : string) :
  Connect addr = None → attemptFails Connect exABCLater addr.
Proof.
  intros Hdial c (cur & d & ->) Ha. unfold connectAttempt.
  rewrite Ha. cbn -[connectEndpoint]. rewrite Hdial. simpl.
  eexists. split; [reflexivity|]. eexists _, _. reflexivity.
Qed.

Lemma exABC_C_succeeds : attemptSucceeds exOnlyC exABCLater "C".
Proof.
  intros c (cur & d & ->) Ha. apply succeeded_inl. unfold connectAttempt.
  rewrite Ha. vm_compute. reflexivity.
Qed.

Lemma connect_failover_order_witness :
  (∃ c', connect exOnlyC exABC = Some (None, c') ∧
         curEndpoint c' = 2 ∧ dialed c' = ["A"; "B"; "C"]) ∧
  (∃ c', connect exNobody exABC
           = Some (Some (ErrConnectAll "OVN_Northbound" ["A"; "B"; "C"]), c') ∧
         curEndpoint c' = 0 ∧ dialed c' = ["A"; "B"; "C"]).
Proof.
  assert (HI : exABCLater exABC) by (exists 0, []; reflexivity).
  assert (Hcur : curEndpoint exABC < length (endpoints exABC)) by (simpl; lia).
  split.
  - destruct (connect_failover_order exOnlyC exABCLater exABC HI Hcur) as [_ Hok].
    destruct (Hok 2) as (c' & Hc & Hcursor & Hd).
    + simpl. lia.
    + intros [|[|j]] Hj; [exists "A"|exists "B"|lia];
        (split; [reflexivity|by apply exABC_dial_fails]).
    + exists "C". split; [reflexivity|apply exABC_C_succeeds].
    + exists c'. split; [exact Hc|]. split; [exact Hcursor|exact Hd].
  - destruct (connect_failover_order exNobody exABCLater exABC HI Hcur) as [Hall _].
    destruct Hall as (c' & Hc & Hcursor & Hd & _).
    + intros addr _. by apply exABC_dial_fails.
    + exists c'. split; [exact Hc|]. split; [exact Hcursor|exact Hd].
Defined.

Lemma connectEndpoint_follower_witness :
  ∃ c'', connectAttempt exFollowers (exClient ["A"; "B"] 0 None ∅) = Some (inr c'') ∧
         curEndpoint c'' = 1 ∧ client c'' = None.
Proof.
  set (c0 := exClient ["A"; "B"] 0 None ∅).
  set (cl := exServer [] ∅ (exMembership "clustered" false)).
  set (dump := connectEndpointDump (set_client (Some cl) (set_dialed (dialed c0 ++ ["A"]) c0))).
  assert (Hdump : dump = Some (None, (default (None, c0) dump).2)).
  { apply option_fst_inv. vm_compute. reflexivity. }
  assert (Htab : serverCache (default (None, c0) dump).2 !! TableDatabase
                 = Some {[ "d1" := exMemberRow "clustered" false ]}) by compute_done.
  destruct (connectEndpoint_follower exFollowers c0 (default (None, c0) dump).2 "A" cl
              {[ "d1" := exMemberRow "clustered" false ]} eq_refl eq_refl eq_refl
              Hdump Htab)
    as (_ & c'' & Hc & Hcur & Hcl).
  - exists "d1", (exMemberRow "clustered" false).
    split; [apply lookup_singleton_eq|]. repeat split; compute_done.
  - intros uuid row [_ <-]%lookup_singleton_Some (_ & _ & Hl).
    vm_compute in Hl. discriminate.
  - exists c''. split; [exact Hc|]. split; [exact Hcur|exact Hcl].
Defined.

(** C8 as stated fails for a row whose model is not "clustered": the
    server cache holds a row for the client's database with the leader flag
    false, leader-only mode is on, and [connectEndpoint] returns no error;
    [connect] stays on the endpoint. *)
Lemma connectEndpoint_accepts_standalone :
  ∃ c' dbTable row,
    connectEndpoint (set_client (Some (exServer [] ∅ (exMembership "standalone" false)))
                       (exClient ["A"; "B"] 0 None ∅))
      = Some (None, c') ∧
    leaderOnly c' = true ∧
    serverCache c' !! TableDatabase = Some dbTable ∧
    dbTable !! "d1" = Some row ∧
    field row "name" = Some (VAtom (AString (db c'))) ∧
    field row "leader" = Some (VAtom (ABool false)) ∧
    ∃ c'', connect exStandalone (exClient ["A"; "B"] 0 None ∅) = Some (None, c'') ∧
           curEndpoint c'' = 0 ∧ dialed c'' = ["A"].
Proof.
  set (c0 := exClient ["A"; "B"] 0 None ∅).
  set (r := connectEndpoint
              (set_client (Some (exServer [] ∅ (exMembership "standalone" false))) c0)).
  exists (default (None, c0) r).2, {[ "d1" := exMemberRow "standalone" false ]},
    (exMemberRow "standalone" false).
  split; [apply option_fst_inv; vm_compute; reflexivity|].
  split; [vm_compute; reflexivity|].
  split; [compute_done|]. split; [apply lookup_singleton_eq|].
  split; [compute_done|]. split; [compute_done|].
  exists (default (None, c0) (connect exStandalone c0)).2.
  split; [apply option_fst_inv; vm_compute; reflexivity|].
  split; vm_compute; reflexivity.
Qed.

(** ** Further functions of the client *)

Lemma executeR_success_witness :
  executeR (exClient ["A"] 0 (Some (exServer [exCreated; exOK] ∅ ∅)) ∅) (Some exCommands)
  = Some (Some ["new-uuid"], None,
          exClient ["A"] 0 (Some (exServer [exCreated; exOK] ∅ ∅)) ∅).
Proof.
  refine (proj1 (executeR_success
            (exClient ["A"] 0 (Some (exServer [exCreated; exOK] ∅ ∅)) ∅) exCommands
            (exServer [exCreated; exOK] ∅ ∅) [exCreated; exOK] eq_refl eq_refl _ _)).
  - intros o [->|[->|[]%elem_of_nil]%elem_of_cons]%elem_of_cons; reflexivity.
  - simpl. lia.
Defined.

Lemma executeR_ids_or_error_witness :
  ∃ cl cmds',
    client (exClient ["A"] 0 (Some (exServer [exCreated] ∅ ∅)) ∅) = Some cl ∧
    Some [Some (mkOvnCommand [exInsert "ls0"])] = Some cmds' ∧
    ["new-uuid"] = createdUUIDs (Transact cl "OVN_Northbound" (allOperations cmds')).1.
Proof.
  assert (He : executeR (exClient ["A"] 0 (Some (exServer [exCreated] ∅ ∅)) ∅)
                 (Some [Some (mkOvnCommand [exInsert "ls0"])])
               = Some (Some ["new-uuid"], None,
                       exClient ["A"] 0 (Some (exServer [exCreated] ∅ ∅)) ∅))
    by reflexivity.
  destruct (executeR_ids_or_error _ _ _ _ _ He) as (_ & _ & Hids).
  destruct (Hids ["new-uuid"] eq_refl) as (_ & _ & _ & Hex). exact Hex.
Defined.

Lemma getRowUUID_result_witness :
  ∃ uuid,
    getRowUUID exCache "Logical_Switch" {[ "name" := VAtom (AString "ls0") ]} = Some uuid ∧
    ∃ row', exSwitchTable !! uuid = Some row' ∧
            rowMatches {[ "name" := VAtom (AString "ls0") ]} row'.
Proof.
  destruct (getRowUUID_result exCache "Logical_Switch"
              {[ "name" := VAtom (AString "ls0") ]}) as (uuid & Hu & _ & _ & Hfound).
  { intros f v [_ <-]%lookup_singleton_Some. exact I. }
  exists uuid. split; [exact Hu|].
  apply (Hfound exSwitchTable "u1" (mkRow (Some exSwitchFields))).
  - compute_done.
  - compute_done.
  - intros f v [<- <-]%lookup_singleton_Some v' Hv'.
    assert (Hf : field (mkRow (Some exSwitchFields)) "name" = Some (VAtom (AString "ls0")))
      by compute_done.
    congruence.
Defined.

Lemma auxKeyValSet_merge_witness :
  ∃ mergedMap,
    auxKeyValSet (exClient ["A"] 0 None exCache) "Logical_Switch" "ls0" "external_ids"
      {[ "zone" := "z1" ]}
    = Some (inl (mkOvnCommand
        [mkOperation opUpdate "Logical_Switch"
           (<["external_ids" := VMap mergedMap]> {[ "name" := VAtom (AString "ls0") ]})
           [] [NewCondition "_uuid" "==" (VAtom (AUUID "u1"))]])) ∧
    mergedMap !! AString "zone" = Some (AString "z1") ∧
    mergedMap !! AString "owner" = Some (AString "alice").
Proof.
  assert (Hkv : ({[ "zone" := "z1" ]} : gmap string string) ≠ ∅)
    by apply insert_non_empty.
  assert (Hu : getRowUUID (cache (exClient ["A"] 0 None exCache)) "Logical_Switch"
                 {[ "name" := VAtom (AString "ls0") ]} = Some "u1") by compute_done.
  assert (Hcol : fieldOrNil (cacheRow (cache (exClient ["A"] 0 None exCache))
                               "Logical_Switch" "u1") "external_ids"
                 = VMap {[ AString "owner" := AString "alice" ]}) by compute_done.
  destruct (auxKeyValSet_merge (exClient ["A"] 0 None exCache) "Logical_Switch" "ls0"
              "external_ids" "u1" {[ "zone" := "z1" ]}
              {[ AString "owner" := AString "alice" ]} Hkv Hu Hcol)
    as (mergedMap & Hcmd & Hgiven & Hcached & _).
  { intros k v [<- <-]%lookup_singleton_Some. exists "owner". split; [done|].
    intros _. by exists "alice". }
  exists mergedMap. split; [exact Hcmd|]. split.
  - apply Hgiven. apply lookup_singleton_eq.
  - rewrite (Hcached "owner"); [apply lookup_singleton_eq|].
    apply lookup_singleton_ne. discriminate.
Defined.

Lemma modifySet_twice_witness :
  ∃ nv nv',
    modifySet (VSet [AUUID "p1"; AUUID "p2"]) (VSet [AUUID "p2"; AUUID "p3"]) = Some nv ∧
    modifySet (collapse nv) (VSet [AUUID "p2"; AUUID "p3"]) = Some nv' ∧
    nv' ≡ₚ [AUUID "p1"; AUUID "p2"].
Proof.
  apply (modifySet_twice [AUUID "p1"; AUUID "p2"] [AUUID "p2"; AUUID "p3"]).
  - compute_done.
  - compute_done.
Defined.

Lemma connect_outcome_witness :
  dialed (set_dialed ["A"; "B"; "C"] exABC)
    = dialed exABC ++ fromCursor 0 ["A"; "B"; "C"] ∧
  client (set_dialed ["A"; "B"; "C"] exABC) = None.
Proof.
  assert (Hc : connect exNobody exABC
               = Some (Some (ErrConnectAll "OVN_Northbound" ["A"; "B"; "C"]),
                       set_dialed ["A"; "B"; "C"] exABC)) by reflexivity.
  assert (Hcur : curEndpoint exABC < length (endpoints exABC)) by (simpl; lia).
  destruct (connect_outcome exNobody exABC _ _ Hcur Hc) as (_ & _ & Hd & _ & Hcl).
  split; [exact Hd|exact Hcl].
Defined.

Lemma nextEndpoint_cycle_witness :
  Nat.iter 3 nextEndpoint exABC = exABC.
Proof.
  assert (Hne : endpoints exABC ≠ []) by discriminate.
  assert (Hcur : curEndpoint exABC < length (endpoints exABC)) by (simpl; lia).
  exact (proj2 (proj2 (proj2 (nextEndpoint_cycle exABC 1 Hne Hcur)))).
Defined.

Lemma monitorTables_validation_witness :
  monitorTables
    (set_tableCols {[ "Port_Binding" := [] ]}
       (exClient ["A"] 0 (Some (exServer [] ∅ ∅)) ∅)) "OVN_Northbound"
  = Some (inr (ErrTableNotSupported "Port_Binding" "OVN_Northbound"),
          set_tableCols {[ "Port_Binding" := [] ]}
            (exClient ["A"] 0 (Some (exServer [] ∅ ∅)) ∅)).
Proof.
  assert (Hne : (if bool_decide ("OVN_Northbound" = DBServer)
                 then serverTableCols
                        (set_tableCols {[ "Port_Binding" := [] ]}
                           (exClient ["A"] 0 (Some (exServer [] ∅ ∅)) ∅))
                 else tableCols
                        (set_tableCols {[ "Port_Binding" := [] ]}
                           (exClient ["A"] 0 (Some (exServer [] ∅ ∅)) ∅))) ≠ ∅)
    by apply insert_non_empty.
  pose proof (monitorTables_validation
                (set_tableCols {[ "Port_Binding" := [] ]}
                   (exClient ["A"] 0 (Some (exServer [] ∅ ∅)) ∅))
                "OVN_Northbound" (exServer [] ∅ ∅) eq_refl) as Hvalid.
  assert (Hreq : (if bool_decide ("OVN_Northbound" = DBServer)
                  then serverTableCols
                         (set_tableCols {[ "Port_Binding" := [] ]}
                            (exClient ["A"] 0 (Some (exServer [] ∅ ∅)) ∅))
                  else tableCols
                         (set_tableCols {[ "Port_Binding" := [] ]}
                            (exClient ["A"] 0 (Some (exServer [] ∅ ∅)) ∅)))
                 = {[ "Port_Binding" := [] ]}) by reflexivity.
  destruct (Hvalid Hne) as [(e & Hm & He)|[Hall _]].
  - destruct He as [(_ & t & columns & Ht & Hcols)|(t & -> & [columns Ht] & _)].
    + rewrite Hreq in Ht. apply lookup_singleton_Some in Ht as [_ <-]. done.
    + rewrite Hreq in Ht. apply lookup_singleton_Some in Ht as [<- _]. exact Hm.
  - exfalso. destruct (Hall "Port_Binding" []) as (_ & Hin & _).
    + rewrite Hreq. apply lookup_singleton_eq.
    + revert Hin. compute_done.
Defined.


Lemma populateCache2_entries_witness :
  ∃ c',
    populateCache2 (exClient ["A"] 0 (Some (exServer [] ∅ ∅)) exCache) "OVN_Northbound"
      {[ "Logical_Switch" := {[ "u1" := exModify ]} ]} true = Some c' ∧
    cacheRow (cache c') "Logical_Switch" "u1"
      = mkRow (Some (<[ "external_ids" := VMap ∅ ]> exSwitchFields)).
Proof.
  set (odbi := exClient ["A"] 0 (Some (exServer [] ∅ ∅)) exCache).
  set (updates := ({[ "Logical_Switch" := {[ "u1" := exModify ]} ]}
                     : gmap string (gmap string RowUpdate2))).
  set (r := populateCache2 odbi "OVN_Northbound" updates true).
  assert (Hp : r = Some (default odbi r)).
  { apply option_value_inv. compute_done. }
  exists (default odbi r). split; [exact Hp|].
  pose proof (populateCache2_entries odbi (default odbi r) "OVN_Northbound" updates true
                "Logical_Switch" "u1" Hp) as Hentry.
  cbv zeta in Hentry.
  assert (Hup : updateOf2 (ctxTableCols (getContext odbi "OVN_Northbound") odbi) updates
                  "Logical_Switch" "u1" = Some exModify) by compute_done.
  rewrite Hup in Hentry.
  assert (Hafter : rowAfter2 (getSchema odbi "OVN_Northbound") "Logical_Switch" exModify
                     (cacheRow (ctxCache (getContext odbi "OVN_Northbound") odbi)
                        "Logical_Switch" "u1")
                   = Some (mkRow (Some (<[ "external_ids" := VMap ∅ ]> exSwitchFields))))
    by compute_done.
  rewrite Hafter in Hentry.
  assert (Hctx : ∀ x, ctxCache (getContext odbi "OVN_Northbound") x = cache x)
    by (intros x; reflexivity).
  rewrite Hctx in Hentry.
  apply (inj Some) in Hentry. symmetry. exact Hentry.
Defined.


Lemma disconnectIfFollower_follower_witness :
  client (handleDisconnSig (disconnectIfFollower TableDatabase "d1" exFollowerClient))
    = None ∧
  curEndpoint (handleDisconnSig (disconnectIfFollower TableDatabase "d1" exFollowerClient))
    = 1.
Proof.
  assert (Hlo : leaderOnly exFollowerClient = true) by reflexivity.
  assert (Hfl : serverIsLeader exFollowerClient = false) by compute_done.
  assert (Hne : endpoints exFollowerClient ≠ []) by discriminate.
  destruct (proj1 (disconnectIfFollower_follower exFollowerClient "d1") Hlo Hfl Hne)
    as (_ & Hcl & _ & Hcur & _).
  split; [exact Hcl|exact Hcur].
Defined.


Lemma auxKeyValSet_errors_witness :
  auxKeyValSet (exClient ["A"] 0 None exCache) "Logical_Switch" "nope" "external_ids"
    {[ "zone" := "z1" ]}
  = Some (inr (ErrColumnNotPresent "Logical_Switch" "nope" "external_ids")).
Proof.
  apply (proj1 (proj2 (auxKeyValSet_errors (exClient ["A"] 0 None exCache)
                         "Logical_Switch" "nope" "external_ids" {[ "zone" := "z1" ]}))).
  - apply insert_non_empty.
  - intros t u row Ht Hu Hm.
    assert (t = exSwitchTable) as ->.
    { simpl in Ht. unfold exCache in Ht. rewrite lookup_singleton_eq in Ht. congruence. }
    unfold exSwitchTable in Hu. apply lookup_singleton_Some in Hu as [<- <-].
    assert (Hname : field (mkRow (Some exSwitchFields)) "name"
                    = Some (VAtom (AString "ls0"))) by compute_done.
    pose proof (Hm "name" (VAtom (AString "nope")) (lookup_singleton_eq _ _) _ Hname).
    discriminate.
  - compute_done.
Defined.

Lemma serverIsLeader_false_only_if_witness :
  ∃ t u row,
    serverCache exFollowerClient !! TableDatabase = Some t ∧ t !! u = Some row ∧
    rowSays (db exFollowerClient) true false row.
Proof.
  apply (proj1 (serverIsLeader_false_only_if exFollowerClient)). compute_done.
Defined.

Lemma initMissingColumnsWithDefaults_idempotent_witness :
  initMissingColumnsWithDefaults exNB "Logical_Router"
    (mkRow (Some {[ "name" := VAtom (AString "r1");
                    "external_ids" := VMap ∅ ]}))
  = Some (mkRow (Some {[ "name" := VAtom (AString "r1");
                         "external_ids" := VMap ∅ ]})).
Proof.
  apply (proj2 (initMissingColumnsWithDefaults_idempotent exNB "Logical_Router"
                  (mkRow (Some {[ "name" := VAtom (AString "r1") ]})))).
  compute_done.
Defined.

Lemma transact_first_error_witness :
  transact (exClient ["A"] 0 (Some (exServer [exOK; exCommitFailed] ∅ ∅)) ∅)
    "OVN_Northbound" [exInsert "ls0"]
  = Some (None,
          Some (ErrTransactionFailed "constraint violation" "commit refused"
                  commitTransactionText),
          set_client (Some (Disconnect (exServer [exOK; exCommitFailed] ∅ ∅)))
            (exClient ["A"] 0 (Some (exServer [exOK; exCommitFailed] ∅ ∅)) ∅)).
Proof.
  destruct (transact_first_error
              (exClient ["A"] 0 (Some (exServer [exOK; exCommitFailed] ∅ ∅)) ∅)
              "OVN_Northbound" [exInsert "ls0"]
              (exServer [exOK; exCommitFailed] ∅ ∅) [exOK; exCommitFailed] 1
              exCommitFailed eq_refl eq_refl eq_refl)
    as (info & Ht & _ & Hcommit).
  - discriminate.
  - intros [|j'] o' Hlt Hl; [|lia]. by injection Hl as <-.
  - rewrite Hcommit in Ht by (simpl; lia). exact Ht.
Defined.

Lemma populateCache2_signals_witness :
  ∃ c' added,
    populateCache2 (exClient ["A"] 0 (Some (exServer [] ∅ ∅)) exCache) "OVN_Northbound"
      exBatch2 true = Some c' ∧
    signals c' = added ∧
    Created "Logical_Switch" "u1" ∈ added ∧
    Created "Logical_Switch" "u2" ∈ added ∧
    Deleted "Logical_Switch" "u3" ∈ added ∧
    Created "Logical_Switch" "u3" ∉ added.
Proof.
  set (odbi := exClient ["A"] 0 (Some (exServer [] ∅ ∅)) exCache).
  set (r := populateCache2 odbi "OVN_Northbound" exBatch2 true).
  assert (Hp : r = Some (default odbi r)).
  { apply option_value_inv. compute_done. }
  destruct (populateCache2_signals odbi (default odbi r) "OVN_Northbound" exBatch2 true Hp)
    as (added & Hsig & _ & Hcalls).
  exists (default odbi r), added. split; [exact Hp|]. split; [exact Hsig|].
  assert (Hon : signalling odbi "OVN_Northbound" true = true) by compute_done.
  split; [|split; [|split]].
  - apply (proj1 (Hcalls "Logical_Switch" "u1")). split; [exact Hon|].
    exists exModify. split; compute_done.
  - apply (proj1 (Hcalls "Logical_Switch" "u2")). split; [exact Hon|].
    eexists. split; [compute_done|]. compute_done.
  - apply (proj2 (Hcalls "Logical_Switch" "u3")). split; [exact Hon|].
    eexists. split; [compute_done|]. compute_done.
  - intros Hin. apply (proj1 (Hcalls "Logical_Switch" "u3")) in Hin
      as (_ & row & Hrow & Hann).
    assert (Hu3 : updateOf2 (tableCols odbi) exBatch2 "Logical_Switch" "u3"
                  = Some (mkRowUpdate2 emptyRow emptyRow (mkRow (Some ∅)) emptyRow))
      by compute_done.
    rewrite Hu3 in Hrow. injection Hrow as <-. revert Hann. compute_done.
Defined.
